(** * GreenHydrogenCredit: a shallow embedding of the credit registry contract

    The contract [contracts/GreenHydrogenCredit.sol] is embedded function by
    function.  Storage is a record of finite maps read with Solidity's
    zero-default semantics; external calls run in a small state-and-revert
    monad; [uint256] arithmetic is checked (pragma ^0.8.20 and no
    [unchecked] block: an overflowing [+=] or [++] reverts with Panic(0x11));
    emitted events are appended to a log that is part of the state.

    Call arguments range over all of [N].  Values that do not fit the
    Solidity type of an argument are not excluded, so a statement proved for
    every argument or every reachable state covers at least the calls the
    ABI admits; the concrete inputs used below all fit their types. *)

From Stdlib Require Import NArith Lia Permutation Sorted.
From stdpp Require Import gmap strings list fin_maps.

Local Open Scope N_scope.

(** ** Value types *)

(** [address] and [uint256] values are natural numbers; [address(0)] is 0.
    The width of [uint256] shows in the checked arithmetic below. *)
Abbreviation address := N (only parsing).
Abbreviation uint256 := N (only parsing).

Definition MAX_UINT256 : N := 2 ^ 256 - 1.

Inductive CreditStatus := Active | Retired | Suspended.
Inductive VerificationStatus := Pending | Verified | Rejected.

Global Instance CreditStatus_eq_dec : EqDecision CreditStatus.
Proof. solve_decision. Defined.
Global Instance VerificationStatus_eq_dec : EqDecision VerificationStatus.
Proof. solve_decision. Defined.

Module Credit.
Record t := mk {
  id : uint256;
  owner : address;
  producer : address;
  producerName : string;
  amount : uint256;
  productionDate : uint256;
  renewableSource : string;
  location : string;
  carbonIntensity : uint256;
  verificationStatus : VerificationStatus;
  status : CreditStatus;
  certifier : address;
  certificationDate : uint256;
  metadata : string;
  isRetired : bool;
  retirementDate : uint256;
  retirementReason : string
}.

Definition set_owner (a : address) (c : t) : t :=
  mk (id c) a (producer c) (producerName c) (amount c) (productionDate c)
     (renewableSource c) (location c) (carbonIntensity c)
     (verificationStatus c) (status c) (certifier c) (certificationDate c)
     (metadata c) (isRetired c) (retirementDate c) (retirementReason c).

Definition set_verificationStatus (v : VerificationStatus) (c : t) : t :=
  mk (id c) (owner c) (producer c) (producerName c) (amount c)
     (productionDate c) (renewableSource c) (location c) (carbonIntensity c)
     v (status c) (certifier c) (certificationDate c)
     (metadata c) (isRetired c) (retirementDate c) (retirementReason c).

Definition set_status (st : CreditStatus) (c : t) : t :=
  mk (id c) (owner c) (producer c) (producerName c) (amount c)
     (productionDate c) (renewableSource c) (location c) (carbonIntensity c)
     (verificationStatus c) st (certifier c) (certificationDate c)
     (metadata c) (isRetired c) (retirementDate c) (retirementReason c).

Definition set_isRetired (b : bool) (c : t) : t :=
  mk (id c) (owner c) (producer c) (producerName c) (amount c)
     (productionDate c) (renewableSource c) (location c) (carbonIntensity c)
     (verificationStatus c) (status c) (certifier c) (certificationDate c)
     (metadata c) b (retirementDate c) (retirementReason c).

Definition set_retirementDate (d : uint256) (c : t) : t :=
  mk (id c) (owner c) (producer c) (producerName c) (amount c)
     (productionDate c) (renewableSource c) (location c) (carbonIntensity c)
     (verificationStatus c) (status c) (certifier c) (certificationDate c)
     (metadata c) (isRetired c) d (retirementReason c).

Definition set_retirementReason (r : string) (c : t) : t :=
  mk (id c) (owner c) (producer c) (producerName c) (amount c)
     (productionDate c) (renewableSource c) (location c) (carbonIntensity c)
     (verificationStatus c) (status c) (certifier c) (certificationDate c)
     (metadata c) (isRetired c) (retirementDate c) r.

(** The value a mapping slot holds before it is ever written. *)
Definition zero : t :=
  mk 0 0 0 String.EmptyString 0 0 String.EmptyString String.EmptyString 0
     Pending Active 0 0 String.EmptyString false 0 String.EmptyString.
End Credit.

Module Auditor.
Record t := mk {
  auditorAddress : address;
  name : string;
  accreditation : string;
  isActive : bool;
  verificationCount : uint256;
  lastVerification : uint256
}.

Definition set_isActive (b : bool) (a : t) : t :=
  mk (auditorAddress a) (name a) (accreditation a) b
     (verificationCount a) (lastVerification a).

Definition set_verificationCount (n : uint256) (a : t) : t :=
  mk (auditorAddress a) (name a) (accreditation a) (isActive a)
     n (lastVerification a).

Definition set_lastVerification (n : uint256) (a : t) : t :=
  mk (auditorAddress a) (name a) (accreditation a) (isActive a)
     (verificationCount a) n.

Definition zero : t :=
  mk 0 String.EmptyString String.EmptyString false 0 0.
End Auditor.

Module ProductionBatch.
Record t := mk {
  batchId : uint256;
  producer : address;
  totalAmount : uint256;
  verificationCount : uint256;
  isVerified : bool;
  creditIds : list uint256
}.

Definition set_verificationCount (n : uint256) (b : t) : t :=
  mk (batchId b) (producer b) (totalAmount b) n (isVerified b) (creditIds b).

Definition set_isVerified (v : bool) (b : t) : t :=
  mk (batchId b) (producer b) (totalAmount b) (verificationCount b) v
     (creditIds b).

Definition zero : t := mk 0 0 0 0 false [].
End ProductionBatch.

(** ** Events and revert reasons *)

Inductive Event :=
| CreditIssued (id : uint256) (owner producer : address)
               (amount productionDate : uint256)
| CreditVerified (id : uint256) (auditor : address) (status : VerificationStatus)
| CreditRetired (id : uint256) (owner : address) (reason : string)
| CreditTransferred (id : uint256) (from to : address)
| CreditSuspended (id : uint256) (regulator : address) (reason : string)
| AuditorRegistered (auditor : address) (name : string)
| AuditorDeactivated (auditor : address)
| ProductionBatchCreated (batchId : uint256) (producer : address)
                         (totalAmount : uint256)
| ProductionBatchVerified (batchId : uint256) (auditor : address).

(** One constructor per [require] message of the contract, plus the
    arithmetic panic of checked [uint256] operations. *)
Inductive Error :=
| OnlyRegulator
| OnlyCertifier
| OnlyActiveAuditor
| CreditDoesNotExist
| NotCreditOwner
| CreditHasBeenRetired
| InvalidCertifierAddress
| InvalidAuditorAddress
| AuditorAlreadyRegistered
| AuditorNotFound
| InvalidRecipientAddress
| InvalidProducerAddress
| AmountMustBePositive
| CarbonIntensityTooHigh
| ProductionDateInFuture
| CreditAlreadyVerified
| MustIncludeCredit
| CreditProducerMismatch
| CreditNotVerified
| BatchDoesNotExist
| BatchAlreadyVerified
| CreditNotActive
| ArithmeticPanic.

Global Instance Error_eq_dec : EqDecision Error.
Proof. solve_decision. Defined.

Definition revert_reason (e : Error) : string :=
  match e with
  | OnlyRegulator => "Only regulator can call this function"
  | OnlyCertifier => "Only certifier can call this function"
  | OnlyActiveAuditor => "Only active auditor can call this function"
  | CreditDoesNotExist => "Credit does not exist"
  | NotCreditOwner => "Not credit owner"
  | CreditHasBeenRetired => "Credit has been retired"
  | InvalidCertifierAddress => "Invalid certifier address"
  | InvalidAuditorAddress => "Invalid auditor address"
  | AuditorAlreadyRegistered => "Auditor already registered"
  | AuditorNotFound => "Auditor not found"
  | InvalidRecipientAddress => "Invalid recipient address"
  | InvalidProducerAddress => "Invalid producer address"
  | AmountMustBePositive => "Amount must be greater than 0"
  | CarbonIntensityTooHigh => "Carbon intensity too high"
  | ProductionDateInFuture => "Production date cannot be in the future"
  | CreditAlreadyVerified => "Credit already verified"
  | MustIncludeCredit => "Must include at least one credit"
  | CreditProducerMismatch => "Credit producer mismatch"
  | CreditNotVerified => "Credit not verified"
  | BatchDoesNotExist => "Batch does not exist"
  | BatchAlreadyVerified => "Batch already verified"
  | CreditNotActive => "Credit is not active"
  | ArithmeticPanic => "Panic(0x11)"
  end.

Inductive ErrorClass :=
| PermissionDenied | NotFound | InvalidArgument | InvalidStateTransition
| ArithmeticFault.

(** Modelled from the spec: the failure taxonomy of its error-handling
    section, which the contract does not declare (it only has the revert
    messages).  Each message is filed under the class the taxonomy lists it
    in; the arithmetic panic, which the taxonomy does not mention, gets a
    class of its own. *)
Definition error_class (e : Error) : ErrorClass :=
  match e with
  | OnlyRegulator | OnlyCertifier | OnlyActiveAuditor | NotCreditOwner =>
      PermissionDenied
  | CreditDoesNotExist | AuditorNotFound | BatchDoesNotExist => NotFound
  | InvalidCertifierAddress | InvalidAuditorAddress | InvalidRecipientAddress
  | InvalidProducerAddress | AmountMustBePositive | CarbonIntensityTooHigh
  | ProductionDateInFuture | MustIncludeCredit | CreditProducerMismatch =>
      InvalidArgument
  | CreditHasBeenRetired | AuditorAlreadyRegistered | CreditAlreadyVerified
  | CreditNotVerified | BatchAlreadyVerified | CreditNotActive =>
      InvalidStateTransition
  | ArithmeticPanic => ArithmeticFault
  end.

(** ** Storage *)

(** A Solidity mapping: every key reads as the zero value until written. *)
Definition mapping_get {V : Type} (z : V) (m : gmap N V) (k : N) : V :=
  default z (m !! k).

Record State := mkState {
  nextId : uint256;
  nextBatchId : uint256;
  credits : gmap N Credit.t;
  productionBatches : gmap N ProductionBatch.t;
  auditors : gmap N Auditor.t;
  isAuditor : gmap N bool;
  producerCredits : gmap N (list uint256);
  ownerCredits : gmap N (list uint256);
  regulator : address;
  certifier : address;
  log : list Event
}.

Definition credit_at (s : State) (id : N) : Credit.t :=
  mapping_get Credit.zero (credits s) id.
Definition batch_at (s : State) (b : N) : ProductionBatch.t :=
  mapping_get ProductionBatch.zero (productionBatches s) b.
Definition auditor_at (s : State) (a : address) : Auditor.t :=
  mapping_get Auditor.zero (auditors s) a.
Definition isAuditor_at (s : State) (a : address) : bool :=
  mapping_get false (isAuditor s) a.
Definition producerCredits_at (s : State) (a : address) : list uint256 :=
  mapping_get [] (producerCredits s) a.
Definition ownerCredits_at (s : State) (a : address) : list uint256 :=
  mapping_get [] (ownerCredits s) a.

Definition set_nextId (n : uint256) (s : State) : State :=
  mkState n (nextBatchId s) (credits s) (productionBatches s) (auditors s)
    (isAuditor s) (producerCredits s) (ownerCredits s) (regulator s)
    (certifier s) (log s).
Definition set_nextBatchId (n : uint256) (s : State) : State :=
  mkState (nextId s) n (credits s) (productionBatches s) (auditors s)
    (isAuditor s) (producerCredits s) (ownerCredits s) (regulator s)
    (certifier s) (log s).
Definition set_credits (m : gmap N Credit.t) (s : State) : State :=
  mkState (nextId s) (nextBatchId s) m (productionBatches s) (auditors s)
    (isAuditor s) (producerCredits s) (ownerCredits s) (regulator s)
    (certifier s) (log s).
Definition set_productionBatches (m : gmap N ProductionBatch.t) (s : State)
  : State :=
  mkState (nextId s) (nextBatchId s) (credits s) m (auditors s)
    (isAuditor s) (producerCredits s) (ownerCredits s) (regulator s)
    (certifier s) (log s).
Definition set_auditors (m : gmap N Auditor.t) (s : State) : State :=
  mkState (nextId s) (nextBatchId s) (credits s) (productionBatches s) m
    (isAuditor s) (producerCredits s) (ownerCredits s) (regulator s)
    (certifier s) (log s).
Definition set_isAuditor (m : gmap N bool) (s : State) : State :=
  mkState (nextId s) (nextBatchId s) (credits s) (productionBatches s)
    (auditors s) m (producerCredits s) (ownerCredits s) (regulator s)
    (certifier s) (log s).
Definition set_producerCredits (m : gmap N (list uint256)) (s : State)
  : State :=
  mkState (nextId s) (nextBatchId s) (credits s) (productionBatches s)
    (auditors s) (isAuditor s) m (ownerCredits s) (regulator s)
    (certifier s) (log s).
Definition set_ownerCredits (m : gmap N (list uint256)) (s : State) : State :=
  mkState (nextId s) (nextBatchId s) (credits s) (productionBatches s)
    (auditors s) (isAuditor s) (producerCredits s) m (regulator s)
    (certifier s) (log s).
Definition set_certifier (a : address) (s : State) : State :=
  mkState (nextId s) (nextBatchId s) (credits s) (productionBatches s)
    (auditors s) (isAuditor s) (producerCredits s) (ownerCredits s)
    (regulator s) a (log s).
Definition set_log (l : list Event) (s : State) : State :=
  mkState (nextId s) (nextBatchId s) (credits s) (productionBatches s)
    (auditors s) (isAuditor s) (producerCredits s) (ownerCredits s)
    (regulator s) (certifier s) l.

(** Constants and thresholds. *)
Definition MAX_CARBON_INTENSITY : uint256 := 50.
Definition MIN_VERIFICATION_COUNT : uint256 := 2.
Definition CREDIT_EXPIRY_DAYS : uint256 := 365.
Definition one_day : uint256 := 86400.

(** ** The execution monad *)

Record Env := mkEnv { msg_sender : address; block_timestamp : uint256 }.

Inductive result (A : Type) : Type :=
| Ok (a : A)
| Err (e : Error).
Arguments Ok {A} a.
Arguments Err {A} e.

(** A call reads the environment, threads the storage, and either returns
    or reverts; a revert discards every write made so far. *)
Definition M (A : Type) : Type := Env -> State -> result (A * State).

Global Instance M_ret : MRet M := fun A a _ s => Ok (a, s).
Global Instance M_bind : MBind M := fun A B f m env s =>
  match m env s with
  | Ok (a, s') => f a env s'
  | Err e => Err e
  end.

Definition require (b : bool) (e : Error) : M unit :=
  fun _ s => if b then Ok (tt, s) else Err e.
Definition sload {A : Type} (f : State -> A) : M A := fun _ s => Ok (f s, s).
Definition sstore (f : State -> State) : M unit := fun _ s => Ok (tt, f s).
Definition sender : M address := fun env s => Ok (msg_sender env, s).
Definition now : M uint256 := fun env s => Ok (block_timestamp env, s).
Definition emit (ev : Event) : M unit :=
  sstore (fun s => set_log (log s ++ [ev]) s).

(** Checked arithmetic of Solidity 0.8. *)
Definition checked_add (a b : uint256) : M uint256 :=
  fun _ s => if bool_decide (a + b <= MAX_UINT256) then Ok (a + b, s)
             else Err ArithmeticPanic.
Definition checked_sub (a b : uint256) : M uint256 :=
  fun _ s => if bool_decide (b <= a) then Ok (a - b, s)
             else Err ArithmeticPanic.

(** Writes to one slot of a mapping of structs. *)
Definition update_credit (id : N) (f : Credit.t -> Credit.t) : M unit :=
  sstore (fun s => set_credits (<[id := f (credit_at s id)]> (credits s)) s).
Definition update_auditor (a : address) (f : Auditor.t -> Auditor.t) : M unit :=
  sstore (fun s => set_auditors (<[a := f (auditor_at s a)]> (auditors s)) s).
Definition update_batch (b : N) (f : ProductionBatch.t -> ProductionBatch.t)
  : M unit :=
  sstore (fun s =>
    set_productionBatches (<[b := f (batch_at s b)]> (productionBatches s)) s).

(** ** Modifiers *)

Definition onlyRegulator : M unit :=
  who ← sender; reg ← sload regulator;
  require (bool_decide (who = reg)) OnlyRegulator.

Definition onlyCertifier : M unit :=
  who ← sender; cert ← sload certifier; reg ← sload regulator;
  require (bool_decide (who = cert) || bool_decide (who = reg)) OnlyCertifier.

Definition onlyAuditor : M unit :=
  who ← sender;
  registered ← sload (fun s => isAuditor_at s who);
  active ← sload (fun s => Auditor.isActive (auditor_at s who));
  require (registered && active) OnlyActiveAuditor.

Definition creditExists (id : uint256) : M unit :=
  c ← sload (fun s => credit_at s id);
  require (negb (bool_decide (Credit.id c = 0))) CreditDoesNotExist.

Definition onlyOwner (id : uint256) : M unit :=
  creditExists id;;
  who ← sender; c ← sload (fun s => credit_at s id);
  require (bool_decide (who = Credit.owner c)) NotCreditOwner.

Definition notRetired (id : uint256) : M unit :=
  c ← sload (fun s => credit_at s id);
  require (negb (Credit.isRetired c)) CreditHasBeenRetired.

(** The constructor: the deployer is regulator and certifier. *)
Definition constructor (deployer : address) : State :=
  mkState 1 1 ∅ ∅ ∅ ∅ ∅ ∅ deployer deployer [].

(** ** Regulator functions *)

Definition setCertifier (newCertifier : address) : M unit :=
  onlyRegulator;;
  require (negb (bool_decide (newCertifier = 0))) InvalidCertifierAddress;;
  sstore (set_certifier newCertifier).

Definition registerAuditor (auditorAddress : address)
    (name accreditation : string) : M unit :=
  onlyRegulator;;
  require (negb (bool_decide (auditorAddress = 0))) InvalidAuditorAddress;;
  registered ← sload (fun s => isAuditor_at s auditorAddress);
  require (negb registered) AuditorAlreadyRegistered;;
  sstore (fun s => set_auditors
    (<[auditorAddress :=
         Auditor.mk auditorAddress name accreditation true 0 0]> (auditors s))
    s);;
  sstore (fun s => set_isAuditor (<[auditorAddress := true]> (isAuditor s)) s);;
  emit (AuditorRegistered auditorAddress name).

Definition deactivateAuditor (auditorAddress : address) : M unit :=
  onlyRegulator;;
  registered ← sload (fun s => isAuditor_at s auditorAddress);
  require registered AuditorNotFound;;
  update_auditor auditorAddress (Auditor.set_isActive false);;
  sstore (fun s => set_isAuditor (<[auditorAddress := false]> (isAuditor s)) s);;
  emit (AuditorDeactivated auditorAddress).

Definition suspendCredit (id : uint256) (reason : string) : M unit :=
  onlyRegulator;;
  creditExists id;;
  update_credit id (Credit.set_status Suspended);;
  who ← sender;
  emit (CreditSuspended id who reason).

(** ** Certifier functions *)

Definition issueCredit (to producer : address) (producerName : string)
    (amount productionDate : uint256) (renewableSource location : string)
    (carbonIntensity : uint256) (metadata : string) : M unit :=
  onlyCertifier;;
  require (negb (bool_decide (to = 0))) InvalidRecipientAddress;;
  require (negb (bool_decide (producer = 0))) InvalidProducerAddress;;
  require (bool_decide (0 < amount)) AmountMustBePositive;;
  require (bool_decide (carbonIntensity <= MAX_CARBON_INTENSITY))
    CarbonIntensityTooHigh;;
  t ← now;
  require (bool_decide (productionDate <= t)) ProductionDateInFuture;;
  id ← sload nextId;
  who ← sender;
  sstore (fun s => set_credits
    (<[id := Credit.mk id to producer producerName amount productionDate
               renewableSource location carbonIntensity Pending Active who t
               metadata false 0 String.EmptyString]> (credits s)) s);;
  sstore (fun s => set_producerCredits
    (<[producer := producerCredits_at s producer ++ [id]]> (producerCredits s))
    s);;
  sstore (fun s => set_ownerCredits
    (<[to := ownerCredits_at s to ++ [id]]> (ownerCredits s)) s);;
  emit (CreditIssued id to producer amount productionDate);;
  id' ← checked_add id 1;
  sstore (set_nextId id').

(** ** Auditor functions *)

Definition verifyCredit (id : uint256) (status : VerificationStatus)
    (verificationNotes : string) : M unit :=
  onlyAuditor;;
  creditExists id;;
  notRetired id;;
  c ← sload (fun s => credit_at s id);
  require (bool_decide (Credit.verificationStatus c = Pending))
    CreditAlreadyVerified;;
  update_credit id (Credit.set_verificationStatus status);;
  who ← sender;
  a ← sload (fun s => auditor_at s who);
  n ← checked_add (Auditor.verificationCount a) 1;
  update_auditor who (Auditor.set_verificationCount n);;
  t ← now;
  update_auditor who (Auditor.set_lastVerification t);;
  emit (CreditVerified id who status).

(** The body of the [for] loop of [createProductionBatch], from position
    [i] on, with the running [totalAmount]. *)
Fixpoint sum_batch (producer : address) (creditIds : list uint256)
    (totalAmount : uint256) : M uint256 :=
  match creditIds with
  | [] => mret totalAmount
  | cid :: rest =>
      c ← sload (fun s => credit_at s cid);
      require (bool_decide (Credit.producer c = producer))
        CreditProducerMismatch;;
      require (bool_decide (Credit.verificationStatus c = Verified))
        CreditNotVerified;;
      totalAmount' ← checked_add totalAmount (Credit.amount c);
      sum_batch producer rest totalAmount'
  end.

Definition createProductionBatch (producer : address)
    (creditIds : list uint256) : M unit :=
  onlyAuditor;;
  require (negb (bool_decide (producer = 0))) InvalidProducerAddress;;
  require (bool_decide (0 < length creditIds)%nat) MustIncludeCredit;;
  totalAmount ← sum_batch producer creditIds 0;
  b ← sload nextBatchId;
  sstore (fun s => set_productionBatches
    (<[b := ProductionBatch.mk b producer totalAmount 1 false creditIds]>
       (productionBatches s)) s);;
  emit (ProductionBatchCreated b producer totalAmount);;
  b' ← checked_add b 1;
  sstore (set_nextBatchId b').

Definition verifyProductionBatch (batchId : uint256) : M unit :=
  onlyAuditor;;
  b ← sload (fun s => batch_at s batchId);
  require (negb (bool_decide (ProductionBatch.batchId b = 0)))
    BatchDoesNotExist;;
  require (negb (ProductionBatch.isVerified b)) BatchAlreadyVerified;;
  n ← checked_add (ProductionBatch.verificationCount b) 1;
  update_batch batchId (ProductionBatch.set_verificationCount n);;
  b' ← sload (fun s => batch_at s batchId);
  if bool_decide (MIN_VERIFICATION_COUNT <= ProductionBatch.verificationCount b')
  then
    update_batch batchId (ProductionBatch.set_isVerified true);;
    who ← sender;
    emit (ProductionBatchVerified batchId who)
  else mret tt.

(** ** Internal helper *)

(** The first position [i + k] at which [rest] (the array from position [i]
    on) holds [value]: where the loop of [_removeFromArray] breaks. *)
Fixpoint first_index (value : uint256) (rest : list uint256) (i : nat)
  : option nat :=
  match rest with
  | [] => None
  | x :: rest' =>
      if bool_decide (x = value) then Some i
      else first_index value rest' (S i)
  end.

(** [array[i] = array[array.length - 1]; array.pop()] at the first match;
    the array is left alone when [value] does not occur. *)
Definition _removeFromArray (array : list uint256) (value : uint256)
  : list uint256 :=
  match first_index value array 0 with
  | Some i => removelast (<[i := List.last array 0]> array)
  | None => array
  end.

(** ** User functions *)

Definition transferCredit (id : uint256) (to : address) : M unit :=
  onlyOwner id;;
  notRetired id;;
  require (negb (bool_decide (to = 0))) InvalidRecipientAddress;;
  c ← sload (fun s => credit_at s id);
  require (bool_decide (Credit.status c = Active)) CreditNotActive;;
  require (bool_decide (Credit.verificationStatus c = Verified))
    CreditNotVerified;;
  from ← sload (fun s => Credit.owner (credit_at s id));
  update_credit id (Credit.set_owner to);;
  sstore (fun s => set_ownerCredits
    (<[from := _removeFromArray (ownerCredits_at s from) id]> (ownerCredits s))
    s);;
  sstore (fun s => set_ownerCredits
    (<[to := ownerCredits_at s to ++ [id]]> (ownerCredits s)) s);;
  emit (CreditTransferred id from to).

Definition retireCredit (id : uint256) (reason : string) : M unit :=
  onlyOwner id;;
  notRetired id;;
  c ← sload (fun s => credit_at s id);
  require (bool_decide (Credit.status c = Active)) CreditNotActive;;
  require (bool_decide (Credit.verificationStatus c = Verified))
    CreditNotVerified;;
  update_credit id (Credit.set_isRetired true);;
  t ← now;
  update_credit id (Credit.set_retirementDate t);;
  update_credit id (Credit.set_retirementReason reason);;
  update_credit id (Credit.set_status Retired);;
  who ← sender;
  emit (CreditRetired id who reason).

(** ** View functions *)

Definition getCredit (id : uint256) : M Credit.t :=
  creditExists id;;
  sload (fun s => credit_at s id).

Definition getProducerCredits (producer : address) : M (list uint256) :=
  sload (fun s => producerCredits_at s producer).

Definition getOwnerCredits (owner : address) : M (list uint256) :=
  sload (fun s => ownerCredits_at s owner).

Definition getAuditor (auditorAddress : address) : M Auditor.t :=
  registered ← sload (fun s => isAuditor_at s auditorAddress);
  require registered AuditorNotFound;;
  sload (fun s => auditor_at s auditorAddress).

Definition getProductionBatch (batchId : uint256) : M ProductionBatch.t :=
  b ← sload (fun s => batch_at s batchId);
  require (negb (bool_decide (ProductionBatch.batchId b = 0)))
    BatchDoesNotExist;;
  mret b.

Definition isCreditExpired (id : uint256) : M bool :=
  creditExists id;;
  c ← sload (fun s => credit_at s id);
  t ← now;
  age ← checked_sub t (Credit.productionDate c);
  mret (bool_decide (CREDIT_EXPIRY_DAYS * one_day < age)).

(** The loop of [getTotalCreditsByProducer] over the copied id array. *)
Fixpoint total_loop (creditIds : list uint256) (total : uint256) : M uint256 :=
  match creditIds with
  | [] => mret total
  | cid :: rest =>
      c ← sload (fun s => credit_at s cid);
      if bool_decide (Credit.status c = Active) && negb (Credit.isRetired c)
      then total' ← checked_add total (Credit.amount c); total_loop rest total'
      else total_loop rest total
  end.

Definition getTotalCreditsByProducer (producer : address) : M uint256 :=
  creditIds ← sload (fun s => producerCredits_at s producer);
  total_loop creditIds 0.

(** ** Transactions and reachable states *)

Inductive Call :=
| SetCertifier (newCertifier : address)
| RegisterAuditor (auditorAddress : address) (name accreditation : string)
| DeactivateAuditor (auditorAddress : address)
| SuspendCredit (id : uint256) (reason : string)
| IssueCredit (to producer : address) (producerName : string)
    (amount productionDate : uint256) (renewableSource location : string)
    (carbonIntensity : uint256) (metadata : string)
| VerifyCredit (id : uint256) (status : VerificationStatus) (notes : string)
| CreateProductionBatch (producer : address) (creditIds : list uint256)
| VerifyProductionBatch (batchId : uint256)
| TransferCredit (id : uint256) (to : address)
| RetireCredit (id : uint256) (reason : string).

Definition execute (c : Call) : M unit :=
  match c with
  | SetCertifier a => setCertifier a
  | RegisterAuditor a n acc => registerAuditor a n acc
  | DeactivateAuditor a => deactivateAuditor a
  | SuspendCredit id r => suspendCredit id r
  | IssueCredit to p pn am pd rs loc ci md =>
      issueCredit to p pn am pd rs loc ci md
  | VerifyCredit id st notes => verifyCredit id st notes
  | CreateProductionBatch p ids => createProductionBatch p ids
  | VerifyProductionBatch b => verifyProductionBatch b
  | TransferCredit id to => transferCredit id to
  | RetireCredit id r => retireCredit id r
  end.

(** A transaction either commits the storage its call ended with or, on a
    revert, leaves the storage as it was. *)
Definition transact (env : Env) (c : Call) (s : State) : State :=
  match execute c env s with
  | Ok (_, s') => s'
  | Err _ => s
  end.

Definition run (txs : list (Env * Call)) (s : State) : State :=
  fold_left (fun st tx => transact (fst tx) (snd tx) st) txs s.

Inductive reachable : State -> Prop :=
| reachable_init (deployer : address) : reachable (constructor deployer)
| reachable_step (s s' : State) (env : Env) (c : Call) :
    reachable s -> execute c env s = Ok (tt, s') -> reachable s'.

(** ** Guards and post-states of the entry points

    The conditions the modifiers test, and the storage each entry point
    commits when none of its [require]s fails.  The equations further down
    prove that the monadic definitions above compute exactly these. *)

Definition is_regulator (env : Env) (s : State) : bool :=
  bool_decide (msg_sender env = regulator s).
Definition is_certifier (env : Env) (s : State) : bool :=
  bool_decide (msg_sender env = certifier s)
  || bool_decide (msg_sender env = regulator s).
Definition is_active_auditor (s : State) (a : address) : bool :=
  isAuditor_at s a && Auditor.isActive (auditor_at s a).
Definition credit_exists (s : State) (id : uint256) : bool :=
  negb (bool_decide (Credit.id (credit_at s id) = 0)).
Definition batch_exists (s : State) (b : uint256) : bool :=
  negb (bool_decide (ProductionBatch.batchId (batch_at s b) = 0)).

Definition registerAuditor_post (a : address) (name accreditation : string)
    (s : State) : State :=
  set_log (log s ++ [AuditorRegistered a name])
    (set_isAuditor (<[a := true]> (isAuditor s))
       (set_auditors
          (<[a := Auditor.mk a name accreditation true 0 0]> (auditors s)) s)).

Definition deactivateAuditor_post (a : address) (s : State) : State :=
  set_log (log s ++ [AuditorDeactivated a])
    (set_isAuditor (<[a := false]> (isAuditor s))
       (set_auditors
          (<[a := Auditor.set_isActive false (auditor_at s a)]> (auditors s))
          s)).

Definition suspendCredit_post (env : Env) (id : uint256) (reason : string)
    (s : State) : State :=
  set_log (log s ++ [CreditSuspended id (msg_sender env) reason])
    (set_credits
       (<[id := Credit.set_status Suspended (credit_at s id)]> (credits s)) s).

Definition issueCredit_post (env : Env) (to producer : address)
    (producerName : string) (amount productionDate : uint256)
    (renewableSource location : string) (carbonIntensity : uint256)
    (metadata : string) (s : State) : State :=
  let id := nextId s in
  set_nextId (id + 1)
    (set_log (log s ++ [CreditIssued id to producer amount productionDate])
       (set_ownerCredits
          (<[to := ownerCredits_at s to ++ [id]]> (ownerCredits s))
          (set_producerCredits
             (<[producer := producerCredits_at s producer ++ [id]]>
                (producerCredits s))
             (set_credits
                (<[id := Credit.mk id to producer producerName amount
                           productionDate renewableSource location
                           carbonIntensity Pending Active (msg_sender env)
                           (block_timestamp env) metadata false 0
                           String.EmptyString]> (credits s)) s)))).

Definition verifyCredit_post (env : Env) (id : uint256)
    (status : VerificationStatus) (s : State) : State :=
  let who := msg_sender env in
  let a := auditor_at s who in
  set_log (log s ++ [CreditVerified id who status])
    (set_auditors
       (<[who := Auditor.set_lastVerification (block_timestamp env)
                   (Auditor.set_verificationCount
                      (Auditor.verificationCount a + 1) a)]> (auditors s))
       (set_credits
          (<[id := Credit.set_verificationStatus status (credit_at s id)]>
             (credits s)) s)).

Definition createProductionBatch_post (producer : address)
    (creditIds : list uint256) (totalAmount : uint256) (s : State) : State :=
  let b := nextBatchId s in
  set_nextBatchId (b + 1)
    (set_log (log s ++ [ProductionBatchCreated b producer totalAmount])
       (set_productionBatches
          (<[b := ProductionBatch.mk b producer totalAmount 1 false creditIds]>
             (productionBatches s)) s)).

Definition verifyProductionBatch_post (env : Env) (batchId : uint256)
    (s : State) : State :=
  let b := batch_at s batchId in
  let n := ProductionBatch.verificationCount b + 1 in
  if bool_decide (MIN_VERIFICATION_COUNT <= n) then
    set_log (log s ++ [ProductionBatchVerified batchId (msg_sender env)])
      (set_productionBatches
         (<[batchId := ProductionBatch.set_isVerified true
                         (ProductionBatch.set_verificationCount n b)]>
            (productionBatches s)) s)
  else
    set_productionBatches
      (<[batchId := ProductionBatch.set_verificationCount n b]>
         (productionBatches s)) s.

Definition transferCredit_post (id : uint256) (to : address) (s : State)
  : State :=
  let from := Credit.owner (credit_at s id) in
  let removed :=
    <[from := _removeFromArray (ownerCredits_at s from) id]> (ownerCredits s) in
  set_log (log s ++ [CreditTransferred id from to])
    (set_ownerCredits (<[to := mapping_get [] removed to ++ [id]]> removed)
       (set_credits
          (<[id := Credit.set_owner to (credit_at s id)]> (credits s)) s)).

Definition retireCredit_post (env : Env) (id : uint256) (reason : string)
    (s : State) : State :=
  set_log (log s ++ [CreditRetired id (msg_sender env) reason])
    (set_credits
       (<[id := Credit.set_status Retired
                  (Credit.set_retirementReason reason
                     (Credit.set_retirementDate (block_timestamp env)
                        (Credit.set_isRetired true (credit_at s id))))]>
          (credits s)) s).

(** ** Quantities the properties are stated with *)

Definition N_sum (l : list N) : N := foldr N.add 0 l.

(** The identifiers below [n]: 1, 2, ..., n - 1. *)
Definition ids_upto (n : N) : list N :=
  map N.of_nat (seq 1 (N.to_nat n - 1)).

(** The identifiers announced by the [CreditIssued] events of a log, in the
    order of issuance. *)
Fixpoint issued_ids (l : list Event) : list uint256 :=
  match l with
  | [] => []
  | CreditIssued id _ _ _ _ :: l' => id :: issued_ids l'
  | _ :: l' => issued_ids l'
  end.

(** A stored credit counts toward a producer's total when it exists, was
    produced by [p], is Active and is not retired. *)
Definition counts_for (p : address) (c : Credit.t) : bool :=
  negb (bool_decide (Credit.id c = 0))
  && bool_decide (Credit.producer c = p)
  && bool_decide (Credit.status c = Active)
  && negb (Credit.isRetired c).

(** The test of the loop of [getTotalCreditsByProducer]. *)
Definition is_live (c : Credit.t) : bool :=
  bool_decide (Credit.status c = Active) && negb (Credit.isRetired c).

(** The sum of [amount] over every stored credit that counts for [p],
    taken over the whole credit table rather than over the producer index. *)
Definition stored_total (s : State) (p : address) : N :=
  N_sum (map Credit.amount
           (filter (fun c => counts_for p c = true)
                   (map snd (map_to_list (credits s))))).

(** The amounts the loop of [createProductionBatch] adds up, one per
    position of [creditIds]. *)
Definition listed_amounts (s : State) (creditIds : list uint256) : list N :=
  map (fun id => Credit.amount (credit_at s id)) creditIds.

(** What the loop of [createProductionBatch] requires of each listed id. *)
Definition entry_ok (s : State) (producer : address) (id : uint256) : Prop :=
  Credit.producer (credit_at s id) = producer /\
  Credit.verificationStatus (credit_at s id) = Verified.

(** How often [id] occurs in an index array. *)
Definition occurrences (id : uint256) (l : list uint256) : nat :=
  count_occ N.eq_dec l id.

(** Every existing credit is listed exactly once by its current owner and
    by no other identity. *)
Definition owner_index_exact (s : State) : Prop :=
  forall id, credit_exists s id = true ->
  forall a, occurrences id (ownerCredits_at s a) =
            if bool_decide (a = Credit.owner (credit_at s id))
            then 1%nat else 0%nat.

(** ** Concrete transaction sequences

    Account 1 deploys the contract (and stays regulator and certifier),
    account 7 is an auditor, account 5 a producer, account 6 a buyer. *)

Definition env_of (sender : address) (time : uint256) : Env :=
  mkEnv sender time.

Definition issue_1000 : Call :=
  IssueCredit 5 5 "Producer Five" 1000 90 "solar" "California" 25 "batch A".

(** Register an auditor and issue a credit of 1000 kg to its producer. *)
Definition txs_issued : list (Env * Call) :=
  [ (env_of 1 100, RegisterAuditor 7 "Auditor Seven" "ISO 14064");
    (env_of 1 100, issue_1000) ].

(** The auditor verifies the credit. *)
Definition txs_verified : list (Env * Call) :=
  txs_issued ++ [ (env_of 7 101, VerifyCredit 1 Verified "checked") ].

(** The verified credit is transferred to its own holder and then to a
    buyer. *)
Definition txs_transferred : list (Env * Call) :=
  txs_verified ++
  [ (env_of 5 102, TransferCredit 1 5);
    (env_of 5 103, TransferCredit 1 6) ].

(** The verified credit is retired by its holder. *)
Definition txs_retired : list (Env * Call) :=
  txs_verified ++ [ (env_of 5 102, RetireCredit 1 "offset") ].

(** The regulator suspends the credit after its retirement. *)
Definition txs_retired_suspended : list (Env * Call) :=
  txs_retired ++ [ (env_of 1 103, SuspendCredit 1 "under review") ].

(** The auditor is deactivated after having verified one credit. *)
Definition txs_deactivated : list (Env * Call) :=
  txs_verified ++ [ (env_of 1 102, DeactivateAuditor 7) ].

(** The auditor who verified the credit creates a batch from it and then
    verifies that batch itself: no second auditor is ever registered. *)
Definition txs_self_verified_batch : list (Env * Call) :=
  txs_verified ++
  [ (env_of 7 102, CreateProductionBatch 5 [1]);
    (env_of 7 103, VerifyProductionBatch 1) ].

(** Two credits of 2^255 kg each for the same producer, the first one
    verified. *)
Definition issue_huge : Call :=
  IssueCredit 5 5 "Producer Five" (2 ^ 255) 90 "wind" "Texas" 10 "bulk".

Definition txs_huge : list (Env * Call) :=
  [ (env_of 1 100, RegisterAuditor 7 "Auditor Seven" "ISO 14064");
    (env_of 1 100, issue_huge);
    (env_of 1 100, issue_huge);
    (env_of 7 101, VerifyCredit 1 Verified "checked") ].

(** ** The invariant of reachable storage *)

Record Inv (s : State) : Prop := mkInv {
  inv_nextId : 1 <= nextId s;
  inv_dom : forall id, is_Some (credits s !! id) <-> 1 <= id < nextId s;
  inv_credit : forall id c, credits s !! id = Some c ->
    Credit.id c = id /\ Credit.owner c <> 0 /\ Credit.producer c <> 0 /\
    (Credit.status c = Retired -> Credit.isRetired c = true) /\
    (Credit.isRetired c = true -> Credit.status c <> Active);
  inv_owner : forall a id,
    occurrences id (ownerCredits_at s a) =
    if credit_exists s id && bool_decide (Credit.owner (credit_at s id) = a)
    then 1%nat else 0%nat;
  inv_producer : forall p,
    producerCredits_at s p =
    filter (fun id => Credit.producer (credit_at s id) = p)
           (ids_upto (nextId s));
  inv_log : issued_ids (log s) = ids_upto (nextId s)
}.

(** The invariant of the batch table: batches are stored under their own
    id, below the batch counter, and the verified flag says whether the
    count has reached the threshold. *)
Record BatchInv (s : State) : Prop := mkBatchInv {
  binv_next : 1 <= nextBatchId s;
  binv_batch : forall b bt, productionBatches s !! b = Some bt ->
    ProductionBatch.batchId bt = b /\ 1 <= b < nextBatchId s /\
    1 <= ProductionBatch.verificationCount bt /\
    ProductionBatch.isVerified bt =
      bool_decide (MIN_VERIFICATION_COUNT
                   <= ProductionBatch.verificationCount bt)
}.

(** ** Calls as guarded updates

    What a call needs in order to return, the storage it then commits, and
    the events it then emits.  [execute_Ok_iff] proves that [execute] is
    exactly this. *)

Definition call_guard (c : Call) (env : Env) (s : State) : Prop :=
  match c with
  | SetCertifier a => is_regulator env s = true /\ a <> 0
  | RegisterAuditor a _ _ =>
      is_regulator env s = true /\ a <> 0 /\ isAuditor_at s a = false
  | DeactivateAuditor a =>
      is_regulator env s = true /\ isAuditor_at s a = true
  | SuspendCredit id _ =>
      is_regulator env s = true /\ credit_exists s id = true
  | IssueCredit to p _ am pd _ _ ci _ =>
      is_certifier env s = true /\ to <> 0 /\ p <> 0 /\ 0 < am /\
      ci <= MAX_CARBON_INTENSITY /\ pd <= block_timestamp env /\
      nextId s < MAX_UINT256
  | VerifyCredit id _ _ =>
      is_active_auditor s (msg_sender env) = true /\
      credit_exists s id = true /\
      Credit.isRetired (credit_at s id) = false /\
      Credit.verificationStatus (credit_at s id) = Pending /\
      Auditor.verificationCount (auditor_at s (msg_sender env)) < MAX_UINT256
  | CreateProductionBatch p ids =>
      is_active_auditor s (msg_sender env) = true /\ p <> 0 /\ ids <> [] /\
      Forall (entry_ok s p) ids /\
      N_sum (listed_amounts s ids) <= MAX_UINT256 /\
      nextBatchId s < MAX_UINT256
  | VerifyProductionBatch b =>
      is_active_auditor s (msg_sender env) = true /\
      batch_exists s b = true /\
      ProductionBatch.isVerified (batch_at s b) = false /\
      ProductionBatch.verificationCount (batch_at s b) < MAX_UINT256
  | TransferCredit id to =>
      credit_exists s id = true /\
      msg_sender env = Credit.owner (credit_at s id) /\
      Credit.isRetired (credit_at s id) = false /\ to <> 0 /\
      Credit.status (credit_at s id) = Active /\
      Credit.verificationStatus (credit_at s id) = Verified
  | RetireCredit id _ =>
      credit_exists s id = true /\
      msg_sender env = Credit.owner (credit_at s id) /\
      Credit.isRetired (credit_at s id) = false /\
      Credit.status (credit_at s id) = Active /\
      Credit.verificationStatus (credit_at s id) = Verified
  end.

Definition call_post (c : Call) (env : Env) (s : State) : State :=
  match c with
  | SetCertifier a => set_certifier a s
  | RegisterAuditor a n acc => registerAuditor_post a n acc s
  | DeactivateAuditor a => deactivateAuditor_post a s
  | SuspendCredit id r => suspendCredit_post env id r s
  | IssueCredit to p pn am pd rs loc ci md =>
      issueCredit_post env to p pn am pd rs loc ci md s
  | VerifyCredit id st _ => verifyCredit_post env id st s
  | CreateProductionBatch p ids =>
      createProductionBatch_post p ids (N_sum (listed_amounts s ids)) s
  | VerifyProductionBatch b => verifyProductionBatch_post env b s
  | TransferCredit id to => transferCredit_post id to s
  | RetireCredit id r => retireCredit_post env id r s
  end.

Definition call_events (c : Call) (env : Env) (s : State) : list Event :=
  match c with
  | SetCertifier _ => []
  | RegisterAuditor a n _ => [AuditorRegistered a n]
  | DeactivateAuditor a => [AuditorDeactivated a]
  | SuspendCredit id r => [CreditSuspended id (msg_sender env) r]
  | IssueCredit to p _ am pd _ _ _ _ => [CreditIssued (nextId s) to p am pd]
  | VerifyCredit id st _ => [CreditVerified id (msg_sender env) st]
  | CreateProductionBatch p ids =>
      [ProductionBatchCreated (nextBatchId s) p (N_sum (listed_amounts s ids))]
  | VerifyProductionBatch b =>
      if bool_decide (MIN_VERIFICATION_COUNT
                      <= ProductionBatch.verificationCount (batch_at s b) + 1)
      then [ProductionBatchVerified b (msg_sender env)] else []
  | TransferCredit id to =>
      [CreditTransferred id (Credit.owner (credit_at s id)) to]
  | RetireCredit id r => [CreditRetired id (msg_sender env) r]
  end.

(** What a call writes to the credit it names, if it names one. *)
Definition call_credit (c : Call) (env : Env) (s : State)
  : option (uint256 * Credit.t) :=
  match c with
  | SuspendCredit id _ =>
      Some (id, Credit.set_status Suspended (credit_at s id))
  | IssueCredit to p pn am pd rs loc ci md =>
      Some (nextId s,
            Credit.mk (nextId s) to p pn am pd rs loc ci Pending Active
              (msg_sender env) (block_timestamp env) md false 0
              String.EmptyString)
  | VerifyCredit id st _ =>
      Some (id, Credit.set_verificationStatus st (credit_at s id))
  | TransferCredit id to => Some (id, Credit.set_owner to (credit_at s id))
  | RetireCredit id r =>
      Some (id, Credit.set_status Retired
                  (Credit.set_retirementReason r
                     (Credit.set_retirementDate (block_timestamp env)
                        (Credit.set_isRetired true (credit_at s id)))))
  | _ => None
  end.

(** What a call writes to the auditor record, the registration flag and the
    batch it names, if it names one. *)
Definition call_auditor (c : Call) (env : Env) (s : State)
  : option (address * Auditor.t) :=
  match c with
  | RegisterAuditor a n acc => Some (a, Auditor.mk a n acc true 0 0)
  | DeactivateAuditor a =>
      Some (a, Auditor.set_isActive false (auditor_at s a))
  | VerifyCredit _ _ _ =>
      let who := msg_sender env in
      Some (who, Auditor.set_lastVerification (block_timestamp env)
                   (Auditor.set_verificationCount
                      (Auditor.verificationCount (auditor_at s who) + 1)
                      (auditor_at s who)))
  | _ => None
  end.

Definition call_isAuditor (c : Call) : option (address * bool) :=
  match c with
  | RegisterAuditor a _ _ => Some (a, true)
  | DeactivateAuditor a => Some (a, false)
  | _ => None
  end.

Definition call_batch (c : Call) (env : Env) (s : State)
  : option (uint256 * ProductionBatch.t) :=
  match c with
  | CreateProductionBatch p ids =>
      Some (nextBatchId s,
            ProductionBatch.mk (nextBatchId s) p
              (N_sum (listed_amounts s ids)) 1 false ids)
  | VerifyProductionBatch b =>
      let bt := batch_at s b in
      let n := ProductionBatch.verificationCount bt + 1 in
      Some (b, if bool_decide (MIN_VERIFICATION_COUNT <= n)
               then ProductionBatch.set_isVerified true
                      (ProductionBatch.set_verificationCount n bt)
               else ProductionBatch.set_verificationCount n bt)
  | _ => None
  end.

(** ** The storage as a function of the event log *)

(** The part of a credit that the events speak of. *)
Record CreditView := mkCreditView {
  view_owner : address;
  view_producer : address;
  view_amount : uint256;
  view_productionDate : uint256;
  view_verification : VerificationStatus;
  view_status : CreditStatus;
  view_retired : bool;
  view_reason : string
}.

Definition credit_view (c : Credit.t) : CreditView :=
  mkCreditView (Credit.owner c) (Credit.producer c) (Credit.amount c)
    (Credit.productionDate c) (Credit.verificationStatus c) (Credit.status c)
    (Credit.isRetired c) (Credit.retirementReason c).

(** What one event says about credit [id]. *)
Definition replay_credit (id : uint256) (v : CreditView) (ev : Event)
  : CreditView :=
  match ev with
  | CreditIssued i to p am pd =>
      if bool_decide (i = id)
      then mkCreditView to p am pd Pending Active false String.EmptyString
      else v
  | CreditVerified i _ st =>
      if bool_decide (i = id)
      then mkCreditView (view_owner v) (view_producer v) (view_amount v)
             (view_productionDate v) st (view_status v) (view_retired v)
             (view_reason v)
      else v
  | CreditTransferred i _ to =>
      if bool_decide (i = id)
      then mkCreditView to (view_producer v) (view_amount v)
             (view_productionDate v) (view_verification v) (view_status v)
             (view_retired v) (view_reason v)
      else v
  | CreditSuspended i _ _ =>
      if bool_decide (i = id)
      then mkCreditView (view_owner v) (view_producer v) (view_amount v)
             (view_productionDate v) (view_verification v) Suspended
             (view_retired v) (view_reason v)
      else v
  | CreditRetired i _ r =>
      if bool_decide (i = id)
      then mkCreditView (view_owner v) (view_producer v) (view_amount v)
             (view_productionDate v) (view_verification v) Retired true r
      else v
  | _ => v
  end.

Definition credit_from_log (id : uint256) (l : list Event) : CreditView :=
  fold_left (replay_credit id) l (credit_view Credit.zero).

(** The part of an auditor's registration that the events speak of. *)
Record AuditorView := mkAuditorView {
  view_registered : bool;
  view_name : string;
  view_count : uint256
}.

Definition auditor_view (s : State) (a : address) : AuditorView :=
  mkAuditorView (isAuditor_at s a) (Auditor.name (auditor_at s a))
    (Auditor.verificationCount (auditor_at s a)).

Definition replay_auditor (a : address) (v : AuditorView) (ev : Event)
  : AuditorView :=
  match ev with
  | AuditorRegistered a' n =>
      if bool_decide (a' = a) then mkAuditorView true n 0 else v
  | AuditorDeactivated a' =>
      if bool_decide (a' = a)
      then mkAuditorView false (view_name v) (view_count v) else v
  | CreditVerified _ a' _ =>
      if bool_decide (a' = a)
      then mkAuditorView (view_registered v) (view_name v) (view_count v + 1)
      else v
  | _ => v
  end.

Definition auditor_from_log (a : address) (l : list Event) : AuditorView :=
  fold_left (replay_auditor a) l (mkAuditorView false String.EmptyString 0).

(** The part of a production batch that the events speak of. *)
Record BatchView := mkBatchView {
  view_batch_producer : address;
  view_totalAmount : uint256;
  view_verified : bool
}.

Definition batch_view (bt : ProductionBatch.t) : BatchView :=
  mkBatchView (ProductionBatch.producer bt) (ProductionBatch.totalAmount bt)
    (ProductionBatch.isVerified bt).

Definition replay_batch (b : uint256) (v : BatchView) (ev : Event)
  : BatchView :=
  match ev with
  | ProductionBatchCreated b' p total =>
      if bool_decide (b' = b) then mkBatchView p total false else v
  | ProductionBatchVerified b' _ =>
      if bool_decide (b' = b)
      then mkBatchView (view_batch_producer v) (view_totalAmount v) true
      else v
  | _ => v
  end.

Definition batch_from_log (b : uint256) (l : list Event) : BatchView :=
  fold_left (replay_batch b) l (batch_view ProductionBatch.zero).

(** ** Further quantities the properties are stated with *)

(** The fields of a credit that [issueCredit] writes and no other function
    assigns. *)
Definition issue_data (c : Credit.t) :=
  (Credit.id c, Credit.producer c, Credit.producerName c, Credit.amount c,
   Credit.productionDate c, Credit.renewableSource c, Credit.location c,
   Credit.carbonIntensity c, Credit.certifier c, Credit.certificationDate c,
   Credit.metadata c).

(** What the [require]s of [issueCredit] and of [retireCredit] leave true of
    a stored credit. *)
Definition credit_well_formed (c : Credit.t) : Prop :=
  0 < Credit.amount c /\
  Credit.carbonIntensity c <= MAX_CARBON_INTENSITY /\
  Credit.productionDate c <= Credit.certificationDate c /\
  (Credit.isRetired c = true -> Credit.verificationStatus c = Verified) /\
  (Credit.isRetired c = false ->
   Credit.retirementDate c = 0 /\
   Credit.retirementReason c = String.EmptyString).

(** What holds of every stored batch. *)
Definition batch_sound (s : State) (bt : ProductionBatch.t) : Prop :=
  ProductionBatch.producer bt <> 0 /\
  ProductionBatch.creditIds bt <> [] /\
  ProductionBatch.verificationCount bt =
    (if ProductionBatch.isVerified bt then 2 else 1) /\
  Forall (fun id => credit_exists s id = true /\
                    entry_ok s (ProductionBatch.producer bt) id)
         (ProductionBatch.creditIds bt) /\
  ProductionBatch.totalAmount bt =
    N_sum (listed_amounts s (ProductionBatch.creditIds bt)) /\
  ProductionBatch.totalAmount bt <= MAX_UINT256.

(** The credits named by the [CreditRetired] events of a log, and the
    batches named by its [ProductionBatchVerified] events. *)
Fixpoint retired_ids (l : list Event) : list uint256 :=
  match l with
  | [] => []
  | CreditRetired id _ _ :: l' => id :: retired_ids l'
  | _ :: l' => retired_ids l'
  end.

Fixpoint verified_batch_ids (l : list Event) : list uint256 :=
  match l with
  | [] => []
  | ProductionBatchVerified b _ :: l' => b :: verified_batch_ids l'
  | _ :: l' => verified_batch_ids l'
  end.

(** The calls whose [require]s read [block.timestamp]. *)
Definition time_gated (c : Call) : bool :=
  match c with
  | IssueCredit _ _ _ _ _ _ _ _ _ => true
  | _ => false
  end.

(** The revert reasons of the modifiers that test who is calling. *)
Definition access_error (e : Error) : bool :=
  match e with
  | OnlyRegulator | OnlyCertifier | OnlyActiveAuditor | CreditDoesNotExist
  | NotCreditOwner => true
  | _ => false
  end.

(** What a stored credit adds to the total of producer [p]. *)
Definition live_amount (p : address) (c : Credit.t) : N :=
  if counts_for p c then Credit.amount c else 0.

(** ** Further transaction sequences *)

(** An issuance that fails: the carbon intensity is over the threshold. *)
Definition issue_too_dirty : Call :=
  IssueCredit 5 5 "Producer Five" 1000 90 "coal" "Ohio" 51 "batch X".

(** Two issuances by the deployer with a failed attempt between them. *)
Definition txs_issued_twice : list (Env * Call) :=
  [ (env_of 1 100, issue_1000);
    (env_of 1 101, issue_too_dirty);
    (env_of 1 102, issue_1000) ].

(** The auditor rejects the issued credit. *)
Definition txs_rejected : list (Env * Call) :=
  txs_issued ++ [ (env_of 7 101, VerifyCredit 1 Rejected "no evidence") ].

(** The regulator suspends the verified credit. *)
Definition txs_suspended : list (Env * Call) :=
  txs_verified ++ [ (env_of 1 102, SuspendCredit 1 "under review") ].

(** A production batch is created from the verified credit and verified. *)
Definition txs_batch_created : list (Env * Call) :=
  txs_verified ++ [ (env_of 7 102, CreateProductionBatch 5 [1]) ].

(** * Proofs *)

(** ** Mappings *)

Lemma mapping_get_insert_eq {V} (z v : V) (m : gmap N V) k :
  mapping_get z (<[k := v]> m) k = v.
Proof. unfold mapping_get. by rewrite lookup_insert_eq. Qed.

Lemma mapping_get_insert_ne {V} (z v : V) (m : gmap N V) k k' :
  k <> k' -> mapping_get z (<[k := v]> m) k' = mapping_get z m k'.
Proof. intros. unfold mapping_get. by rewrite lookup_insert_ne. Qed.

Lemma mapping_get_empty {V} (z : V) k : mapping_get z (∅ : gmap N V) k = z.
Proof. unfold mapping_get. by rewrite lookup_empty. Qed.

Lemma mapping_get_Some {V} (z v : V) (m : gmap N V) k :
  m !! k = Some v -> mapping_get z m k = v.
Proof. unfold mapping_get. by intros ->. Qed.

Lemma mapping_get_None {V} (z : V) (m : gmap N V) k :
  m !! k = None -> mapping_get z m k = z.
Proof. unfold mapping_get. by intros ->. Qed.

Lemma MAX_UINT256_pos : 2 <= MAX_UINT256.
Proof. by vm_compute. Qed.

(** ** Equations of the entry points *)

Ltac unfold_M :=
  unfold onlyOwner;
  unfold onlyRegulator, onlyCertifier, onlyAuditor, creditExists, notRetired;
  unfold emit, update_credit, update_auditor, update_batch;
  unfold mbind, M_bind, mret, M_ret, require, sload, sstore, sender, now,
    checked_add, checked_sub; cbn beta iota.

Ltac split_ifs :=
  repeat (match goal with
          | |- context [bool_decide ?P] => destruct (bool_decide P) eqn:?
          | |- context [negb ?b] => destruct b eqn:?
          | |- context [?b && _] => destruct b eqn:?
          | |- context [if ?b then _ else _] => destruct b eqn:?
          end; cbn; try reflexivity; try congruence).

Lemma setCertifier_eq env s newCertifier :
  setCertifier newCertifier env s =
  if negb (is_regulator env s) then Err OnlyRegulator
  else if bool_decide (newCertifier = 0) then Err InvalidCertifierAddress
  else Ok (tt, set_certifier newCertifier s).
Proof.
  unfold setCertifier, is_regulator. unfold_M. destruct s; cbn. split_ifs.
Qed.

Lemma registerAuditor_eq env s a name acc :
  registerAuditor a name acc env s =
  if negb (is_regulator env s) then Err OnlyRegulator
  else if bool_decide (a = 0) then Err InvalidAuditorAddress
  else if isAuditor_at s a then Err AuditorAlreadyRegistered
  else Ok (tt, registerAuditor_post a name acc s).
Proof.
  unfold registerAuditor, is_regulator, registerAuditor_post. unfold_M.
  destruct s; cbn. split_ifs.
Qed.

Lemma deactivateAuditor_eq env s a :
  deactivateAuditor a env s =
  if negb (is_regulator env s) then Err OnlyRegulator
  else if negb (isAuditor_at s a) then Err AuditorNotFound
  else Ok (tt, deactivateAuditor_post a s).
Proof.
  unfold deactivateAuditor, is_regulator, deactivateAuditor_post. unfold_M.
  destruct s; cbn. split_ifs.
Qed.

Lemma suspendCredit_eq env s id reason :
  suspendCredit id reason env s =
  if negb (is_regulator env s) then Err OnlyRegulator
  else if negb (credit_exists s id) then Err CreditDoesNotExist
  else Ok (tt, suspendCredit_post env id reason s).
Proof.
  unfold suspendCredit, is_regulator, credit_exists, suspendCredit_post.
  unfold_M. destruct s; cbn. split_ifs.
Qed.

Lemma issueCredit_eq env s to producer pn amount pd rs loc ci md :
  issueCredit to producer pn amount pd rs loc ci md env s =
  if negb (is_certifier env s) then Err OnlyCertifier
  else if bool_decide (to = 0) then Err InvalidRecipientAddress
  else if bool_decide (producer = 0) then Err InvalidProducerAddress
  else if negb (bool_decide (0 < amount)) then Err AmountMustBePositive
  else if negb (bool_decide (ci <= MAX_CARBON_INTENSITY))
       then Err CarbonIntensityTooHigh
  else if negb (bool_decide (pd <= block_timestamp env))
       then Err ProductionDateInFuture
  else if negb (bool_decide (nextId s + 1 <= MAX_UINT256))
       then Err ArithmeticPanic
  else Ok (tt, issueCredit_post env to producer pn amount pd rs loc ci md s).
Proof.
  unfold issueCredit, is_certifier, issueCredit_post. unfold_M.
  destruct s; cbn. split_ifs.
Qed.

Lemma verifyCredit_eq env s id status notes :
  verifyCredit id status notes env s =
  if negb (is_active_auditor s (msg_sender env)) then Err OnlyActiveAuditor
  else if negb (credit_exists s id) then Err CreditDoesNotExist
  else if Credit.isRetired (credit_at s id) then Err CreditHasBeenRetired
  else if negb (bool_decide
                  (Credit.verificationStatus (credit_at s id) = Pending))
       then Err CreditAlreadyVerified
  else if negb (bool_decide
                  (Auditor.verificationCount
                     (auditor_at s (msg_sender env)) + 1 <= MAX_UINT256))
       then Err ArithmeticPanic
  else Ok (tt, verifyCredit_post env id status s).
Proof.
  unfold verifyCredit, is_active_auditor, credit_exists, verifyCredit_post.
  unfold_M. destruct s; cbn.
  unfold auditor_at, credit_at, isAuditor_at; cbn.
  split_ifs.
  all: by rewrite ?mapping_get_insert_eq, ?insert_insert_eq.
Qed.

(** The loop of [createProductionBatch] only reads the storage. *)
Lemma sum_batch_state producer ids acc env s t s' :
  sum_batch producer ids acc env s = Ok (t, s') -> s' = s.
Proof.
  revert acc. induction ids as [|cid rest IH]; intros acc; cbn.
  - unfold mret, M_ret. by intros [= _ ->].
  - unfold_M.
    destruct (bool_decide (Credit.producer (credit_at s cid) = producer));
      [|done].
    destruct (bool_decide
                (Credit.verificationStatus (credit_at s cid) = Verified));
      [|done].
    destruct (bool_decide (acc + Credit.amount (credit_at s cid)
                           <= MAX_UINT256)); [|done].
    apply IH.
Qed.

Lemma sum_batch_ok producer ids acc env s :
  Forall (entry_ok s producer) ids ->
  acc + N_sum (listed_amounts s ids) <= MAX_UINT256 ->
  sum_batch producer ids acc env s =
  Ok (acc + N_sum (listed_amounts s ids), s).
Proof.
  revert acc. induction ids as [|cid rest IH]; intros acc Hall Hle; cbn in *.
  - unfold mret, M_ret. by rewrite N.add_0_r.
  - inversion_clear Hall as [|? ? [Hp Hv] Hrest]. unfold_M.
    rewrite !bool_decide_eq_true_2 by done.
    unfold listed_amounts, N_sum in *. cbn in *.
    rewrite bool_decide_eq_true_2 by lia.
    rewrite IH by (done || lia). f_equal. f_equal. lia.
Qed.

Lemma sum_batch_overflow producer ids acc env s :
  Forall (entry_ok s producer) ids ->
  MAX_UINT256 < acc + N_sum (listed_amounts s ids) ->
  acc <= MAX_UINT256 ->
  sum_batch producer ids acc env s = Err ArithmeticPanic.
Proof.
  revert acc. induction ids as [|cid rest IH]; intros acc Hall Hlt Hacc;
    cbn in *.
  - lia.
  - inversion_clear Hall as [|? ? [Hp Hv] Hrest]. unfold_M.
    rewrite !bool_decide_eq_true_2 by done.
    unfold listed_amounts, N_sum in *. cbn in *.
    case_bool_decide as Hle; [|done].
    apply IH; [done|lia|done].
Qed.

Lemma createProductionBatch_eq env s producer ids :
  createProductionBatch producer ids env s =
  if negb (is_active_auditor s (msg_sender env)) then Err OnlyActiveAuditor
  else if bool_decide (producer = 0) then Err InvalidProducerAddress
  else if negb (bool_decide (0 < length ids)%nat) then Err MustIncludeCredit
  else match sum_batch producer ids 0 env s with
       | Err e => Err e
       | Ok (totalAmount, _) =>
           if negb (bool_decide (nextBatchId s + 1 <= MAX_UINT256))
           then Err ArithmeticPanic
           else Ok (tt, createProductionBatch_post producer ids totalAmount s)
       end.
Proof.
  unfold createProductionBatch, is_active_auditor, createProductionBatch_post.
  unfold_M. unfold isAuditor_at, auditor_at.
  destruct (mapping_get false (isAuditor s) (msg_sender env)
            && Auditor.isActive
                 (mapping_get Auditor.zero (auditors s) (msg_sender env)));
    cbn; [|done].
  case_bool_decide; cbn; [done|]. case_bool_decide; cbn; [|done].
  destruct (sum_batch producer ids 0 env s) as [[t s1]|e] eqn:Hsum; [|done].
  apply sum_batch_state in Hsum as ->.
  destruct s; cbn. split_ifs.
Qed.

Lemma verifyProductionBatch_eq env s b :
  verifyProductionBatch b env s =
  if negb (is_active_auditor s (msg_sender env)) then Err OnlyActiveAuditor
  else if negb (batch_exists s b) then Err BatchDoesNotExist
  else if ProductionBatch.isVerified (batch_at s b)
       then Err BatchAlreadyVerified
  else if negb (bool_decide
                  (ProductionBatch.verificationCount (batch_at s b) + 1
                   <= MAX_UINT256))
       then Err ArithmeticPanic
  else Ok (tt, verifyProductionBatch_post env b s).
Proof.
  unfold verifyProductionBatch, is_active_auditor, batch_exists,
    verifyProductionBatch_post.
  unfold_M. destruct s; cbn. unfold auditor_at, batch_at, isAuditor_at; cbn.
  split_ifs.
  all: rewrite ?mapping_get_insert_eq, ?insert_insert_eq in *; cbn in *.
  all: try reflexivity; try congruence.
Qed.

Lemma transferCredit_eq env s id to :
  transferCredit id to env s =
  if negb (credit_exists s id) then Err CreditDoesNotExist
  else if negb (bool_decide (msg_sender env = Credit.owner (credit_at s id)))
       then Err NotCreditOwner
  else if Credit.isRetired (credit_at s id) then Err CreditHasBeenRetired
  else if bool_decide (to = 0) then Err InvalidRecipientAddress
  else if negb (bool_decide (Credit.status (credit_at s id) = Active))
       then Err CreditNotActive
  else if negb (bool_decide
                  (Credit.verificationStatus (credit_at s id) = Verified))
       then Err CreditNotVerified
  else Ok (tt, transferCredit_post id to s).
Proof.
  unfold transferCredit, credit_exists, transferCredit_post.
  unfold_M. destruct s; cbn. unfold credit_at, ownerCredits_at; cbn.
  split_ifs.
Qed.

Lemma retireCredit_eq env s id reason :
  retireCredit id reason env s =
  if negb (credit_exists s id) then Err CreditDoesNotExist
  else if negb (bool_decide (msg_sender env = Credit.owner (credit_at s id)))
       then Err NotCreditOwner
  else if Credit.isRetired (credit_at s id) then Err CreditHasBeenRetired
  else if negb (bool_decide (Credit.status (credit_at s id) = Active))
       then Err CreditNotActive
  else if negb (bool_decide
                  (Credit.verificationStatus (credit_at s id) = Verified))
       then Err CreditNotVerified
  else Ok (tt, retireCredit_post env id reason s).
Proof.
  unfold retireCredit, credit_exists, retireCredit_post.
  unfold_M. destruct s; cbn. unfold credit_at; cbn.
  split_ifs.
  all: by rewrite ?mapping_get_insert_eq, ?insert_insert_eq.
Qed.

Lemma getAuditor_eq env s a :
  getAuditor a env s =
  if isAuditor_at s a then Ok (auditor_at s a, s) else Err AuditorNotFound.
Proof. unfold getAuditor. unfold_M. by destruct (isAuditor_at s a). Qed.

(** ** Lists of identifiers *)

Lemma elem_of_ids_upto n id : id ∈ ids_upto n <-> 1 <= id < n.
Proof.
  unfold ids_upto. rewrite list_elem_of_fmap. split.
  - intros (k & -> & Hk). apply list_elem_of_In, in_seq in Hk. lia.
  - intros H. exists (N.to_nat id). split; [lia|].
    apply list_elem_of_In, in_seq. lia.
Qed.

Lemma ids_upto_succ n : 1 <= n -> ids_upto (n + 1) = ids_upto n ++ [n].
Proof.
  intros H. unfold ids_upto.
  replace (N.to_nat (n + 1) - 1)%nat with (S (N.to_nat n - 1)) by lia.
  rewrite seq_S, map_app. cbn [map]. do 2 f_equal. lia.
Qed.

Lemma NoDup_ids_upto n : NoDup (ids_upto n).
Proof.
  unfold ids_upto. apply NoDup_fmap_2.
  - intros x y H. lia.
  - apply NoDup_ListNoDup, seq_NoDup.
Qed.

Lemma filter_ext_elem {A} (P Q : A -> Prop) `{!forall x, Decision (P x)}
    `{!forall x, Decision (Q x)} (l : list A) :
  (forall x, x ∈ l -> P x <-> Q x) -> filter P l = filter Q l.
Proof.
  induction l as [|x l IH]; intros Hext; [done|].
  rewrite !filter_cons.
  rewrite IH by (intros y Hy; apply Hext; by right).
  destruct (decide (P x)) as [HP|HP], (decide (Q x)) as [HQ|HQ]; try done.
  - exfalso. apply HQ, Hext; [left|done].
  - exfalso. apply HP, Hext; [left|done].
Qed.

Lemma issued_ids_app l1 l2 :
  issued_ids (l1 ++ l2) = issued_ids l1 ++ issued_ids l2.
Proof.
  induction l1 as [|ev l1 IH]; [done|]. destruct ev; cbn; by rewrite ?IH.
Qed.

Lemma N_sum_Permutation l1 l2 : Permutation l1 l2 -> N_sum l1 = N_sum l2.
Proof.
  unfold N_sum. induction 1; cbn; lia.
Qed.

(** ** Swap-and-pop removal *)

Lemma occurrences_app id l1 l2 :
  occurrences id (l1 ++ l2) = (occurrences id l1 + occurrences id l2)%nat.
Proof. apply count_occ_app. Qed.

Lemma occurrences_singleton id x :
  occurrences id [x] = if bool_decide (x = id) then 1%nat else 0%nat.
Proof.
  unfold occurrences. cbn. destruct (N.eq_dec x id); by case_bool_decide.
Qed.

Lemma occurrences_zero id l : occurrences id l = 0%nat <-> id ∉ l.
Proof.
  unfold occurrences. rewrite <- count_occ_not_In. by rewrite list_elem_of_In.
Qed.

Lemma first_index_Some value l k i :
  first_index value l k = Some i ->
  exists l1 l2, l = l1 ++ value :: l2 /\ i = (k + length l1)%nat /\ value ∉ l1.
Proof.
  revert k. induction l as [|x l IH]; intros k; cbn; [done|].
  case_bool_decide as Hx.
  - intros [= <-]. exists [], l. subst x. cbn.
    split; [done|]. split; [lia|]. apply not_elem_of_nil.
  - intros H. destruct (IH _ H) as (l1 & l2 & -> & -> & Hnot).
    exists (x :: l1), l2. cbn. split; [done|]. split; [lia|].
    rewrite not_elem_of_cons. by split; [congruence|].
Qed.

Lemma first_index_None value l k :
  first_index value l k = None -> value ∉ l.
Proof.
  revert k. induction l as [|x l IH]; intros k; cbn.
  - intros _. apply not_elem_of_nil.
  - case_bool_decide as Hx; [done|]. intros H.
    rewrite not_elem_of_cons. split; [congruence|by eapply IH].
Qed.

(** When [value] occurs, the array after the removal is the array before
    it with one occurrence of [value] taken out, up to order. *)
Lemma _removeFromArray_Permutation array value :
  value ∈ array ->
  Permutation array (value :: _removeFromArray array value).
Proof.
  intros Hin. unfold _removeFromArray.
  destruct (first_index value array 0) as [i|] eqn:Hfi.
  - apply first_index_Some in Hfi as (l1 & l2 & -> & -> & _). cbn.
    destruct l2 as [|y l2 _] using rev_ind.
    + rewrite last_last.
      replace (length l1) with (length l1 + 0)%nat by lia.
      rewrite insert_app_r. cbn. rewrite removelast_last.
      apply (Permutation_app_comm l1 [value]).
    + replace (l1 ++ value :: l2 ++ [y]) with ((l1 ++ value :: l2) ++ [y])
        by (by rewrite <- app_assoc).
      rewrite last_last. rewrite <- app_assoc. cbn.
      replace (length l1) with (length l1 + 0)%nat by lia.
      rewrite insert_app_r. cbn.
      replace (l1 ++ y :: l2 ++ [y]) with ((l1 ++ y :: l2) ++ [y])
        by (by rewrite <- app_assoc).
      rewrite removelast_last.
      rewrite <- !Permutation_middle.
      by rewrite app_nil_r.
  - by apply first_index_None in Hfi.
Qed.

Lemma _removeFromArray_absent array value :
  value ∉ array -> _removeFromArray array value = array.
Proof.
  intros Hnot. unfold _removeFromArray.
  destruct (first_index value array 0) as [i|] eqn:Hfi; [|done].
  apply first_index_Some in Hfi as (l1 & l2 & -> & _ & _).
  exfalso. apply Hnot. set_solver.
Qed.

Lemma occurrences_removeFromArray array value id :
  occurrences id (_removeFromArray array value) =
  if bool_decide (id = value) then pred (occurrences value array)
  else occurrences id array.
Proof.
  destruct (decide (value ∈ array)) as [Hin|Hnot].
  - pose proof (_removeFromArray_Permutation _ _ Hin) as HP.
    pose proof (proj1 (Permutation_count_occ N.eq_dec _ _) HP id) as Hc.
    unfold occurrences in *. cbn in Hc.
    destruct (N.eq_dec value id) as [->|Hne].
    + rewrite bool_decide_eq_true_2 by done. lia.
    + rewrite bool_decide_eq_false_2 by done. lia.
  - rewrite _removeFromArray_absent by done.
    case_bool_decide as Heq; [|done]. subst id.
    apply occurrences_zero in Hnot. rewrite Hnot. done.
Qed.

(** ** The invariant holds in every reachable state *)

Lemma credit_at_update s s' id c' j :
  credits s' = <[id := c']> (credits s) ->
  credit_at s' j = if bool_decide (j = id) then c' else credit_at s j.
Proof.
  intros Heq. unfold credit_at. rewrite Heq. case_bool_decide as Hj.
  - subst j. apply mapping_get_insert_eq.
  - by apply mapping_get_insert_ne.
Qed.

Lemma credit_exists_lookup s id :
  credit_exists s id = true ->
  exists c, credits s !! id = Some c /\ credit_at s id = c.
Proof.
  unfold credit_exists, credit_at, mapping_get.
  destruct (credits s !! id) as [c|]; cbn; [intros _; by exists c|].
  by rewrite bool_decide_eq_true_2.
Qed.

Lemma Inv_lookup_exists s id c :
  Inv s -> credits s !! id = Some c ->
  credit_exists s id = true /\ credit_at s id = c.
Proof.
  intros HI Hc. pose proof (inv_credit s HI id c Hc) as (Hid & _).
  assert (1 <= id < nextId s) by (apply (inv_dom s HI); by eexists).
  unfold credit_exists, credit_at. rewrite (mapping_get_Some _ _ _ _ Hc).
  split; [|done]. rewrite bool_decide_eq_false_2 by lia. done.
Qed.

Lemma Inv_exists_range s id :
  Inv s -> credit_exists s id = true <-> 1 <= id < nextId s.
Proof.
  intros HI. split.
  - intros (c & Hc & _)%credit_exists_lookup. apply (inv_dom s HI). by eexists.
  - intros [c Hc]%(inv_dom s HI). by eapply Inv_lookup_exists.
Qed.

Lemma Inv_frame s s' :
  nextId s' = nextId s -> credits s' = credits s ->
  ownerCredits s' = ownerCredits s -> producerCredits s' = producerCredits s ->
  issued_ids (log s') = issued_ids (log s) ->
  Inv s -> Inv s'.
Proof.
  intros Hn Hc Ho Hp Hl [I1 I2 I3 I4 I5 I6].
  constructor; unfold credit_exists, credit_at, ownerCredits_at,
    producerCredits_at in *; rewrite ?Hn, ?Hc, ?Ho, ?Hp, ?Hl; done.
Qed.

Lemma Inv_update s s' id c c' :
  credits s !! id = Some c ->
  credits s' = <[id := c']> (credits s) ->
  Credit.id c' = Credit.id c -> Credit.owner c' = Credit.owner c ->
  Credit.producer c' = Credit.producer c ->
  (Credit.status c' = Retired -> Credit.isRetired c' = true) ->
  (Credit.isRetired c' = true -> Credit.status c' <> Active) ->
  nextId s' = nextId s -> ownerCredits s' = ownerCredits s ->
  producerCredits s' = producerCredits s ->
  issued_ids (log s') = issued_ids (log s) ->
  Inv s -> Inv s'.
Proof.
  intros Hc Hc' Hid Hown Hprod Hr1 Hr2 Hn Ho Hp Hl HI.
  pose proof (Inv_lookup_exists _ _ _ HI Hc) as [Hex Hat].
  assert (Hsame : forall j,
            Credit.id (credit_at s' j) = Credit.id (credit_at s j) /\
            Credit.owner (credit_at s' j) = Credit.owner (credit_at s j) /\
            Credit.producer (credit_at s' j) = Credit.producer (credit_at s j)).
  { intros j. rewrite (credit_at_update _ _ _ _ j Hc').
    case_bool_decide as Hj; [subst j; rewrite Hat|]; done. }
  destruct HI as [I1 I2 I3 I4 I5 I6]. constructor.
  - by rewrite Hn.
  - intros j. rewrite Hn, Hc', lookup_insert_is_Some, <- I2.
    split; [|by destruct (decide (id = j)); eauto].
    intros [<-|[_ ?]]; [by eexists|done].
  - intros j cj. rewrite Hc', lookup_insert_Some.
    intros [[<- <-]|[Hne Hj]]; [|by apply I3].
    destruct (I3 _ _ Hc) as (? & ? & ? & _). rewrite Hid, Hown, Hprod. done.
  - intros a j. unfold ownerCredits_at, credit_exists in *. rewrite Ho, I4.
    destruct (Hsame j) as (-> & -> & _). done.
  - intros p. unfold producerCredits_at in *. rewrite Hp, Hn, I5.
    apply filter_ext_elem. intros j _. by destruct (Hsame j) as (_ & _ & ->).
  - by rewrite Hl, Hn.
Qed.

Lemma Inv_init deployer : Inv (constructor deployer).
Proof.
  constructor; cbn.
  - done.
  - intros id. rewrite lookup_empty. split; [by intros [? ?]|lia].
  - intros id c. by rewrite lookup_empty.
  - intros a id. unfold ownerCredits_at, credit_exists, credit_at. cbn.
    by rewrite !mapping_get_empty.
  - intros p. unfold producerCredits_at. cbn. by rewrite mapping_get_empty.
  - done.
Qed.

(** Reads the guards off a successful call, once its equation has been
    rewritten into the hypothesis. *)
Ltac inv_guard H :=
  repeat match type of H with
  | (if negb ?b then _ else _) = _ =>
      let G := fresh "G" in
      destruct b eqn:G; cbn [negb] in H; [|discriminate H]
  | (if ?b then Err _ else _) = _ =>
      let G := fresh "G" in destruct b eqn:G; [discriminate H|]
  end;
  repeat match goal with
  | G : bool_decide _ = true |- _ => apply bool_decide_eq_true_1 in G
  | G : bool_decide _ = false |- _ => apply bool_decide_eq_false_1 in G
  end.

Lemma issued_ids_snoc l ev :
  (forall id o p a d, ev <> CreditIssued id o p a d) ->
  issued_ids (l ++ [ev]) = issued_ids l.
Proof.
  intros Hev. rewrite issued_ids_app.
  destruct ev; cbn; rewrite ?app_nil_r; try done. by edestruct Hev.
Qed.

Lemma Inv_issueCredit env s to producer pn amount pd rs loc ci md :
  Inv s -> to <> 0 -> producer <> 0 ->
  Inv (issueCredit_post env to producer pn amount pd rs loc ci md s).
Proof.
  intros HI Hto Hprod. pose proof HI as [I1 I2 I3 I4 I5 I6].
  set (n := nextId s) in *.
  assert (Hfresh : credits s !! n = None).
  { destruct (credits s !! n) eqn:E; [|done].
    assert (1 <= n < n) by (apply I2; by eexists). lia. }
  assert (Hnew : forall j, j <> n ->
            credit_at (issueCredit_post env to producer pn amount pd rs loc ci
                         md s) j = credit_at s j).
  { intros j Hj. unfold credit_at, issueCredit_post. cbn.
    by apply mapping_get_insert_ne. }
  assert (Hat : credit_at (issueCredit_post env to producer pn amount pd rs
                  loc ci md s) n =
                Credit.mk n to producer pn amount pd rs loc ci Pending Active
                  (msg_sender env) (block_timestamp env) md false 0
                  String.EmptyString).
  { unfold credit_at, issueCredit_post. cbn. apply mapping_get_insert_eq. }
  assert (Hnot : credit_exists s n = false).
  { unfold credit_exists, credit_at. rewrite (mapping_get_None _ _ _ Hfresh).
    done. }
  constructor.
  - cbn. fold n. lia.
  - intros j. cbn. fold n. rewrite lookup_insert_is_Some, I2. fold n.
    lia.
  - intros j cj. cbn. fold n. rewrite lookup_insert_Some.
    intros [[<- <-]|[Hne Hj]]; [|by apply I3]. cbn. done.
  - intros a j.
    assert (Hoc : ownerCredits_at
                    (issueCredit_post env to producer pn amount pd rs loc ci
                       md s) a =
                  if bool_decide (to = a) then ownerCredits_at s a ++ [n]
                  else ownerCredits_at s a).
    { unfold ownerCredits_at. cbn. unfold ownerCredits_at. fold n.
      destruct (decide (to = a)) as [->|Ha].
      - rewrite bool_decide_eq_true_2 by done. apply mapping_get_insert_eq.
      - rewrite bool_decide_eq_false_2 by done.
        by apply mapping_get_insert_ne. }
    rewrite Hoc. specialize (I4 a j). unfold credit_exists in *.
    destruct (decide (j = n)) as [->|Hj].
    + rewrite Hat. cbn. rewrite (bool_decide_eq_false_2 (n = 0)) by lia. cbn.
      rewrite Hnot in I4. cbn in I4.
      destruct (bool_decide (to = a)); [|done].
      rewrite occurrences_app, occurrences_singleton, I4.
      by rewrite bool_decide_eq_true_2.
    + rewrite (Hnew _ Hj). destruct (bool_decide (to = a)); [|done].
      rewrite occurrences_app, occurrences_singleton, I4.
      rewrite (bool_decide_eq_false_2 (n = j)) by done. lia.
  - intros p. unfold producerCredits_at. cbn. fold n.
    rewrite ids_upto_succ by done. rewrite filter_app.
    assert (Hold : filter (fun id => Credit.producer
                     (credit_at (issueCredit_post env to producer pn amount pd
                        rs loc ci md s) id) = p) (ids_upto n) =
                   filter (fun id => Credit.producer (credit_at s id) = p)
                     (ids_upto n)).
    { apply filter_ext_elem. intros j Hj%elem_of_ids_upto.
      rewrite Hnew by lia. done. }
    rewrite Hold, <- I5. rewrite filter_cons, filter_nil. rewrite Hat. cbn.
    destruct (decide (producer = p)) as [->|Hne].
    + by rewrite mapping_get_insert_eq.
    + rewrite mapping_get_insert_ne by done. by rewrite app_nil_r.
  - cbn. fold n. rewrite issued_ids_app, I6, ids_upto_succ by done. done.
Qed.

(** The owner index after a transfer, read at any identity. *)
Lemma ownerCredits_at_transfer s id to a :
  ownerCredits_at (transferCredit_post id to s) a =
  let from := Credit.owner (credit_at s id) in
  let removed := _removeFromArray (ownerCredits_at s from) id in
  if bool_decide (a = to)
  then (if bool_decide (to = from) then removed else ownerCredits_at s to)
       ++ [id]
  else if bool_decide (a = from) then removed
  else ownerCredits_at s a.
Proof.
  cbn zeta. unfold ownerCredits_at at 1. cbn. unfold ownerCredits_at.
  set (from := Credit.owner (credit_at s id)).
  destruct (decide (a = to)) as [->|Hto].
  - rewrite (bool_decide_eq_true_2 (to = to)) by done.
    rewrite mapping_get_insert_eq.
    destruct (decide (to = from)) as [->|Hfrom].
    + rewrite bool_decide_eq_true_2 by done.
      by rewrite mapping_get_insert_eq.
    + rewrite bool_decide_eq_false_2 by done.
      by rewrite mapping_get_insert_ne.
  - rewrite (bool_decide_eq_false_2 (a = to)) by done.
    rewrite mapping_get_insert_ne by done.
    destruct (decide (a = from)) as [->|Hfrom].
    + rewrite bool_decide_eq_true_2 by done.
      by rewrite mapping_get_insert_eq.
    + rewrite bool_decide_eq_false_2 by done.
      by rewrite mapping_get_insert_ne.
Qed.

(** Case analysis on every [bool_decide] of the goal, keeping the decided
    proposition as a hypothesis. *)
Ltac decide_goal :=
  repeat match goal with
  | |- context [bool_decide ?P] =>
      destruct (decide P);
      [rewrite (bool_decide_eq_true_2 P) by assumption
      |rewrite (bool_decide_eq_false_2 P) by assumption]
  end.

Lemma occurrences_transfer_other s id to a j :
  j <> id ->
  occurrences j (ownerCredits_at (transferCredit_post id to s) a) =
  occurrences j (ownerCredits_at s a).
Proof.
  intros Hj. rewrite ownerCredits_at_transfer. cbn zeta.
  decide_goal; subst;
    rewrite ?occurrences_app, ?occurrences_singleton,
      ?occurrences_removeFromArray;
    decide_goal; subst; try done; lia.
Qed.

Lemma occurrences_transfer_same s id to a :
  Inv s -> credit_exists s id = true ->
  occurrences id (ownerCredits_at (transferCredit_post id to s) a) =
  if bool_decide (a = to) then 1%nat else 0%nat.
Proof.
  intros HI Hex. rewrite ownerCredits_at_transfer. cbn zeta.
  pose proof (inv_owner s HI) as I4.
  pose proof (I4 (Credit.owner (credit_at s id)) id) as Hfrom.
  rewrite Hex, bool_decide_eq_true_2 in Hfrom by done. cbn in Hfrom.
  pose proof (I4 a id) as Ha. pose proof (I4 to id) as Hto.
  rewrite Hex in Ha, Hto. cbn in Ha, Hto.
  destruct (decide (a = to)) as [->|Hato].
  - rewrite (bool_decide_eq_true_2 (to = to)) by done.
    rewrite occurrences_app, occurrences_singleton.
    rewrite (bool_decide_eq_true_2 (id = id)) by done.
    destruct (decide (to = Credit.owner (credit_at s id))) as [Heq|Hne].
    + rewrite bool_decide_eq_true_2 by done.
      rewrite occurrences_removeFromArray.
      rewrite (bool_decide_eq_true_2 (id = id)) by done. by rewrite Hfrom.
    + rewrite bool_decide_eq_false_2 by done.
      rewrite bool_decide_eq_false_2 in Hto by done. by rewrite Hto.
  - rewrite (bool_decide_eq_false_2 (a = to)) by done.
    destruct (decide (a = Credit.owner (credit_at s id))) as [Heq|Hne].
    + rewrite bool_decide_eq_true_2 by done.
      rewrite occurrences_removeFromArray.
      rewrite (bool_decide_eq_true_2 (id = id)) by done. by rewrite Hfrom.
    + rewrite bool_decide_eq_false_2 by done.
      rewrite bool_decide_eq_false_2 in Ha by done. done.
Qed.

Lemma Inv_transferCredit s id to :
  Inv s -> credit_exists s id = true -> to <> 0 ->
  Inv (transferCredit_post id to s).
Proof.
  intros HI Hex Hto. pose proof HI as [I1 I2 I3 I4 I5 I6].
  destruct (credit_exists_lookup _ _ Hex) as (c & Hc & Hat).
  destruct (I3 _ _ Hc) as (Hid & Hown & Hprod & Hr1 & Hr2).
  assert (Hnew : forall j,
            credit_at (transferCredit_post id to s) j =
            if bool_decide (j = id) then Credit.set_owner to c
            else credit_at s j).
  { intros j. rewrite <- Hat. by apply credit_at_update. }
  assert (Hid0 : Credit.id c <> 0).
  { rewrite Hid. apply Inv_exists_range in Hex; [lia|done]. }
  constructor.
  - done.
  - intros j. cbn. rewrite lookup_insert_is_Some, <- I2.
    split; [|by destruct (decide (id = j)); eauto].
    intros [<-|[_ ?]]; [by eexists|done].
  - intros j cj. cbn. rewrite lookup_insert_Some.
    intros [[<- <-]|[Hne Hj]]; [|by apply I3]. rewrite Hat. cbn. done.
  - intros a j. destruct (decide (j = id)) as [->|Hj].
    + rewrite occurrences_transfer_same by done.
      unfold credit_exists. rewrite Hnew.
      rewrite (bool_decide_eq_true_2 (id = id)) by done. cbn.
      rewrite (bool_decide_eq_false_2 (Credit.id c = 0)) by done. cbn.
      decide_goal; congruence.
    + rewrite occurrences_transfer_other by done. rewrite I4.
      unfold credit_exists. rewrite Hnew.
      by rewrite (bool_decide_eq_false_2 (j = id)) by done.
  - intros p. unfold producerCredits_at in *. cbn. rewrite I5.
    apply filter_ext_elem. intros j _. rewrite Hnew.
    destruct (decide (j = id)) as [->|Hj].
    + rewrite bool_decide_eq_true_2 by done. by rewrite Hat.
    + by rewrite bool_decide_eq_false_2.
  - cbn. rewrite issued_ids_snoc by done. done.
Qed.

Ltac solve_frame s :=
  apply (Inv_frame s); cbn; rewrite ?issued_ids_snoc by done; done.

Lemma Inv_step s s' env c :
  Inv s -> execute c env s = Ok (tt, s') -> Inv s'.
Proof.
  intros HI Hstep. destruct c; cbn [execute] in Hstep.
  - rewrite setCertifier_eq in Hstep. inv_guard Hstep.
    injection Hstep as <-. by solve_frame s.
  - rewrite registerAuditor_eq in Hstep. inv_guard Hstep.
    injection Hstep as <-. by solve_frame s.
  - rewrite deactivateAuditor_eq in Hstep. inv_guard Hstep.
    injection Hstep as <-. by solve_frame s.
  - rewrite suspendCredit_eq in Hstep. inv_guard Hstep.
    injection Hstep as <-.
    destruct (credit_exists_lookup _ _ G0) as (c & Hc & Hat).
    eapply (Inv_update s _ id c); [exact Hc|cbn; by rewrite Hat|..]; try done.
    cbn. rewrite issued_ids_snoc by done. done.
  - rewrite issueCredit_eq in Hstep. inv_guard Hstep.
    injection Hstep as <-. by apply Inv_issueCredit.
  - rewrite verifyCredit_eq in Hstep. inv_guard Hstep.
    injection Hstep as <-.
    destruct (credit_exists_lookup _ _ G0) as (c & Hc & Hat).
    destruct (inv_credit s HI _ _ Hc) as (_ & _ & _ & Hr1 & Hr2).
    eapply (Inv_update s _ id c); [exact Hc|cbn; by rewrite Hat|..];
      try done.
    cbn. rewrite issued_ids_snoc by done. done.
  - rewrite createProductionBatch_eq in Hstep. inv_guard Hstep.
    destruct (sum_batch producer creditIds 0 env s) as [[t s1]|e]; [|done].
    inv_guard Hstep. injection Hstep as <-. by solve_frame s.
  - rewrite verifyProductionBatch_eq in Hstep. inv_guard Hstep.
    injection Hstep as <-. unfold verifyProductionBatch_post.
    destruct (bool_decide _); by solve_frame s.
  - rewrite transferCredit_eq in Hstep. inv_guard Hstep.
    injection Hstep as <-. by apply Inv_transferCredit.
  - rewrite retireCredit_eq in Hstep. inv_guard Hstep.
    injection Hstep as <-.
    destruct (credit_exists_lookup _ _ G) as (c & Hc & Hat).
    eapply (Inv_update s _ id c); [exact Hc|cbn; by rewrite Hat|..]; try done.
    cbn. rewrite issued_ids_snoc by done. done.
Qed.

Lemma reachable_Inv s : reachable s -> Inv s.
Proof.
  induction 1 as [deployer|s s' env c _ IH Hstep].
  - apply Inv_init.
  - by eapply Inv_step.
Qed.

Lemma transact_reachable env c s : reachable s -> reachable (transact env c s).
Proof.
  intros Hs. unfold transact.
  destruct (execute c env s) as [[[] s']|e] eqn:Hexec; [|done].
  by eapply reachable_step.
Qed.

Lemma run_reachable txs s : reachable s -> reachable (run txs s).
Proof.
  revert s. induction txs as [|[env c] txs IH]; intros s Hs; [done|].
  cbn. apply IH. by apply transact_reachable.
Qed.

(** * Further lemmas on single calls *)

(** ** How one call changes one credit *)

(** A successful call leaves an existing credit's record alone, unless it is
    one of the four calls that name this very credit; each of those rewrites
    the fields shown, under the guards shown. *)
Lemma step_credit_cases s s' env c id :
  Inv s -> execute c env s = Ok (tt, s') -> credit_exists s id = true ->
  credit_at s' id = credit_at s id \/
  (exists r, c = SuspendCredit id r /\
     credit_at s' id = Credit.set_status Suspended (credit_at s id)) \/
  (exists st notes, c = VerifyCredit id st notes /\
     Credit.verificationStatus (credit_at s id) = Pending /\
     Credit.isRetired (credit_at s id) = false /\
     credit_at s' id = Credit.set_verificationStatus st (credit_at s id)) \/
  (exists to, c = TransferCredit id to /\
     credit_at s' id = Credit.set_owner to (credit_at s id)) \/
  (exists r, c = RetireCredit id r /\
     Credit.isRetired (credit_at s id) = false /\
     Credit.status (credit_at s id) = Active /\
     Credit.verificationStatus (credit_at s id) = Verified /\
     credit_at s' id =
       Credit.set_status Retired
         (Credit.set_retirementReason r
            (Credit.set_retirementDate (block_timestamp env)
               (Credit.set_isRetired true (credit_at s id))))).
Proof.
  intros HI Hstep Hex. destruct c; cbn [execute] in Hstep.
  - rewrite setCertifier_eq in Hstep. inv_guard Hstep.
    injection Hstep as <-. by left.
  - rewrite registerAuditor_eq in Hstep. inv_guard Hstep.
    injection Hstep as <-. by left.
  - rewrite deactivateAuditor_eq in Hstep. inv_guard Hstep.
    injection Hstep as <-. by left.
  - rewrite suspendCredit_eq in Hstep. inv_guard Hstep.
    injection Hstep as <-.
    rewrite (credit_at_update s _ id0
               (Credit.set_status Suspended (credit_at s id0)) id) by done.
    destruct (decide (id = id0)) as [->|Hne].
    + rewrite bool_decide_eq_true_2 by done. right. left. by eexists.
    + rewrite bool_decide_eq_false_2 by done. by left.
  - rewrite issueCredit_eq in Hstep. inv_guard Hstep.
    injection Hstep as <-. left.
    apply (Inv_exists_range s id HI) in Hex.
    unfold credit_at, issueCredit_post. cbn.
    apply mapping_get_insert_ne. lia.
  - rewrite verifyCredit_eq in Hstep. inv_guard Hstep.
    injection Hstep as <-.
    rewrite (credit_at_update s _ id0
               (Credit.set_verificationStatus status (credit_at s id0)) id)
      by done.
    destruct (decide (id = id0)) as [->|Hne].
    + rewrite bool_decide_eq_true_2 by done. right. right. left.
      by exists status, notes.
    + rewrite bool_decide_eq_false_2 by done. by left.
  - rewrite createProductionBatch_eq in Hstep. inv_guard Hstep.
    destruct (sum_batch producer creditIds 0 env s) as [[t s1]|e]; [|done].
    inv_guard Hstep. injection Hstep as <-. by left.
  - rewrite verifyProductionBatch_eq in Hstep. inv_guard Hstep.
    injection Hstep as <-. left. unfold verifyProductionBatch_post.
    by destruct (bool_decide _).
  - rewrite transferCredit_eq in Hstep. inv_guard Hstep.
    injection Hstep as <-.
    rewrite (credit_at_update s _ id0
               (Credit.set_owner to (credit_at s id0)) id) by done.
    destruct (decide (id = id0)) as [->|Hne].
    + rewrite bool_decide_eq_true_2 by done. do 3 right. left. by eexists.
    + rewrite bool_decide_eq_false_2 by done. by left.
  - rewrite retireCredit_eq in Hstep. inv_guard Hstep.
    injection Hstep as <-.
    rewrite (credit_at_update s _ id0
               (Credit.set_status Retired
                  (Credit.set_retirementReason reason
                     (Credit.set_retirementDate (block_timestamp env)
                        (Credit.set_isRetired true (credit_at s id0))))) id)
      by done.
    destruct (decide (id = id0)) as [->|Hne].
    + rewrite bool_decide_eq_true_2 by done. do 4 right. by exists reason.
    + rewrite bool_decide_eq_false_2 by done. by left.
Qed.

Lemma step_credit_exists s s' env c id :
  Inv s -> execute c env s = Ok (tt, s') -> credit_exists s id = true ->
  credit_exists s' id = true.
Proof.
  intros HI Hstep Hex. unfold credit_exists in *.
  destruct (step_credit_cases s s' env c id HI Hstep Hex)
    as [->|[(r & _ & ->)|[(st & n & _ & _ & _ & ->)|[(to & _ & ->)
       |(r & _ & _ & _ & _ & ->)]]]]; done.
Qed.

Lemma step_verification_frozen s s' env c id :
  Inv s -> execute c env s = Ok (tt, s') -> credit_exists s id = true ->
  Credit.verificationStatus (credit_at s id) <> Pending ->
  Credit.verificationStatus (credit_at s' id) =
  Credit.verificationStatus (credit_at s id).
Proof.
  intros HI Hstep Hex Hv.
  destruct (step_credit_cases s s' env c id HI Hstep Hex)
    as [->|[(r & _ & ->)|[(st & n & _ & Hp & _ & _)|[(to & _ & ->)
       |(r & _ & _ & _ & _ & ->)]]]]; done.
Qed.

Lemma run_verification_frozen txs s id :
  reachable s -> credit_exists s id = true ->
  Credit.verificationStatus (credit_at s id) <> Pending ->
  credit_exists (run txs s) id = true /\
  Credit.verificationStatus (credit_at (run txs s) id) =
  Credit.verificationStatus (credit_at s id).
Proof.
  revert s. induction txs as [|[env c] txs IH]; intros s Hs Hex Hv; [done|].
  cbn [run fold_left fst snd]. fold (run txs (transact env c s)).
  unfold transact.
  destruct (execute c env s) as [[[] s']|e] eqn:Hstep; [|by apply IH].
  pose proof (reachable_Inv s Hs) as HI.
  pose proof (step_verification_frozen s s' env c id HI Hstep Hex Hv) as Hsame.
  destruct (IH s') as [Hex' Hv'].
  - by eapply reachable_step.
  - by eapply step_credit_exists.
  - by rewrite Hsame.
  - split; [done|]. by rewrite Hv', Hsame.
Qed.

(** ** Production batches *)

Lemma batch_exists_lookup s b :
  batch_exists s b = true ->
  exists bt, productionBatches s !! b = Some bt /\ batch_at s b = bt.
Proof.
  unfold batch_exists, batch_at, mapping_get.
  destruct (productionBatches s !! b) as [bt|]; cbn; [intros _; by exists bt|].
  by rewrite bool_decide_eq_true_2.
Qed.

Lemma BatchInv_frame s s' :
  nextBatchId s' = nextBatchId s ->
  productionBatches s' = productionBatches s ->
  BatchInv s -> BatchInv s'.
Proof. intros Hn Hb [B1 B2]. constructor; by rewrite ?Hn, ?Hb. Qed.

Lemma BatchInv_step s s' env c :
  BatchInv s -> execute c env s = Ok (tt, s') -> BatchInv s'.
Proof.
  intros HB Hstep. destruct c; cbn [execute] in Hstep.
  - rewrite setCertifier_eq in Hstep. inv_guard Hstep.
    injection Hstep as <-. by apply (BatchInv_frame s).
  - rewrite registerAuditor_eq in Hstep. inv_guard Hstep.
    injection Hstep as <-. by apply (BatchInv_frame s).
  - rewrite deactivateAuditor_eq in Hstep. inv_guard Hstep.
    injection Hstep as <-. by apply (BatchInv_frame s).
  - rewrite suspendCredit_eq in Hstep. inv_guard Hstep.
    injection Hstep as <-. by apply (BatchInv_frame s).
  - rewrite issueCredit_eq in Hstep. inv_guard Hstep.
    injection Hstep as <-. by apply (BatchInv_frame s).
  - rewrite verifyCredit_eq in Hstep. inv_guard Hstep.
    injection Hstep as <-. by apply (BatchInv_frame s).
  - rewrite createProductionBatch_eq in Hstep. inv_guard Hstep.
    destruct (sum_batch producer creditIds 0 env s) as [[t s1]|e]; [|done].
    inv_guard Hstep. injection Hstep as <-.
    destruct HB as [B1 B2]. constructor; cbn; [lia|].
    intros b bt. rewrite lookup_insert_Some.
    intros [[<- <-]|[Hne Hb]]; cbn.
    + split; [done|]. split; [lia|]. split; [lia|]. done.
    + destruct (B2 _ _ Hb) as (? & ? & ? & ?). repeat split; try done; lia.
  - rewrite verifyProductionBatch_eq in Hstep. inv_guard Hstep.
    injection Hstep as <-.
    destruct (batch_exists_lookup _ _ G0) as (bt0 & Hbt0 & Hat).
    destruct HB as [B1 B2].
    destruct (B2 _ _ Hbt0) as (Hid & Hrange & Hcount & Hflag).
    unfold verifyProductionBatch_post. rewrite Hat.
    destruct (decide (MIN_VERIFICATION_COUNT
                      <= ProductionBatch.verificationCount bt0 + 1))
      as [Hq|Hq].
    + rewrite (bool_decide_eq_true_2 _ Hq). constructor; cbn; [done|].
      intros b bt. rewrite lookup_insert_Some.
      intros [[<- <-]|[Hne Hb]]; [|by apply B2]. cbn.
      rewrite (bool_decide_eq_true_2 _ Hq).
      split; [done|]. split; [done|]. split; [lia|done].
    + rewrite (bool_decide_eq_false_2 _ Hq). constructor; cbn; [done|].
      intros b bt. rewrite lookup_insert_Some.
      intros [[<- <-]|[Hne Hb]]; [|by apply B2]. cbn.
      rewrite (bool_decide_eq_false_2 _ Hq).
      split; [done|]. split; [done|]. split; [lia|].
      rewrite Hat in G1. done.
  - rewrite transferCredit_eq in Hstep. inv_guard Hstep.
    injection Hstep as <-. by apply (BatchInv_frame s).
  - rewrite retireCredit_eq in Hstep. inv_guard Hstep.
    injection Hstep as <-. by apply (BatchInv_frame s).
Qed.

Lemma reachable_BatchInv s : reachable s -> BatchInv s.
Proof.
  induction 1 as [deployer|s s' env c _ IH Hstep].
  - constructor; cbn; [done|]. intros b bt. by rewrite lookup_empty.
  - by eapply BatchInv_step.
Qed.

(** In every reachable state the flag of an existing batch is set exactly
    when its count has reached the threshold. *)
Lemma batch_flag_tracks_count s b :
  reachable s -> batch_exists s b = true ->
  ProductionBatch.isVerified (batch_at s b) =
  bool_decide (MIN_VERIFICATION_COUNT
               <= ProductionBatch.verificationCount (batch_at s b)).
Proof.
  intros Hs (bt & Hbt & ->)%batch_exists_lookup.
  by apply (binv_batch s (reachable_BatchInv s Hs) b bt).
Qed.

(** A successful call never changes a verified batch. *)
Lemma step_verified_batch s s' env c b :
  BatchInv s -> execute c env s = Ok (tt, s') ->
  ProductionBatch.isVerified (batch_at s b) = true ->
  batch_at s' b = batch_at s b.
Proof.
  intros HB Hstep Hver. destruct c; cbn [execute] in Hstep.
  - rewrite setCertifier_eq in Hstep. inv_guard Hstep.
    by injection Hstep as <-.
  - rewrite registerAuditor_eq in Hstep. inv_guard Hstep.
    by injection Hstep as <-.
  - rewrite deactivateAuditor_eq in Hstep. inv_guard Hstep.
    by injection Hstep as <-.
  - rewrite suspendCredit_eq in Hstep. inv_guard Hstep.
    by injection Hstep as <-.
  - rewrite issueCredit_eq in Hstep. inv_guard Hstep.
    by injection Hstep as <-.
  - rewrite verifyCredit_eq in Hstep. inv_guard Hstep.
    by injection Hstep as <-.
  - rewrite createProductionBatch_eq in Hstep. inv_guard Hstep.
    destruct (sum_batch producer creditIds 0 env s) as [[t s1]|e]; [|done].
    inv_guard Hstep. injection Hstep as <-.
    unfold batch_at, createProductionBatch_post. cbn.
    apply mapping_get_insert_ne. intros <-.
    unfold batch_at, mapping_get in Hver.
    destruct (productionBatches s !! nextBatchId s) as [bt|] eqn:Hbt;
      [|done].
    destruct (binv_batch s HB _ _ Hbt) as (_ & ? & _). lia.
  - rewrite verifyProductionBatch_eq in Hstep. inv_guard Hstep.
    injection Hstep as <-. unfold verifyProductionBatch_post.
    assert (batchId <> b) by (intros ->; congruence).
    destruct (bool_decide _); unfold batch_at; cbn;
      by apply mapping_get_insert_ne.
  - rewrite transferCredit_eq in Hstep. inv_guard Hstep.
    by injection Hstep as <-.
  - rewrite retireCredit_eq in Hstep. inv_guard Hstep.
    by injection Hstep as <-.
Qed.

(** Once set, the verified flag of a batch stays set whatever transactions
    follow. *)
Lemma batch_verified_forever txs s b :
  reachable s -> ProductionBatch.isVerified (batch_at s b) = true ->
  ProductionBatch.isVerified (batch_at (run txs s) b) = true.
Proof.
  revert s. induction txs as [|[env c] txs IH]; intros s Hs Hver; [done|].
  cbn [run fold_left fst snd]. fold (run txs (transact env c s)).
  unfold transact.
  destruct (execute c env s) as [[[] s']|e] eqn:Hstep; [|by apply IH].
  apply IH; [by eapply reachable_step|].
  by rewrite (step_verified_batch s s' env c b (reachable_BatchInv s Hs) Hstep).
Qed.

(** * Evaluation on concrete inputs *)

Example removeFromArray_middle : _removeFromArray [1; 2; 3; 4] 2 = [1; 4; 3].
Proof. reflexivity. Qed.

Example removeFromArray_last : _removeFromArray [1; 2; 3; 4] 4 = [1; 2; 3].
Proof. reflexivity. Qed.

Example removeFromArray_first_only :
  _removeFromArray [2; 1; 2] 2 = [2; 1].
Proof. reflexivity. Qed.

Example removeFromArray_missing : _removeFromArray [1; 2; 3] 9 = [1; 2; 3].
Proof. reflexivity. Qed.

(** Issue, verify, transfer to a buyer: the buyer owns the credit, the
    producer index still lists it, and the producer's total is unchanged. *)
Example transferred_indexes :
  ownerCredits_at (run txs_transferred (constructor 1)) 5 = [] /\
  ownerCredits_at (run txs_transferred (constructor 1)) 6 = [1] /\
  producerCredits_at (run txs_transferred (constructor 1)) 5 = [1] /\
  getTotalCreditsByProducer 5 (env_of 6 200)
    (run txs_transferred (constructor 1))
  = Ok (1000, run txs_transferred (constructor 1)).
Proof. by vm_compute. Qed.

(** A second retirement of the same credit is refused. *)
Example retire_twice :
  retireCredit 1 "again" (env_of 5 103) (run txs_retired (constructor 1))
  = Err CreditHasBeenRetired.
Proof. by vm_compute. Qed.

(** A third verification of a verified batch is refused. *)
Example verify_verified_batch :
  verifyProductionBatch 1 (env_of 7 104)
    (run txs_self_verified_batch (constructor 1))
  = Err BatchAlreadyVerified.
Proof. by vm_compute. Qed.

(** The expiry query: 365 days and one second after production. *)
Example expired_after_a_year :
  isCreditExpired 1 (env_of 6 (90 + 365 * 86400))
    (run txs_verified (constructor 1))
  = Ok (false, run txs_verified (constructor 1)) /\
  isCreditExpired 1 (env_of 6 (90 + 365 * 86400 + 1))
    (run txs_verified (constructor 1))
  = Ok (true, run txs_verified (constructor 1)).
Proof. by vm_compute. Qed.

(** * The properties of the specification, C1 to C10 *)

(** ** C1: quorum of a production batch *)

(** What verifyProductionBatch does for an active auditor on an existing,
    not yet verified batch: it adds one to the count and sets the flag when
    the count has reached the threshold.  The caller's identity is not
    recorded and not compared with earlier verifiers. *)
Lemma verifyProductionBatch_counts_calls s env b :
  is_active_auditor s (msg_sender env) = true ->
  batch_exists s b = true ->
  ProductionBatch.isVerified (batch_at s b) = false ->
  ProductionBatch.verificationCount (batch_at s b) < MAX_UINT256 ->
  let s' := verifyProductionBatch_post env b s in
  verifyProductionBatch b env s = Ok (tt, s') /\
  ProductionBatch.verificationCount (batch_at s' b) =
    ProductionBatch.verificationCount (batch_at s b) + 1 /\
  ProductionBatch.isVerified (batch_at s' b) =
    bool_decide (MIN_VERIFICATION_COUNT <=
                 ProductionBatch.verificationCount (batch_at s b) + 1).
Proof.
  intros Hactive Hex Hnot Hcount s'. split.
  - rewrite verifyProductionBatch_eq, Hactive, Hex, Hnot. cbn [negb].
    by rewrite bool_decide_eq_true_2 by lia.
  - unfold s', verifyProductionBatch_post, batch_at.
    destruct (bool_decide (MIN_VERIFICATION_COUNT <= _)); cbn;
      by rewrite mapping_get_insert_eq.
Qed.

(** C1 (the code on the failing input). Only one auditor, account 7, is ever
    registered.  It verifies credit 1, creates batch 1 from it (its creation
    counts as the first verification) and then calls verifyProductionBatch on
    its own batch: the call succeeds, the count goes from 1 to 2 and the
    batch is marked verified, although a single auditor identity has
    verified it. *)
Theorem C1_same_auditor_reaches_quorum :
  let created :=
    run (txs_verified ++ [ (env_of 7 102, CreateProductionBatch 5 [1]) ])
        (constructor 1) in
  let s := run txs_self_verified_batch (constructor 1) in
  ProductionBatch.verificationCount (batch_at created 1) = 1 /\
  ProductionBatch.isVerified (batch_at created 1) = false /\
  verifyProductionBatch 1 (env_of 7 103) created = Ok (tt, s) /\
  ProductionBatch.verificationCount (batch_at s 1) = MIN_VERIFICATION_COUNT /\
  ProductionBatch.isVerified (batch_at s 1) = true /\
  log s = log created ++ [ProductionBatchVerified 1 7].
Proof. by vm_compute. Qed.

(** ** C2: the retired flag and the lifecycle status *)

(** C2 as the specification states it fails: the regulator suspends credit 1
    after its owner retired it, and the credit then has isRetired = true
    while its lifecycle status is Suspended, not Retired. *)
Lemma C2_counterexample :
  reachable (run txs_retired_suspended (constructor 1)) /\
  credit_exists (run txs_retired_suspended (constructor 1)) 1 = true /\
  Credit.isRetired (credit_at (run txs_retired_suspended (constructor 1)) 1)
    = true /\
  Credit.status (credit_at (run txs_retired_suspended (constructor 1)) 1)
    = Suspended.
Proof.
  split; [apply run_reachable, reachable_init|]. by vm_compute.
Qed.

(** C2 (amended). In every reachable state and for every existing credit:
    a lifecycle status of Retired implies isRetired = true, and
    isRetired = true implies that the status is Retired or Suspended.  Every
    successful call preserves the equivalence "isRetired = true iff status is
    Retired" for the credit, except suspendCredit on an already retired
    credit: that call (open to the regulator in any state) sets the status to
    Suspended and leaves isRetired = true. *)
Theorem C2_retired_flag (s : State) (id : uint256) (Hs : reachable s)
    (Hex : credit_exists s id = true) :
  (Credit.status (credit_at s id) = Retired ->
   Credit.isRetired (credit_at s id) = true) /\
  (Credit.isRetired (credit_at s id) = true ->
   Credit.status (credit_at s id) = Retired \/
   Credit.status (credit_at s id) = Suspended) /\
  (forall env c s',
     execute c env s = Ok (tt, s') ->
     (Credit.isRetired (credit_at s id) = true <->
      Credit.status (credit_at s id) = Retired) ->
     (forall reason, c = SuspendCredit id reason ->
                     Credit.isRetired (credit_at s id) = false) ->
     (Credit.isRetired (credit_at s' id) = true <->
      Credit.status (credit_at s' id) = Retired)) /\
  (forall env reason,
     msg_sender env = regulator s ->
     Credit.isRetired (credit_at s id) = true ->
     let s' := suspendCredit_post env id reason s in
     suspendCredit id reason env s = Ok (tt, s') /\
     Credit.status (credit_at s' id) = Suspended /\
     Credit.isRetired (credit_at s' id) = true).
Proof.
  pose proof (reachable_Inv s Hs) as HI.
  destruct (credit_exists_lookup _ _ Hex) as (c0 & Hc0 & Hat).
  destruct (inv_credit s HI _ _ Hc0) as (_ & _ & _ & Hr1 & Hr2).
  rewrite <- Hat in Hr1, Hr2.
  split; [done|]. split.
  { intros Hret. specialize (Hr2 Hret).
    destruct (Credit.status (credit_at s id)); [done|by left|by right]. }
  split.
  - intros env c s' Hstep Hiff Hsusp.
    destruct (step_credit_cases s s' env c id HI Hstep Hex)
      as [->|[(r & Hc & ->)|[(st & n & _ & _ & _ & ->)|[(to & _ & ->)
         |(r & _ & _ & _ & _ & ->)]]]]; cbn; try done.
    rewrite (Hsusp r Hc). done.
  - intros env reason Hreg Hret s'. split; [|split].
    + rewrite suspendCredit_eq. unfold is_regulator.
      rewrite (bool_decide_eq_true_2 _ Hreg), Hex. done.
    + unfold s'.
      rewrite (credit_at_update s _ id
                 (Credit.set_status Suspended (credit_at s id))) by done.
      by rewrite bool_decide_eq_true_2.
    + unfold s'.
      rewrite (credit_at_update s _ id
                 (Credit.set_status Suspended (credit_at s id))) by done.
      by rewrite bool_decide_eq_true_2.
Qed.

Lemma C2_witness :
  let s := run txs_retired (constructor 1) in
  (Credit.status (credit_at s 1) = Retired ->
   Credit.isRetired (credit_at s 1) = true) /\
  (Credit.isRetired (credit_at s 1) = true ->
   Credit.status (credit_at s 1) = Retired \/
   Credit.status (credit_at s 1) = Suspended) /\
  (forall env c s',
     execute c env s = Ok (tt, s') ->
     (Credit.isRetired (credit_at s 1) = true <->
      Credit.status (credit_at s 1) = Retired) ->
     (forall reason, c = SuspendCredit 1 reason ->
                     Credit.isRetired (credit_at s 1) = false) ->
     (Credit.isRetired (credit_at s' 1) = true <->
      Credit.status (credit_at s' 1) = Retired)) /\
  (forall env reason,
     msg_sender env = regulator s ->
     Credit.isRetired (credit_at s 1) = true ->
     let s' := suspendCredit_post env 1 reason s in
     suspendCredit 1 reason env s = Ok (tt, s') /\
     Credit.status (credit_at s' 1) = Suspended /\
     Credit.isRetired (credit_at s' 1) = true).
Proof.
  apply (C2_retired_flag (run txs_retired (constructor 1)) 1).
  - apply run_reachable, reachable_init.
  - by vm_compute.
Defined.

(** ** C3: when issuance fails *)

(** Beyond its [require]s, issueCredit ends with a checked [nextId++], which
    panics once the counter holds 2^256 - 1.  The counter moves by one per
    successful issuance, so that value is reached only after 2^256 - 2 of
    them; C3 is stated for the counter below it. *)
Lemma issueCredit_counter_exhausted s env to producer pn amount pd rs loc ci
    md :
  is_certifier env s = true -> to <> 0 -> producer <> 0 -> 0 < amount ->
  ci <= MAX_CARBON_INTENSITY -> pd <= block_timestamp env ->
  MAX_UINT256 <= nextId s ->
  issueCredit to producer pn amount pd rs loc ci md env s
  = Err ArithmeticPanic.
Proof.
  intros Hcert Hto Hprod Hamount Hci Hpd Hmax.
  rewrite issueCredit_eq, Hcert. cbn [negb].
  rewrite (bool_decide_eq_false_2 (to = 0)) by done.
  rewrite (bool_decide_eq_false_2 (producer = 0)) by done.
  rewrite (bool_decide_eq_true_2 (0 < amount)) by done.
  rewrite (bool_decide_eq_true_2 (ci <= MAX_CARBON_INTENSITY)) by done.
  rewrite (bool_decide_eq_true_2 (pd <= block_timestamp env)) by done.
  rewrite bool_decide_eq_false_2 by lia. done.
Qed.

Lemma issueCredit_succeeds s env to producer pn amount pd rs loc ci md :
  is_certifier env s = true -> to <> 0 -> producer <> 0 -> 0 < amount ->
  ci <= MAX_CARBON_INTENSITY -> pd <= block_timestamp env ->
  nextId s < MAX_UINT256 ->
  issueCredit to producer pn amount pd rs loc ci md env s
  = Ok (tt, issueCredit_post env to producer pn amount pd rs loc ci md s).
Proof.
  intros Hcert Hto Hprod Hamount Hci Hpd Hmax.
  rewrite issueCredit_eq, Hcert. cbn [negb].
  rewrite (bool_decide_eq_false_2 (to = 0)) by done.
  rewrite (bool_decide_eq_false_2 (producer = 0)) by done.
  rewrite (bool_decide_eq_true_2 (0 < amount)) by done.
  rewrite (bool_decide_eq_true_2 (ci <= MAX_CARBON_INTENSITY)) by done.
  rewrite (bool_decide_eq_true_2 (pd <= block_timestamp env)) by done.
  rewrite bool_decide_eq_true_2 by lia. done.
Qed.

(** C3. When the caller is the certifier or the regulator (and the id
    counter is below 2^256 - 1, as it is until 2^256 - 2 credits have been
    issued), issueCredit fails if and only if [to] is zero, or [producer] is
    zero, or [amount <= 0], or [carbonIntensity > 50], or [productionDate]
    lies after the current time.  At the boundaries [carbonIntensity = 50]
    and [productionDate = now] the call succeeds.  A failed call leaves the
    whole storage as it was: no id is consumed and no credit is stored. *)
Theorem C3_issueCredit_failure (s : State) (env : Env) (to producer : address)
    (pn : string) (amount pd : uint256) (rs loc : string) (ci : uint256)
    (md : string)
    (Hcaller : msg_sender env = certifier s \/ msg_sender env = regulator s)
    (Hcounter : nextId s < MAX_UINT256) :
  ((exists e, issueCredit to producer pn amount pd rs loc ci md env s = Err e)
   <-> to = 0 \/ producer = 0 \/ amount <= 0 \/ MAX_CARBON_INTENSITY < ci \/
       block_timestamp env < pd) /\
  (forall e, issueCredit to producer pn amount pd rs loc ci md env s = Err e ->
     transact env (IssueCredit to producer pn amount pd rs loc ci md) s = s /\
     nextId (transact env (IssueCredit to producer pn amount pd rs loc ci md)
               s) = nextId s /\
     credit_exists
       (transact env (IssueCredit to producer pn amount pd rs loc ci md) s)
       (nextId s) = credit_exists s (nextId s)) /\
  (to <> 0 -> producer <> 0 -> 0 < amount ->
     issueCredit to producer pn amount (block_timestamp env) rs loc
       MAX_CARBON_INTENSITY md env s =
     Ok (tt, issueCredit_post env to producer pn amount (block_timestamp env)
               rs loc MAX_CARBON_INTENSITY md s)).
Proof.
  assert (Hcert : is_certifier env s = true).
  { unfold is_certifier. destruct Hcaller as [H|H];
      rewrite (bool_decide_eq_true_2 _ H); [done|apply orb_true_r]. }
  split; [|split].
  - rewrite issueCredit_eq, Hcert. cbn [negb].
    decide_goal; cbn [negb]; split.
    all: try (intros _; lia).
    all: try (intros [e [=]]).
    all: try (intros _; by eexists).
    all: lia.
  - intros e He. unfold transact. cbn [execute]. by rewrite He.
  - intros Hto Hprod Hamount. by apply issueCredit_succeeds.
Qed.

Lemma C3_witness :
  ((exists e, issueCredit 5 5 "Producer Five" 1000 101 "solar" "California" 51
                "batch A" (env_of 1 100) (constructor 1) = Err e)
   <-> 5 = 0 \/ 5 = 0 \/ 1000 <= 0 \/ MAX_CARBON_INTENSITY < 51 \/
       block_timestamp (env_of 1 100) < 101) /\
  (forall e, issueCredit 5 5 "Producer Five" 1000 101 "solar" "California" 51
               "batch A" (env_of 1 100) (constructor 1) = Err e ->
     transact (env_of 1 100)
       (IssueCredit 5 5 "Producer Five" 1000 101 "solar" "California" 51
          "batch A") (constructor 1) = constructor 1 /\
     nextId (transact (env_of 1 100)
               (IssueCredit 5 5 "Producer Five" 1000 101 "solar" "California"
                  51 "batch A") (constructor 1)) = nextId (constructor 1) /\
     credit_exists
       (transact (env_of 1 100)
          (IssueCredit 5 5 "Producer Five" 1000 101 "solar" "California" 51
             "batch A") (constructor 1))
       (nextId (constructor 1)) =
     credit_exists (constructor 1) (nextId (constructor 1))) /\
  (5 <> 0 -> 5 <> 0 -> 0 < 1000 ->
     issueCredit 5 5 "Producer Five" 1000 (block_timestamp (env_of 1 100))
       "solar" "California" MAX_CARBON_INTENSITY "batch A" (env_of 1 100)
       (constructor 1) =
     Ok (tt, issueCredit_post (env_of 1 100) 5 5 "Producer Five" 1000
               (block_timestamp (env_of 1 100)) "solar" "California"
               MAX_CARBON_INTENSITY "batch A" (constructor 1))).
Proof.
  apply (C3_issueCredit_failure (constructor 1) (env_of 1 100) 5 5
           "Producer Five" 1000 101 "solar" "California" 51 "batch A").
  - left. reflexivity.
  - by vm_compute.
Defined.

(** ** C4: the verification state is final *)

(** C4 as the specification states it fails on the error it names: once the
    verified credit 1 has been retired by its owner, a further verifyCredit
    by the active auditor 7 is stopped by the notRetired modifier, which runs
    before the Pending check, and reverts with the credit-has-been-retired
    message instead of the already-verified one. *)
Lemma C4_counterexample :
  is_active_auditor (run txs_retired (constructor 1)) 7 = true /\
  Credit.verificationStatus (credit_at (run txs_retired (constructor 1)) 1)
    = Verified /\
  verifyCredit 1 Rejected "second opinion" (env_of 7 104)
    (run txs_retired (constructor 1)) = Err CreditHasBeenRetired /\
  CreditHasBeenRetired <> CreditAlreadyVerified /\
  revert_reason CreditHasBeenRetired = "Credit has been retired".
Proof. by vm_compute. Qed.

(** C4 (amended). After a successful verifyCredit has set a credit's
    verification state to Verified or Rejected, the state never changes
    again, whatever transactions follow; and every later verifyCredit on the
    same id by an active auditor fails, whatever the decision supplied, with
    an InvalidStateTransition error: the already-verified error as long as
    the credit has not been retired, and the credit-has-been-retired error
    once it has. *)
Theorem C4_verification_final (s0 s1 : State) (env0 : Env) (id : uint256)
    (decision : VerificationStatus) (notes : string)
    (txs : list (Env * Call))
    (Hs0 : reachable s0)
    (Hverify : verifyCredit id decision notes env0 s0 = Ok (tt, s1))
    (Hdecision : decision = Verified \/ decision = Rejected) :
  let s := run txs s1 in
  Credit.verificationStatus (credit_at s id) = decision /\
  forall env decision' notes',
    is_active_auditor s (msg_sender env) = true ->
    let e := if Credit.isRetired (credit_at s id)
             then CreditHasBeenRetired else CreditAlreadyVerified in
    verifyCredit id decision' notes' env s = Err e /\
    error_class e = InvalidStateTransition.
Proof.
  pose proof (reachable_Inv s0 Hs0) as HI0.
  assert (Hs1 : reachable s1) by (by apply (reachable_step s0 s1 env0
                                            (VerifyCredit id decision notes))).
  assert (Hex1 : credit_exists s1 id = true /\
                 Credit.verificationStatus (credit_at s1 id) = decision).
  { rewrite verifyCredit_eq in Hverify. inv_guard Hverify.
    injection Hverify as <-.
    assert (Hat : credit_at (verifyCredit_post env0 id decision s0) id =
                  Credit.set_verificationStatus decision (credit_at s0 id)).
    { rewrite (credit_at_update s0 _ id
                 (Credit.set_verificationStatus decision (credit_at s0 id)))
        by done. by rewrite bool_decide_eq_true_2. }
    unfold credit_exists in *. rewrite Hat. done. }
  destruct Hex1 as [Hex1 Hv1].
  assert (Hnp : Credit.verificationStatus (credit_at s1 id) <> Pending).
  { rewrite Hv1. by destruct Hdecision as [-> | ->]. }
  intros s.
  destruct (run_verification_frozen txs s1 id Hs1 Hex1 Hnp) as [Hex Hv].
  fold s in Hex, Hv. split; [by rewrite Hv|].
  intros env decision' notes' Hactive e. split.
  - rewrite verifyCredit_eq, Hactive, Hex. cbn [negb]. unfold e.
    destruct (Credit.isRetired (credit_at s id)); [done|].
    rewrite bool_decide_eq_false_2 by (by rewrite Hv). done.
  - unfold e. by destruct (Credit.isRetired (credit_at s id)).
Qed.

Lemma C4_witness :
  let s := run [ (env_of 5 102, RetireCredit 1 "offset") ]
             (verifyCredit_post (env_of 7 101) 1 Verified
                (run txs_issued (constructor 1))) in
  Credit.verificationStatus (credit_at s 1) = Verified /\
  forall env decision' notes',
    is_active_auditor s (msg_sender env) = true ->
    let e := if Credit.isRetired (credit_at s 1)
             then CreditHasBeenRetired else CreditAlreadyVerified in
    verifyCredit 1 decision' notes' env s = Err e /\
    error_class e = InvalidStateTransition.
Proof.
  apply (C4_verification_final (run txs_issued (constructor 1))
           (verifyCredit_post (env_of 7 101) 1 Verified
              (run txs_issued (constructor 1)))
           (env_of 7 101) 1 Verified "checked"
           [ (env_of 5 102, RetireCredit 1 "offset") ]).
  - apply run_reachable, reachable_init.
  - by vm_compute.
  - by left.
Defined.

(** ** C5: credit identifiers *)

Lemma StronglySorted_ids_from start k :
  StronglySorted N.lt (map N.of_nat (seq start k)).
Proof.
  revert start. induction k as [|k IH]; intros start; cbn.
  - constructor.
  - constructor; [apply IH|].
    apply List.Forall_forall. intros x Hx.
    apply in_map_iff in Hx as (y & <- & Hy). apply in_seq in Hy. lia.
Qed.

Lemma StronglySorted_ids_upto n : StronglySorted N.lt (ids_upto n).
Proof. apply StronglySorted_ids_from. Qed.

(** C5. Whatever transactions are sent after deployment, failing ones
    included: the counter starts at 1; the identifiers announced by the
    successful issueCredit calls are 1, 2, ..., nextId - 1 in this order,
    hence strictly increasing and without repetition; the existing credits
    are exactly those identifiers, each stored under its own id; 0 is never
    the id of an existing credit; a further issueCredit either stores the
    credit under the so far unused id [nextId] and moves the counter by one,
    or fails and leaves the storage, counter included, as it was; and a
    further issueCredit by the certifier or regulator whose arguments pass
    the five [require]s does return (the counter being below 2^256 - 1) and
    assigns the id [nextId], the next in the sequence. *)
Theorem C5_sequential_ids (deployer : address) (txs : list (Env * Call)) :
  let s := run txs (constructor deployer) in
  nextId (constructor deployer) = 1 /\
  issued_ids (log s) = ids_upto (nextId s) /\
  StronglySorted N.lt (issued_ids (log s)) /\
  NoDup (issued_ids (log s)) /\
  (forall id, credit_exists s id = true <-> id ∈ issued_ids (log s)) /\
  (forall id, credit_exists s id = true -> Credit.id (credit_at s id) = id) /\
  credit_exists s 0 = false /\
  (forall env to producer pn amount pd rs loc ci md,
     match issueCredit to producer pn amount pd rs loc ci md env s with
     | Ok (_, s') =>
         nextId s' = nextId s + 1 /\
         credit_exists s (nextId s) = false /\
         Credit.id (credit_at s' (nextId s)) = nextId s /\
         issued_ids (log s') = issued_ids (log s) ++ [nextId s]
     | Err _ =>
         transact env (IssueCredit to producer pn amount pd rs loc ci md) s = s
     end) /\
  (forall env to producer pn amount pd rs loc ci md,
     is_certifier env s = true -> to <> 0 -> producer <> 0 -> 0 < amount ->
     ci <= MAX_CARBON_INTENSITY -> pd <= block_timestamp env ->
     nextId s < MAX_UINT256 ->
     let s' := transact env (IssueCredit to producer pn amount pd rs loc ci md)
                 s in
     issueCredit to producer pn amount pd rs loc ci md env s = Ok (tt, s') /\
     nextId s' = nextId s + 1 /\
     credit_exists s' (nextId s) = true /\
     Credit.id (credit_at s' (nextId s)) = nextId s /\
     Credit.owner (credit_at s' (nextId s)) = to /\
     issued_ids (log s') = issued_ids (log s) ++ [nextId s]).
Proof.
  intros s.
  assert (Hs : reachable s) by apply run_reachable, reachable_init.
  pose proof (reachable_Inv s Hs) as HI.
  pose proof (inv_log s HI) as Hlog.
  assert (Hrange : forall id, credit_exists s id = true <-> 1 <= id < nextId s)
    by (intros id; by apply Inv_exists_range).
  split; [done|]. split; [done|].
  split; [rewrite Hlog; apply StronglySorted_ids_upto|].
  split; [rewrite Hlog; apply NoDup_ids_upto|].
  split; [intros id; by rewrite Hlog, elem_of_ids_upto|].
  split.
  { intros id (c & Hc & ->)%credit_exists_lookup.
    by apply (inv_credit s HI). }
  split.
  { destruct (credit_exists s 0) eqn:E; [|done]. apply Hrange in E. lia. }
  split.
  { intros env to producer pn amount pd rs loc ci md.
    unfold transact. cbn [execute].
    destruct (issueCredit to producer pn amount pd rs loc ci md env s)
      as [[[] s']|e] eqn:Hissue; [|done].
    rewrite issueCredit_eq in Hissue. inv_guard Hissue.
    injection Hissue as <-.
    split; [done|]. split.
    { destruct (credit_exists s (nextId s)) eqn:E; [|done].
      apply Hrange in E. lia. }
    split.
    { unfold credit_at, issueCredit_post. cbn.
      by rewrite mapping_get_insert_eq. }
    cbn. by rewrite issued_ids_app. }
  intros env to producer pn amount pd rs loc ci md Hcert Hto Hprod Hamount Hci
    Hpd Hcounter s'.
  assert (Hcall : issueCredit to producer pn amount pd rs loc ci md env s =
                  Ok (tt, issueCredit_post env to producer pn amount pd rs loc
                            ci md s)) by (by apply issueCredit_succeeds).
  assert (Hs' : s' = issueCredit_post env to producer pn amount pd rs loc ci
                       md s).
  { subst s'. unfold transact. cbn [execute]. by rewrite Hcall. }
  rewrite Hs'. split; [done|]. split; [done|].
  assert (Hat : credit_at (issueCredit_post env to producer pn amount pd rs loc
                             ci md s) (nextId s) =
                Credit.mk (nextId s) to producer pn amount pd rs loc ci Pending
                  Active (msg_sender env) (block_timestamp env) md false 0
                  String.EmptyString).
  { unfold credit_at, issueCredit_post. cbn. by rewrite mapping_get_insert_eq. }
  pose proof (inv_nextId s HI) as Hnext.
  split.
  { unfold credit_exists. rewrite Hat. cbn.
    by rewrite bool_decide_eq_false_2 by lia. }
  rewrite Hat. cbn. split; [done|]. split; [done|].
  by rewrite issued_ids_app.
Qed.

(** C5 on a run: the deployer issues a credit, an issuance with a carbon
    intensity of 51 fails, and the deployer issues again.  The two credits
    get the ids 1 and 2, the failed attempt consumes none, and 3 is the next
    id; the general statement holds of the state reached. *)
Lemma C5_witness :
  let s0 := constructor 1 in
  let s1 := transact (env_of 1 100) issue_1000 s0 in
  let s2 := transact (env_of 1 101) issue_too_dirty s1 in
  let s := run txs_issued_twice (constructor 1) in
  (issued_ids (log s1) = [1] /\ nextId s1 = 2 /\
   execute issue_too_dirty (env_of 1 101) s1 = Err CarbonIntensityTooHigh /\
   s2 = s1 /\
   issued_ids (log s) = [1; 2] /\ nextId s = 3 /\
   credit_exists s 1 = true /\ credit_exists s 2 = true /\
   credit_exists s 3 = false) /\
  (nextId (constructor 1) = 1 /\
   issued_ids (log s) = ids_upto (nextId s) /\
   StronglySorted N.lt (issued_ids (log s)) /\
   NoDup (issued_ids (log s)) /\
   (forall id, credit_exists s id = true <-> id ∈ issued_ids (log s)) /\
   (forall id, credit_exists s id = true -> Credit.id (credit_at s id) = id) /\
   credit_exists s 0 = false /\
   (forall env to producer pn amount pd rs loc ci md,
      match issueCredit to producer pn amount pd rs loc ci md env s with
      | Ok (_, s') =>
          nextId s' = nextId s + 1 /\
          credit_exists s (nextId s) = false /\
          Credit.id (credit_at s' (nextId s)) = nextId s /\
          issued_ids (log s') = issued_ids (log s) ++ [nextId s]
      | Err _ =>
          transact env (IssueCredit to producer pn amount pd rs loc ci md) s
          = s
      end) /\
   (forall env to producer pn amount pd rs loc ci md,
      is_certifier env s = true -> to <> 0 -> producer <> 0 -> 0 < amount ->
      ci <= MAX_CARBON_INTENSITY -> pd <= block_timestamp env ->
      nextId s < MAX_UINT256 ->
      let s' := transact env
                  (IssueCredit to producer pn amount pd rs loc ci md) s in
      issueCredit to producer pn amount pd rs loc ci md env s = Ok (tt, s') /\
      nextId s' = nextId s + 1 /\
      credit_exists s' (nextId s) = true /\
      Credit.id (credit_at s' (nextId s)) = nextId s /\
      Credit.owner (credit_at s' (nextId s)) = to /\
      issued_ids (log s') = issued_ids (log s) ++ [nextId s])).
Proof.
  split.
  - by vm_compute.
  - exact (C5_sequential_ids 1 txs_issued_twice).
Defined.

(** ** C6: what a transfer changes *)

(** C6. A successful transferCredit(id, to) from a reachable state, with
    [from] the owner before the call: the credit's record is the old one
    with [owner := to] and nothing else changed (amount, producer and the
    descriptive fields in particular); no other credit changes; the id is
    taken out of [from]'s owned-index and appended at the end of [to]'s, so
    that afterwards it occurs once in [to]'s index and, when [from] differs
    from [to], not at all in [from]'s; the other entries of every owned-index
    keep their multiplicity and the owned-indexes of third parties are
    untouched; the producer index, the auditor records and registrations, the
    batches, both counters and both roles are unchanged; one
    CreditTransferred event is logged. *)
Theorem C6_transfer_frame (s s' : State) (env : Env) (id : uint256)
    (to : address) (Hs : reachable s)
    (Hcall : transferCredit id to env s = Ok (tt, s')) :
  let from := Credit.owner (credit_at s id) in
  credit_at s' id = Credit.set_owner to (credit_at s id) /\
  Credit.owner (credit_at s' id) = to /\
  Credit.amount (credit_at s' id) = Credit.amount (credit_at s id) /\
  Credit.producer (credit_at s' id) = Credit.producer (credit_at s id) /\
  (forall j, j <> id -> credit_at s' j = credit_at s j) /\
  ownerCredits_at s' to =
    (if bool_decide (to = from)
     then _removeFromArray (ownerCredits_at s from) id
     else ownerCredits_at s to) ++ [id] /\
  occurrences id (ownerCredits_at s' to) = 1%nat /\
  (from <> to ->
     ownerCredits_at s' from = _removeFromArray (ownerCredits_at s from) id /\
     id ∉ ownerCredits_at s' from) /\
  (forall a j, j <> id ->
     occurrences j (ownerCredits_at s' a) =
     occurrences j (ownerCredits_at s a)) /\
  (forall a, a <> from -> a <> to ->
     ownerCredits_at s' a = ownerCredits_at s a) /\
  producerCredits s' = producerCredits s /\
  auditors s' = auditors s /\
  isAuditor s' = isAuditor s /\
  productionBatches s' = productionBatches s /\
  nextId s' = nextId s /\
  nextBatchId s' = nextBatchId s /\
  regulator s' = regulator s /\
  certifier s' = certifier s /\
  log s' = log s ++ [CreditTransferred id from to].
Proof.
  intros from. pose proof (reachable_Inv s Hs) as HI.
  rewrite transferCredit_eq in Hcall. inv_guard Hcall.
  injection Hcall as <-.
  assert (Hat : credit_at (transferCredit_post id to s) id =
                Credit.set_owner to (credit_at s id)).
  { rewrite (credit_at_update s _ id (Credit.set_owner to (credit_at s id)))
      by done. by rewrite bool_decide_eq_true_2. }
  split; [done|]. rewrite Hat.
  split; [done|]. split; [done|]. split; [done|].
  split.
  { intros j Hj.
    rewrite (credit_at_update s _ id (Credit.set_owner to (credit_at s id)))
      by done. by rewrite bool_decide_eq_false_2. }
  split.
  { rewrite ownerCredits_at_transfer. cbn zeta.
    by rewrite (bool_decide_eq_true_2 (to = to)). }
  split.
  { rewrite occurrences_transfer_same by done.
    by rewrite bool_decide_eq_true_2. }
  split.
  { intros Hne.
    assert (Hidx : ownerCredits_at (transferCredit_post id to s) from =
                   _removeFromArray (ownerCredits_at s from) id).
    { rewrite ownerCredits_at_transfer. cbn zeta. fold from.
      rewrite (bool_decide_eq_false_2 (from = to)) by done.
      by rewrite (bool_decide_eq_true_2 (from = from)). }
    split; [done|]. apply occurrences_zero.
    rewrite occurrences_transfer_same by done.
    by rewrite bool_decide_eq_false_2. }
  split; [intros a j Hj; by apply occurrences_transfer_other|].
  split.
  { intros a Hfrom Hto. rewrite ownerCredits_at_transfer. cbn zeta.
    fold from. by rewrite !bool_decide_eq_false_2. }
  done.
Qed.

Lemma C6_witness :
  let s := run txs_verified (constructor 1) in
  let s' := transferCredit_post 1 6 s in
  let from := Credit.owner (credit_at s 1) in
  credit_at s' 1 = Credit.set_owner 6 (credit_at s 1) /\
  Credit.owner (credit_at s' 1) = 6 /\
  Credit.amount (credit_at s' 1) = Credit.amount (credit_at s 1) /\
  Credit.producer (credit_at s' 1) = Credit.producer (credit_at s 1) /\
  (forall j, j <> 1 -> credit_at s' j = credit_at s j) /\
  ownerCredits_at s' 6 =
    (if bool_decide (6 = from)
     then _removeFromArray (ownerCredits_at s from) 1
     else ownerCredits_at s 6) ++ [1] /\
  occurrences 1 (ownerCredits_at s' 6) = 1%nat /\
  (from <> 6 ->
     ownerCredits_at s' from = _removeFromArray (ownerCredits_at s from) 1 /\
     1 ∉ ownerCredits_at s' from) /\
  (forall a j, j <> 1 ->
     occurrences j (ownerCredits_at s' a) =
     occurrences j (ownerCredits_at s a)) /\
  (forall a, a <> from -> a <> 6 ->
     ownerCredits_at s' a = ownerCredits_at s a) /\
  producerCredits s' = producerCredits s /\
  auditors s' = auditors s /\
  isAuditor s' = isAuditor s /\
  productionBatches s' = productionBatches s /\
  nextId s' = nextId s /\
  nextBatchId s' = nextBatchId s /\
  regulator s' = regulator s /\
  certifier s' = certifier s /\
  log s' = log s ++ [CreditTransferred 1 from 6].
Proof.
  apply (C6_transfer_frame (run txs_verified (constructor 1))
           (transferCredit_post 1 6 (run txs_verified (constructor 1)))
           (env_of 5 102) 1 6).
  - apply run_reachable, reachable_init.
  - by vm_compute.
Defined.

(** ** C7: total of a producer's live credits *)

Lemma total_loop_eq ids acc env s :
  acc <= MAX_UINT256 ->
  let sum := N_sum (map Credit.amount
                      (filter (fun c => is_live c = true)
                              (map (credit_at s) ids))) in
  total_loop ids acc env s =
  if bool_decide (acc + sum <= MAX_UINT256) then Ok (acc + sum, s)
  else Err ArithmeticPanic.
Proof.
  revert acc. induction ids as [|cid rest IH]; intros acc Hacc; cbn zeta.
  - cbn. unfold mret, M_ret. rewrite N.add_0_r.
    by rewrite bool_decide_eq_true_2.
  - cbn [total_loop map]. unfold_M. fold (is_live (credit_at s cid)).
    rewrite filter_cons.
    destruct (is_live (credit_at s cid)) eqn:Hlive.
    + rewrite decide_True by done. cbn [map N_sum foldr].
      fold (N_sum (map Credit.amount
                     (filter (fun c => is_live c = true)
                             (map (credit_at s) rest)))).
      set (sum := N_sum _).
      destruct (decide (acc + Credit.amount (credit_at s cid)
                        <= MAX_UINT256)) as [Hle|Hgt].
      * rewrite (bool_decide_eq_true_2 _ Hle). rewrite IH by done.
        fold sum. rewrite N.add_assoc. done.
      * rewrite (bool_decide_eq_false_2 _ Hgt).
        rewrite bool_decide_eq_false_2 by lia. done.
    + rewrite decide_False by done. by apply IH.
Qed.

Lemma live_of_producer_index s p l :
  (forall id, id ∈ l -> Credit.id (credit_at s id) <> 0) ->
  filter (fun c => is_live c = true)
    (map (credit_at s)
       (filter (fun id => Credit.producer (credit_at s id) = p) l)) =
  filter (fun c => counts_for p c = true) (map (credit_at s) l).
Proof.
  induction l as [|id l IH]; intros Hex; [done|].
  assert (Hid : Credit.id (credit_at s id) <> 0) by (apply Hex; left).
  specialize (IH (fun j Hj => Hex j (list_elem_of_further _ _ _ Hj))).
  assert (Hcount : counts_for p (credit_at s id) =
                   bool_decide (Credit.producer (credit_at s id) = p)
                   && is_live (credit_at s id)).
  { unfold counts_for, is_live. rewrite (bool_decide_eq_false_2 _ Hid).
    cbn [negb andb]. by rewrite andb_assoc. }
  cbn [map].
  destruct (decide (Credit.producer (credit_at s id) = p)) as [Hp|Hp].
  - rewrite (filter_cons_True (fun id => Credit.producer (credit_at s id) = p))
      by done.
    cbn [map]. rewrite (bool_decide_eq_true_2 _ Hp) in Hcount. cbn in Hcount.
    destruct (is_live (credit_at s id)) eqn:Hlive.
    + rewrite !filter_cons_True by (done || by rewrite Hcount).
      by rewrite IH.
    + rewrite !filter_cons_False by (by rewrite ?Hcount, ?Hlive). done.
  - rewrite (filter_cons_False (fun id => Credit.producer (credit_at s id) = p))
      by done.
    rewrite (bool_decide_eq_false_2 _ Hp) in Hcount. cbn in Hcount.
    rewrite filter_cons_False by (by rewrite Hcount). done.
Qed.

Lemma stored_credits_Permutation s :
  Inv s ->
  Permutation (map snd (map_to_list (credits s)))
              (map (credit_at s) (ids_upto (nextId s))).
Proof.
  intros HI.
  assert (HP : Permutation (map_to_list (credits s))
                 (map (fun id => (id, credit_at s id))
                      (ids_upto (nextId s)))).
  { apply NoDup_Permutation.
    - apply NoDup_map_to_list.
    - apply NoDup_fmap_2; [by intros x y [= ->]|apply NoDup_ids_upto].
    - intros [id c]. rewrite elem_of_map_to_list, list_elem_of_fmap. split.
      + intros Hc. exists id.
        destruct (Inv_lookup_exists _ _ _ HI Hc) as [Hex ->].
        split; [done|]. apply elem_of_ids_upto.
        by apply (Inv_exists_range s id HI).
      + intros (j & [= -> ->] & Hj%elem_of_ids_upto).
        apply (inv_dom s HI) in Hj as [c Hc].
        unfold credit_at. by rewrite (mapping_get_Some _ _ _ _ Hc). }
  rewrite HP. by rewrite map_map.
Qed.

Lemma producer_sum_stored s p :
  Inv s ->
  N_sum (map Credit.amount
           (filter (fun c => is_live c = true)
                   (map (credit_at s) (producerCredits_at s p)))) =
  stored_total s p.
Proof.
  intros HI. unfold stored_total.
  rewrite (inv_producer s HI), live_of_producer_index.
  - apply N_sum_Permutation, Permutation_map.
    by rewrite (stored_credits_Permutation s HI).
  - intros id Hid%elem_of_ids_upto.
    apply (Inv_exists_range s id HI) in Hid. unfold credit_exists in Hid.
    by destruct (decide (Credit.id (credit_at s id) = 0)) as [E|E];
      [rewrite (bool_decide_eq_true_2 _ E) in Hid|].
Qed.

(** C7 as the specification states it fails: after two credits of 2^255 kg
    for producer 5 the stored amounts add up to 2^256, and the checked
    addition in the loop makes the query revert instead of returning that
    sum. *)
Lemma C7_counterexample :
  reachable (run txs_huge (constructor 1)) /\
  stored_total (run txs_huge (constructor 1)) 5 = 2 ^ 256 /\
  getTotalCreditsByProducer 5 (env_of 6 200) (run txs_huge (constructor 1)) =
  Err ArithmeticPanic.
Proof.
  split; [apply run_reachable, reachable_init|]. by vm_compute.
Qed.

(** C7 (amended). In every reachable state and for every identity [p],
    getTotalCreditsByProducer(p) returns exactly the sum of [amount] over all
    stored credits that exist, have producer [p], are Active and are not
    retired, whenever that sum is at most 2^256 - 1; when the sum is larger
    the call reverts with the arithmetic panic.  The storage is never
    changed by the query. *)
Theorem C7_total_by_producer (s : State) (p : address) (env : Env)
    (Hs : reachable s) :
  getTotalCreditsByProducer p env s =
  if bool_decide (stored_total s p <= MAX_UINT256)
  then Ok (stored_total s p, s) else Err ArithmeticPanic.
Proof.
  pose proof (reachable_Inv s Hs) as HI.
  unfold getTotalCreditsByProducer. unfold mbind, M_bind, sload.
  rewrite total_loop_eq by (pose proof MAX_UINT256_pos; lia).
  cbn zeta. rewrite (producer_sum_stored s p HI). by rewrite N.add_0_l.
Qed.

Lemma C7_witness :
  getTotalCreditsByProducer 5 (env_of 6 200)
    (run txs_transferred (constructor 1)) =
  if bool_decide (stored_total (run txs_transferred (constructor 1)) 5
                  <= MAX_UINT256)
  then Ok (stored_total (run txs_transferred (constructor 1)) 5,
           run txs_transferred (constructor 1))
  else Err ArithmeticPanic.
Proof.
  apply (C7_total_by_producer (run txs_transferred (constructor 1)) 5
           (env_of 6 200)).
  apply run_reachable, reachable_init.
Defined.

(** ** C8: deactivated auditors *)

(** C8 as the specification states it fails: after auditor 7, who has
    verified one credit, is deactivated, the record is still in storage with
    its count of 1, but getAuditor(7) reverts with the not-found message, and
    registering 7 again succeeds and replaces the record by a fresh one with
    count 0. *)
Lemma C8_counterexample :
  Auditor.isActive (auditor_at (run txs_deactivated (constructor 1)) 7)
    = false /\
  Auditor.verificationCount
    (auditor_at (run txs_deactivated (constructor 1)) 7) = 1 /\
  getAuditor 7 (env_of 6 103) (run txs_deactivated (constructor 1))
    = Err AuditorNotFound /\
  registerAuditor 7 "Auditor Seven" "ISO 14064" (env_of 1 104)
    (run txs_deactivated (constructor 1))
    = Ok (tt, registerAuditor_post 7 "Auditor Seven" "ISO 14064"
                (run txs_deactivated (constructor 1))) /\
  Auditor.verificationCount
    (auditor_at (registerAuditor_post 7 "Auditor Seven" "ISO 14064"
                   (run txs_deactivated (constructor 1))) 7) = 0.
Proof. by vm_compute. Qed.

(** C8 (amended). After a successful deactivateAuditor(a) the record stays
    in the [auditors] mapping with active = false and its verificationCount
    intact, but the identity is no longer registered: getAuditor(a) fails
    with the not-found error, and a subsequent registerAuditor(a, ...) by the
    regulator succeeds (for a non-zero [a]) and overwrites the record with a
    fresh one whose verificationCount is 0. *)
Theorem C8_deactivated_auditor (s s' : State) (env : Env) (a : address)
    (Hcall : deactivateAuditor a env s = Ok (tt, s')) :
  auditor_at s' a = Auditor.set_isActive false (auditor_at s a) /\
  Auditor.isActive (auditor_at s' a) = false /\
  Auditor.verificationCount (auditor_at s' a) =
    Auditor.verificationCount (auditor_at s a) /\
  isAuditor_at s' a = false /\
  (forall env', getAuditor a env' s' = Err AuditorNotFound) /\
  (forall env' name accreditation,
     msg_sender env' = regulator s' -> a <> 0 ->
     registerAuditor a name accreditation env' s' =
       Ok (tt, registerAuditor_post a name accreditation s') /\
     auditor_at (registerAuditor_post a name accreditation s') a =
       Auditor.mk a name accreditation true 0 0).
Proof.
  rewrite deactivateAuditor_eq in Hcall. inv_guard Hcall.
  injection Hcall as <-.
  assert (Hat : auditor_at (deactivateAuditor_post a s) a =
                Auditor.set_isActive false (auditor_at s a)).
  { unfold auditor_at, deactivateAuditor_post. cbn.
    apply mapping_get_insert_eq. }
  assert (Hreg : isAuditor_at (deactivateAuditor_post a s) a = false).
  { unfold isAuditor_at, deactivateAuditor_post. cbn.
    apply mapping_get_insert_eq. }
  split; [done|]. rewrite Hat. split; [done|]. split; [done|].
  split; [done|]. split.
  - intros env'. by rewrite getAuditor_eq, Hreg.
  - intros env' name accreditation Hcaller Ha. split.
    + rewrite registerAuditor_eq. unfold is_regulator.
      rewrite (bool_decide_eq_true_2 _ Hcaller), Hreg.
      by rewrite (bool_decide_eq_false_2 _ Ha).
    + unfold auditor_at, registerAuditor_post. cbn.
      apply mapping_get_insert_eq.
Qed.

Lemma C8_witness :
  let s := run txs_verified (constructor 1) in
  let s' := deactivateAuditor_post 7 s in
  auditor_at s' 7 = Auditor.set_isActive false (auditor_at s 7) /\
  Auditor.isActive (auditor_at s' 7) = false /\
  Auditor.verificationCount (auditor_at s' 7) =
    Auditor.verificationCount (auditor_at s 7) /\
  isAuditor_at s' 7 = false /\
  (forall env', getAuditor 7 env' s' = Err AuditorNotFound) /\
  (forall env' name accreditation,
     msg_sender env' = regulator s' -> 7 <> 0 ->
     registerAuditor 7 name accreditation env' s' =
       Ok (tt, registerAuditor_post 7 name accreditation s') /\
     auditor_at (registerAuditor_post 7 name accreditation s') 7 =
       Auditor.mk 7 name accreditation true 0 0).
Proof.
  apply (C8_deactivated_auditor (run txs_verified (constructor 1))
           (deactivateAuditor_post 7 (run txs_verified (constructor 1)))
           (env_of 1 102) 7).
  by vm_compute.
Defined.

(** ** C9: duplicate entries of a production batch *)

Lemma listed_amounts_split s id l :
  N_sum (listed_amounts s l) =
  N.of_nat (occurrences id l) * Credit.amount (credit_at s id) +
  N_sum (listed_amounts s (filter (fun j => j <> id) l)).
Proof.
  unfold listed_amounts, occurrences, N_sum.
  induction l as [|x l IH]; [done|].
  cbn [map foldr count_occ]. rewrite filter_cons.
  destruct (N.eq_dec x id) as [->|Hne].
  - rewrite decide_False by (intros H; by apply H). rewrite IH. lia.
  - rewrite decide_True by done. cbn [map foldr]. rewrite IH. lia.
Qed.

(** C9 as the specification states it fails: credit 1 is verified, belongs
    to producer 5 and has amount 2^255; the active auditor 7 can batch it
    once, but the list that names it twice is rejected, because adding its
    amount a second time overflows. *)
Lemma C9_counterexample :
  is_active_auditor (run txs_huge (constructor 1)) 7 = true /\
  entry_ok (run txs_huge (constructor 1)) 5 1 /\
  createProductionBatch 5 [1; 1] (env_of 7 102) (run txs_huge (constructor 1))
    = Err ArithmeticPanic /\
  createProductionBatch 5 [1] (env_of 7 102) (run txs_huge (constructor 1))
    = Ok (tt, createProductionBatch_post 5 [1] (2 ^ 255)
                (run txs_huge (constructor 1))).
Proof. by vm_compute. Qed.

(** C9 (amended). createProductionBatch never looks for duplicates in
    creditIds.  When an active auditor calls it with a non-zero producer and
    a non-empty list whose entries all name a Verified credit of that
    producer (repeated or not), and the batch counter is not exhausted, the
    outcome depends only on the sum of the listed amounts, each position
    counted: if that sum is at most 2^256 - 1 the call succeeds and the
    batch stores it as totalAmount, together with the list as given;
    otherwise the call reverts with the arithmetic panic.  In that sum a
    credit listed k times contributes k times its amount. *)
Theorem C9_duplicates_counted (s : State) (env : Env) (producer : address)
    (creditIds : list uint256)
    (Hauditor : is_active_auditor s (msg_sender env) = true)
    (Hproducer : producer <> 0)
    (Hnonempty : creditIds <> [])
    (Hentries : Forall (entry_ok s producer) creditIds)
    (Hcounter : nextBatchId s < MAX_UINT256) :
  let total := N_sum (listed_amounts s creditIds) in
  let s' := createProductionBatch_post producer creditIds total s in
  createProductionBatch producer creditIds env s =
    (if bool_decide (total <= MAX_UINT256) then Ok (tt, s')
     else Err ArithmeticPanic) /\
  batch_at s' (nextBatchId s) =
    ProductionBatch.mk (nextBatchId s) producer total 1 false creditIds /\
  forall id,
    total = N.of_nat (occurrences id creditIds)
            * Credit.amount (credit_at s id)
            + N_sum (listed_amounts s
                       (filter (fun j => j <> id) creditIds)).
Proof.
  intros total s'. split; [|split].
  - rewrite createProductionBatch_eq, Hauditor. cbn [negb].
    rewrite (bool_decide_eq_false_2 _ Hproducer).
    rewrite bool_decide_eq_true_2
      by (destruct creditIds; [done|cbn; lia]).
    cbn [negb]. destruct (decide (total <= MAX_UINT256)) as [Hle|Hgt].
    + rewrite (bool_decide_eq_true_2 _ Hle).
      rewrite sum_batch_ok by (done || by rewrite N.add_0_l).
      rewrite bool_decide_eq_true_2 by lia. cbn [negb].
      by rewrite N.add_0_l.
    + rewrite (bool_decide_eq_false_2 _ Hgt).
      rewrite sum_batch_overflow; [done|done| |].
      * rewrite N.add_0_l. fold total. lia.
      * pose proof MAX_UINT256_pos. lia.
  - unfold s', batch_at, createProductionBatch_post. cbn.
    apply mapping_get_insert_eq.
  - intros id. apply listed_amounts_split.
Qed.

Lemma C9_witness :
  let s := run txs_verified (constructor 1) in
  let total := N_sum (listed_amounts s [1; 1; 1]) in
  let s' := createProductionBatch_post 5 [1; 1; 1] total s in
  createProductionBatch 5 [1; 1; 1] (env_of 7 102) s =
    (if bool_decide (total <= MAX_UINT256) then Ok (tt, s')
     else Err ArithmeticPanic) /\
  batch_at s' (nextBatchId s) =
    ProductionBatch.mk (nextBatchId s) 5 total 1 false [1; 1; 1] /\
  forall id,
    total = N.of_nat (occurrences id [1; 1; 1])
            * Credit.amount (credit_at s id)
            + N_sum (listed_amounts s (filter (fun j => j <> id) [1; 1; 1])).
Proof.
  apply (C9_duplicates_counted (run txs_verified (constructor 1))
           (env_of 7 102) 5 [1; 1; 1]).
  - by vm_compute.
  - done.
  - done.
  - repeat constructor; by vm_compute.
  - by vm_compute.
Defined.

(** ** C10: multiplicity of the owner index *)

(** C10. In every reachable state, every existing credit's id occurs exactly
    once in the owned-index of the credit's current owner and in no other
    identity's owned-index; and the property still holds after any
    successful call made from such a state, in particular after issueCredit,
    transferCredit (also to the current owner), retireCredit and
    suspendCredit. *)
Theorem C10_owner_index_multiplicity (s : State) (Hs : reachable s) :
  owner_index_exact s /\
  forall env c s', execute c env s = Ok (tt, s') -> owner_index_exact s'.
Proof.
  assert (Hgen : forall st, Inv st -> owner_index_exact st).
  { intros st HI id Hex a. rewrite (inv_owner st HI), Hex. cbn.
    decide_goal; congruence. }
  split.
  - by apply Hgen, reachable_Inv.
  - intros env c s' Hstep. eapply Hgen, Inv_step; [|exact Hstep].
    by apply reachable_Inv.
Qed.

Lemma C10_witness :
  owner_index_exact (run txs_transferred (constructor 1)) /\
  forall env c s',
    execute c env (run txs_transferred (constructor 1)) = Ok (tt, s') ->
    owner_index_exact s'.
Proof.
  apply (C10_owner_index_multiplicity (run txs_transferred (constructor 1))).
  apply run_reachable, reachable_init.
Defined.

(** * Further properties of the contract *)

(** ** Calls as guarded updates *)

Lemma sum_batch_Ok_inv producer ids acc env s t s' :
  sum_batch producer ids acc env s = Ok (t, s') ->
  Forall (entry_ok s producer) ids /\
  t = acc + N_sum (listed_amounts s ids) /\
  (ids <> [] -> t <= MAX_UINT256).
Proof.
  revert acc. induction ids as [|cid rest IH]; intros acc; cbn.
  - unfold mret, M_ret. intros [= <- _]. split; [constructor|].
    split; [by rewrite N.add_0_r|done].
  - unfold_M.
    destruct (bool_decide (Credit.producer (credit_at s cid) = producer))
      eqn:Hp; [|done].
    destruct (bool_decide
                (Credit.verificationStatus (credit_at s cid) = Verified))
      eqn:Hv; [|done].
    destruct (bool_decide (acc + Credit.amount (credit_at s cid)
                           <= MAX_UINT256)) eqn:Hle; [|done].
    apply bool_decide_eq_true_1 in Hp, Hv, Hle.
    intros (Hall & -> & Hmax)%IH. split; [by constructor|].
    unfold listed_amounts, N_sum in *. cbn.
    split; [lia|]. intros _. destruct rest as [|x rest]; [cbn; lia|].
    by apply Hmax.
Qed.

Lemma execute_Ok_iff c env s s' :
  execute c env s = Ok (tt, s') <->
  call_guard c env s /\ s' = call_post c env s.
Proof.
  destruct c; cbn [execute call_guard call_post].
  - rewrite setCertifier_eq. split.
    + intros H. inv_guard H. by injection H as <-.
    + intros [[-> Ha] ->]. cbn. by rewrite bool_decide_eq_false_2.
  - rewrite registerAuditor_eq. split.
    + intros H. inv_guard H. by injection H as <-.
    + intros [(-> & Ha & ->) ->]. cbn. by rewrite bool_decide_eq_false_2.
  - rewrite deactivateAuditor_eq. split.
    + intros H. inv_guard H. by injection H as <-.
    + by intros [(-> & ->) ->].
  - rewrite suspendCredit_eq. split.
    + intros H. inv_guard H. by injection H as <-.
    + by intros [(-> & ->) ->].
  - rewrite issueCredit_eq. split.
    + intros H. inv_guard H. injection H as <-.
      repeat split; try done. lia.
    + intros [(-> & ? & ? & ? & ? & ? & ?) ->]. cbn.
      rewrite !(bool_decide_eq_false_2 (_ = 0)) by done.
      rewrite !bool_decide_eq_true_2 by (done || lia). done.
  - rewrite verifyCredit_eq. split.
    + intros H. inv_guard H. injection H as <-.
      repeat split; try done. lia.
    + intros [(-> & -> & -> & ? & ?) ->]. cbn.
      rewrite !bool_decide_eq_true_2 by (done || lia). done.
  - rewrite createProductionBatch_eq. split.
    + intros H. inv_guard H.
      destruct (sum_batch producer creditIds 0 env s) as [[t s1]|e] eqn:Hsum;
        [|done].
      inv_guard H. injection H as <-.
      assert (Hne : creditIds <> []) by (destruct creditIds; cbn in *; [lia|done]).
      apply sum_batch_Ok_inv in Hsum as (Hall & -> & Hmax).
      rewrite N.add_0_l in *. repeat split; try done; [by apply Hmax|lia].
    + intros [(-> & ? & Hne & Hall & Hle & ?) ->]. cbn.
      rewrite bool_decide_eq_false_2 by done.
      rewrite bool_decide_eq_true_2
        by (destruct creditIds; [done|cbn; lia]). cbn.
      rewrite sum_batch_ok by (done || lia). rewrite N.add_0_l.
      rewrite bool_decide_eq_true_2 by lia. done.
  - rewrite verifyProductionBatch_eq. split.
    + intros H. inv_guard H. injection H as <-.
      repeat split; try done. lia.
    + intros [(-> & -> & -> & ?) ->]. cbn.
      rewrite bool_decide_eq_true_2 by lia. done.
  - rewrite transferCredit_eq. split.
    + intros H. inv_guard H. by injection H as <-.
    + intros [(-> & ? & -> & ? & ? & ?) ->]. cbn.
      rewrite (bool_decide_eq_false_2 (to = 0)) by done.
      rewrite !bool_decide_eq_true_2 by done. done.
  - rewrite retireCredit_eq. split.
    + intros H. inv_guard H. by injection H as <-.
    + intros [(-> & ? & -> & ? & ?) ->]. cbn.
      rewrite !bool_decide_eq_true_2 by done. done.
Qed.

Lemma credit_at_call_post c env s j :
  credit_at (call_post c env s) j =
  match call_credit c env s with
  | Some (id, c') => if bool_decide (j = id) then c' else credit_at s j
  | None => credit_at s j
  end.
Proof.
  destruct c; cbn [call_post call_credit]; try reflexivity.
  all: try (by apply credit_at_update).
  unfold verifyProductionBatch_post. by destruct (bool_decide _).
Qed.

Lemma log_call_post c env s :
  log (call_post c env s) = log s ++ call_events c env s.
Proof.
  destruct c; cbn [call_post call_events]; try reflexivity.
  - cbn. by rewrite app_nil_r.
  - unfold verifyProductionBatch_post.
    destruct (bool_decide _); cbn; [done|by rewrite app_nil_r].
Qed.

(** ** Induction along transactions *)

Lemma run_cons env c txs s :
  run ((env, c) :: txs) s = run txs (transact env c s).
Proof. reflexivity. Qed.

Lemma run_app txs1 txs2 s : run (txs1 ++ txs2) s = run txs2 (run txs1 s).
Proof. unfold run. apply fold_left_app. Qed.

Lemma run_from_constructor deployer txs :
  reachable (run txs (constructor deployer)).
Proof. apply run_reachable, reachable_init. Qed.

(** A relation between an earlier and a later state that is reflexive,
    transitive and established by every successful call holds along every
    sequence of transactions. *)
Lemma run_rel (R : State -> State -> Prop) :
  (forall s, R s s) ->
  (forall s1 s2 s3, R s1 s2 -> R s2 s3 -> R s1 s3) ->
  (forall s env c,
     reachable s -> call_guard c env s -> R s (call_post c env s)) ->
  forall txs s, reachable s -> R s (run txs s).
Proof.
  intros Hrefl Htrans Hstep txs.
  induction txs as [|[env c] txs IH]; intros s Hs; [apply Hrefl|].
  rewrite run_cons. unfold transact.
  destruct (execute c env s) as [[[] s']|e] eqn:Hexec; [|by apply IH].
  pose proof Hexec as [Hg ->]%execute_Ok_iff.
  apply (Htrans _ (call_post c env s)); [by apply Hstep|].
  apply IH. by eapply reachable_step.
Qed.

(** A property of states that holds after the constructor and is kept by
    every successful call holds in every reachable state. *)
Lemma reachable_ind_post (P : State -> Prop) :
  (forall deployer, P (constructor deployer)) ->
  (forall s env c,
     reachable s -> P s -> call_guard c env s -> P (call_post c env s)) ->
  forall s, reachable s -> P s.
Proof.
  intros Hinit Hstep s. induction 1 as [deployer|s s' env c Hs IH Hexec].
  - apply Hinit.
  - apply execute_Ok_iff in Hexec as [Hg ->]. by apply Hstep.
Qed.

Lemma credit_exists_zero s id :
  credit_at s id = Credit.zero -> credit_exists s id = false.
Proof. unfold credit_exists. by intros ->. Qed.

Lemma credit_exists_fresh s : Inv s -> credit_exists s (nextId s) = false.
Proof.
  intros HI. destruct (credit_exists s (nextId s)) eqn:Hex; [|done].
  apply (Inv_exists_range s _ HI) in Hex. lia.
Qed.

(** Case analysis on whether [j] is the identifier a call names. *)
Ltac case_id j :=
  match goal with
  | |- context [bool_decide (j = ?x)] =>
      destruct (decide (j = x)) as [->|?];
      [rewrite (bool_decide_eq_true_2 (x = x)) by reflexivity
      |rewrite (bool_decide_eq_false_2 (j = x)) by assumption]
  end.

(** ** Credits stay well formed *)

Lemma reachable_well_formed s id :
  reachable s -> credit_exists s id = true ->
  credit_well_formed (credit_at s id).
Proof.
  intros Hs. revert id. induction Hs as [deployer|s env c Hs IH Hg]
    using reachable_ind_post.
  - intros id. unfold credit_exists, credit_at. cbn.
    by rewrite mapping_get_empty.
  - intros j. unfold credit_exists. rewrite credit_at_call_post.
    pose proof (credit_exists_fresh s (reachable_Inv s Hs)) as Hfresh.
    destruct c; cbn [call_credit call_guard] in *; try apply IH.
    all: case_id j; [|apply IH].
    all: intros Hex; unfold credit_well_formed in *; cbn.
    + apply IH. tauto.
    + destruct Hg as (_ & _ & _ & ? & ? & ? & _). done.
    + destruct Hg as (_ & Hex' & Hr & _).
      destruct (IH _ Hex') as (? & ? & ? & ? & ?). rewrite Hr in *. done.
    + apply IH. tauto.
    + destruct Hg as (Hex' & _ & _ & _ & Hv).
      destruct (IH _ Hex') as (? & ? & ? & _). done.
Qed.

(** ** What may still change in a credit *)

Lemma nonzero_exists s id :
  Inv s -> credit_at s id <> Credit.zero -> credit_exists s id = true.
Proof.
  intros HI Hnz. destruct (credits s !! id) as [c|] eqn:Hc.
  - by destruct (Inv_lookup_exists s id c HI Hc).
  - exfalso. apply Hnz. unfold credit_at. by apply mapping_get_None.
Qed.

Lemma credit_exists_call_post s env c id :
  reachable s -> call_guard c env s -> credit_exists s id = true ->
  credit_exists (call_post c env s) id = true.
Proof.
  intros Hs Hg Hex.
  apply (step_credit_exists s _ env c id (reachable_Inv s Hs)); [|done].
  by apply execute_Ok_iff.
Qed.

Lemma run_credit_exists txs s id :
  reachable s -> credit_exists s id = true ->
  credit_exists (run txs s) id = true.
Proof.
  intros Hs. revert txs s Hs.
  apply (run_rel (fun s s' => credit_exists s id = true ->
                              credit_exists s' id = true)); [tauto|tauto|].
  intros s env c Hs Hg. by apply credit_exists_call_post.
Qed.

Lemma run_issue_data txs s id :
  reachable s -> credit_exists s id = true ->
  issue_data (credit_at (run txs s) id) = issue_data (credit_at s id).
Proof.
  intros Hs. revert txs s Hs.
  apply (run_rel (fun s s' =>
    credit_exists s id = true ->
    credit_exists s' id = true /\
    issue_data (credit_at s' id) = issue_data (credit_at s id))).
  - done.
  - intros s1 s2 s3 H12 H23 Hex. destruct (H12 Hex) as [Hex2 E12].
    destruct (H23 Hex2) as [Hex3 E23]. split; [done|congruence].
  - intros s env c Hs Hg Hex. split; [by apply credit_exists_call_post|].
    rewrite credit_at_call_post.
    pose proof (credit_exists_fresh s (reachable_Inv s Hs)) as Hfresh.
    destruct c; cbn [call_credit]; try done.
    all: case_id id; [|done]; try done.
    congruence.
Qed.

(** The record of a credit that is retired or was rejected: every later
    record is the same one, or the same one with the status Suspended. *)
Lemma run_settled txs s id :
  reachable s ->
  Credit.isRetired (credit_at s id) = true \/
  Credit.verificationStatus (credit_at s id) = Rejected ->
  credit_at (run txs s) id = credit_at s id \/
  credit_at (run txs s) id = Credit.set_status Suspended (credit_at s id).
Proof.
  intros Hs. revert txs s Hs.
  apply (run_rel (fun s s' =>
    Credit.isRetired (credit_at s id) = true \/
    Credit.verificationStatus (credit_at s id) = Rejected ->
    credit_at s' id = credit_at s id \/
    credit_at s' id = Credit.set_status Suspended (credit_at s id))).
  - by left.
  - intros s1 s2 s3 H12 H23 Hpre.
    destruct (H12 Hpre) as [E12|E12]; rewrite E12 in H23.
    + by apply H23.
    + destruct H23 as [-> | ->]; [done|by right|by right].
  - intros s env c Hs Hg Hpre. rewrite credit_at_call_post.
    pose proof (reachable_Inv s Hs) as HI.
    pose proof (credit_exists_fresh s HI) as Hfresh.
    destruct c; cbn [call_credit call_guard] in *; try by left.
    all: case_id id; [|by left].
    + by right.
    + exfalso. unfold credit_exists in Hfresh.
      destruct (credits s !! nextId s) as [c0|] eqn:Hc0.
      * destruct (Inv_lookup_exists s _ c0 HI Hc0) as [Hex _].
        unfold credit_exists in Hex. congruence.
      * unfold credit_at in Hpre. rewrite (mapping_get_None _ _ _ Hc0) in Hpre.
        by destruct Hpre.
    + exfalso. destruct Hg as (_ & _ & Hr & Hv & _). destruct Hpre; congruence.
    + exfalso. destruct Hg as (_ & _ & Hr & _ & _ & Hv).
      destruct Hpre; congruence.
    + exfalso. destruct Hg as (_ & _ & Hr & _ & Hv). destruct Hpre; congruence.
Qed.

(** The record of a suspended credit: every later record is the same one,
    except that a pending verification may still have been decided. *)
Lemma run_suspended txs s id :
  reachable s -> Credit.status (credit_at s id) = Suspended ->
  credit_at (run txs s) id = credit_at s id \/
  Credit.verificationStatus (credit_at s id) = Pending /\
  exists st,
    credit_at (run txs s) id =
    Credit.set_verificationStatus st (credit_at s id).
Proof.
  intros Hs. revert txs s Hs.
  apply (run_rel (fun s s' =>
    Credit.status (credit_at s id) = Suspended ->
    credit_at s' id = credit_at s id \/
    Credit.verificationStatus (credit_at s id) = Pending /\
    exists st,
      credit_at s' id = Credit.set_verificationStatus st (credit_at s id))).
  - by left.
  - intros s1 s2 s3 H12 H23 Hpre.
    destruct (H12 Hpre) as [E12|(Hp & st & E12)]; rewrite E12 in H23.
    + by apply H23.
    + destruct H23 as [->|(_ & st' & ->)]; [done|..].
      * right. split; [done|]. by exists st.
      * right. split; [done|]. by exists st'.
  - intros s env c Hs Hg Hpre. rewrite credit_at_call_post.
    pose proof (reachable_Inv s Hs) as HI.
    pose proof (credit_exists_fresh s HI) as Hfresh.
    destruct c; cbn [call_credit call_guard] in *; try by left.
    all: case_id id.
    all: try by left.
    + left. destruct (credit_at s id0); cbn in *. by subst.
    + exfalso. unfold credit_exists in Hfresh.
      destruct (credits s !! nextId s) as [c0|] eqn:Hc0.
      * destruct (Inv_lookup_exists s _ c0 HI Hc0) as [Hex _].
        unfold credit_exists in Hex. congruence.
      * unfold credit_at in Hpre. rewrite (mapping_get_None _ _ _ Hc0) in Hpre.
        done.
    + right. destruct Hg as (_ & _ & _ & Hv & _). split; [done|].
      by exists status.
    + exfalso. destruct Hg as (_ & _ & _ & _ & Ha & _). congruence.
    + exfalso. destruct Hg as (_ & _ & _ & Ha & _). congruence.
Qed.

Lemma execute_fails c env s :
  ~ call_guard c env s -> exists e, execute c env s = Err e.
Proof.
  intros Hng. destruct (execute c env s) as [[[] s']|e] eqn:Hexec; [|eauto].
  exfalso. apply Hng. by apply execute_Ok_iff in Hexec as [? _].
Qed.

(** ** Credit records over time *)

(** X1: the data written at issuance never changes.  For an existing credit
    of a reachable state and any sequence of transactions run from there,
    the credit still exists and its id, producer, producerName, amount,
    productionDate, renewableSource, location, carbonIntensity, certifier,
    certificationDate and metadata are what they were. *)
Theorem issue_data_immutable (s : State) (id : uint256)
    (txs : list (Env * Call)) (Hs : reachable s)
    (Hex : credit_exists s id = true) :
  credit_exists (run txs s) id = true /\
  issue_data (credit_at (run txs s) id) = issue_data (credit_at s id).
Proof. split; [by apply run_credit_exists|by apply run_issue_data]. Qed.

Lemma issue_data_immutable_witness :
  let s := run txs_verified (constructor 1) in
  let txs := [ (env_of 5 102, TransferCredit 1 6);
               (env_of 1 103, SuspendCredit 1 "under review") ] in
  credit_exists (run txs s) 1 = true /\
  issue_data (credit_at (run txs s) 1) = issue_data (credit_at s 1).
Proof.
  apply (issue_data_immutable (run txs_verified (constructor 1)) 1).
  - apply run_from_constructor.
  - reflexivity.
Defined.

(** X2: every existing credit of a reachable state satisfies what
    [issueCredit] and [retireCredit] required: its amount is positive, its
    carbon intensity is at most MAX_CARBON_INTENSITY, its production date is
    not after its certification date, its owner and producer are not the
    zero address; it is retired only if Verified, and while it is not
    retired its retirementDate is 0 and its retirementReason is empty. *)
Theorem stored_credits_well_formed (s : State) (id : uint256)
    (Hs : reachable s) (Hex : credit_exists s id = true) :
  credit_well_formed (credit_at s id) /\
  Credit.owner (credit_at s id) <> 0 /\
  Credit.producer (credit_at s id) <> 0.
Proof.
  split; [by apply reachable_well_formed|].
  destruct (credit_exists_lookup s id Hex) as (c & Hc & ->).
  by destruct (inv_credit s (reachable_Inv s Hs) id c Hc) as (_ & ? & ? & _).
Qed.

Lemma stored_credits_well_formed_witness :
  credit_well_formed (credit_at (run txs_retired (constructor 1)) 1) /\
  Credit.owner (credit_at (run txs_retired (constructor 1)) 1) <> 0 /\
  Credit.producer (credit_at (run txs_retired (constructor 1)) 1) <> 0.
Proof.
  apply (stored_credits_well_formed (run txs_retired (constructor 1)) 1).
  - apply run_from_constructor.
  - reflexivity.
Defined.

(** X3: retirement is permanent.  Once the isRetired flag of a credit is
    set in a reachable state, every later record of the credit is the same
    record, or the same record with the status Suspended: the flag, the
    owner, the retirement date and reason stay, the credit stays Verified,
    and every later [transferCredit], [retireCredit] and [verifyCredit] of
    it reverts, with the reason shown. *)
Theorem retirement_is_permanent (s : State) (id : uint256)
    (txs : list (Env * Call)) (Hs : reachable s)
    (Hret : Credit.isRetired (credit_at s id) = true) :
  let c := credit_at s id in
  let s' := run txs s in
  (credit_at s' id = c \/ credit_at s' id = Credit.set_status Suspended c) /\
  Credit.isRetired (credit_at s' id) = true /\
  Credit.owner (credit_at s' id) = Credit.owner c /\
  Credit.retirementDate (credit_at s' id) = Credit.retirementDate c /\
  Credit.retirementReason (credit_at s' id) = Credit.retirementReason c /\
  Credit.verificationStatus (credit_at s' id) = Verified /\
  (forall env to,
     transferCredit id to env s' =
     Err (if bool_decide (msg_sender env = Credit.owner c)
          then CreditHasBeenRetired else NotCreditOwner)) /\
  (forall env reason,
     retireCredit id reason env s' =
     Err (if bool_decide (msg_sender env = Credit.owner c)
          then CreditHasBeenRetired else NotCreditOwner)) /\
  (forall env decision notes,
     verifyCredit id decision notes env s' =
     Err (if is_active_auditor s' (msg_sender env)
          then CreditHasBeenRetired else OnlyActiveAuditor)).
Proof.
  intros c s'. subst c s'.
  pose proof (reachable_Inv s Hs) as HI.
  assert (Hex : credit_exists s id = true).
  { apply nonzero_exists; [done|]. intros Hz. by rewrite Hz in Hret. }
  pose proof (run_credit_exists txs s id Hs Hex) as Hex'.
  destruct (reachable_well_formed s id Hs Hex) as (_ & _ & _ & Hv & _).
  specialize (Hv Hret).
  assert (Hsame : Credit.isRetired (credit_at (run txs s) id) = true /\
                  Credit.owner (credit_at (run txs s) id) =
                    Credit.owner (credit_at s id)).
  { destruct (run_settled txs s id Hs (or_introl Hret)) as [->| ->]; done. }
  destruct Hsame as [Hret' Hown'].
  split; [by apply run_settled; [|left]|].
  split; [done|]. split; [done|].
  split; [by destruct (run_settled txs s id Hs (or_introl Hret))
            as [->| ->]|].
  split; [by destruct (run_settled txs s id Hs (or_introl Hret))
            as [->| ->]|].
  split; [by destruct (run_settled txs s id Hs (or_introl Hret))
            as [->| ->]|].
  split; [|split].
  - intros env to. rewrite transferCredit_eq, Hex', Hown', Hret'. cbn.
    by destruct (bool_decide _).
  - intros env reason. rewrite retireCredit_eq, Hex', Hown', Hret'. cbn.
    by destruct (bool_decide _).
  - intros env decision notes. rewrite verifyCredit_eq, Hex', Hret'. cbn.
    by destruct (is_active_auditor _ _).
Qed.

Lemma retirement_is_permanent_witness :
  let s := run txs_retired (constructor 1) in
  let txs := [ (env_of 1 103, SuspendCredit 1 "under review");
               (env_of 5 104, TransferCredit 1 6) ] in
  let c := credit_at s 1 in
  let s' := run txs s in
  (credit_at s' 1 = c \/ credit_at s' 1 = Credit.set_status Suspended c) /\
  Credit.isRetired (credit_at s' 1) = true /\
  Credit.owner (credit_at s' 1) = Credit.owner c /\
  Credit.retirementDate (credit_at s' 1) = Credit.retirementDate c /\
  Credit.retirementReason (credit_at s' 1) = Credit.retirementReason c /\
  Credit.verificationStatus (credit_at s' 1) = Verified /\
  (forall env to,
     transferCredit 1 to env s' =
     Err (if bool_decide (msg_sender env = Credit.owner c)
          then CreditHasBeenRetired else NotCreditOwner)) /\
  (forall env reason,
     retireCredit 1 reason env s' =
     Err (if bool_decide (msg_sender env = Credit.owner c)
          then CreditHasBeenRetired else NotCreditOwner)) /\
  (forall env decision notes,
     verifyCredit 1 decision notes env s' =
     Err (if is_active_auditor s' (msg_sender env)
          then CreditHasBeenRetired else OnlyActiveAuditor)).
Proof.
  apply (retirement_is_permanent (run txs_retired (constructor 1)) 1).
  - apply run_from_constructor.
  - reflexivity.
Defined.

(** X4: a rejected credit is a dead end.  Once a credit is Rejected in a
    reachable state, every later record of it is the same record, or the
    same record with the status Suspended: its owner never changes, it is
    never retired, and every later [transferCredit] and [retireCredit] of
    it, and every [createProductionBatch] that lists it, reverts. *)
Theorem rejection_is_final (s : State) (id : uint256)
    (txs : list (Env * Call)) (Hs : reachable s)
    (Hrej : Credit.verificationStatus (credit_at s id) = Rejected) :
  let c := credit_at s id in
  let s' := run txs s in
  (credit_at s' id = c \/ credit_at s' id = Credit.set_status Suspended c) /\
  Credit.owner (credit_at s' id) = Credit.owner c /\
  Credit.isRetired (credit_at s' id) = false /\
  (forall env to, exists e, transferCredit id to env s' = Err e) /\
  (forall env reason, exists e, retireCredit id reason env s' = Err e) /\
  (forall env producer creditIds,
     id ∈ creditIds ->
     exists e, createProductionBatch producer creditIds env s' = Err e).
Proof.
  intros c s'. subst c s'.
  pose proof (reachable_Inv s Hs) as HI.
  assert (Hex : credit_exists s id = true).
  { apply nonzero_exists; [done|]. intros Hz. by rewrite Hz in Hrej. }
  destruct (reachable_well_formed s id Hs Hex) as (_ & _ & _ & Hv & _).
  assert (Hnr : Credit.isRetired (credit_at s id) = false).
  { destruct (Credit.isRetired (credit_at s id)); [|done].
    specialize (Hv eq_refl). congruence. }
  pose proof (run_settled txs s id Hs (or_intror Hrej)) as Hcases.
  assert (Hrej' : Credit.verificationStatus (credit_at (run txs s) id)
                  = Rejected) by (by destruct Hcases as [-> | ->]).
  split; [done|].
  split; [by destruct Hcases as [-> | ->]|].
  split; [by destruct Hcases as [-> | ->]|].
  split; [|split].
  - intros env to. apply (execute_fails (TransferCredit id to)).
    cbn. intros (_ & _ & _ & _ & _ & Hver). congruence.
  - intros env reason. apply (execute_fails (RetireCredit id reason)).
    cbn. intros (_ & _ & _ & _ & Hver). congruence.
  - intros env producer creditIds Hin.
    apply (execute_fails (CreateProductionBatch producer creditIds)).
    cbn. intros (_ & _ & _ & Hall & _).
    rewrite Forall_forall in Hall. destruct (Hall _ Hin) as [_ Hver].
    congruence.
Qed.

Lemma rejection_is_final_witness :
  let s := run txs_rejected (constructor 1) in
  let txs := [ (env_of 1 103, SuspendCredit 1 "under review") ] in
  let c := credit_at s 1 in
  let s' := run txs s in
  (credit_at s' 1 = c \/ credit_at s' 1 = Credit.set_status Suspended c) /\
  Credit.owner (credit_at s' 1) = Credit.owner c /\
  Credit.isRetired (credit_at s' 1) = false /\
  (forall env to, exists e, transferCredit 1 to env s' = Err e) /\
  (forall env reason, exists e, retireCredit 1 reason env s' = Err e) /\
  (forall env producer creditIds,
     1 ∈ creditIds ->
     exists e, createProductionBatch producer creditIds env s' = Err e).
Proof.
  apply (rejection_is_final (run txs_rejected (constructor 1)) 1).
  - apply run_from_constructor.
  - reflexivity.
Defined.

(** X5: suspension is terminal.  Once a credit is Suspended in a reachable
    state it stays Suspended whatever transactions follow; its owner and its
    isRetired flag stay as they are, the whole record stays as it is unless
    its verification was still Pending, and every later [transferCredit]
    and [retireCredit] of it reverts.  No function sets a status back to
    Active. *)
Theorem suspension_is_terminal (s : State) (id : uint256)
    (txs : list (Env * Call)) (Hs : reachable s)
    (Hsus : Credit.status (credit_at s id) = Suspended) :
  let c := credit_at s id in
  let s' := run txs s in
  Credit.status (credit_at s' id) = Suspended /\
  Credit.owner (credit_at s' id) = Credit.owner c /\
  Credit.isRetired (credit_at s' id) = Credit.isRetired c /\
  (Credit.verificationStatus c <> Pending -> credit_at s' id = c) /\
  (forall env to, exists e, transferCredit id to env s' = Err e) /\
  (forall env reason, exists e, retireCredit id reason env s' = Err e).
Proof.
  intros c s'. subst c s'.
  pose proof (run_suspended txs s id Hs Hsus) as Hcases.
  assert (Hsus' : Credit.status (credit_at (run txs s) id) = Suspended).
  { by destruct Hcases as [->|(_ & st & ->)]. }
  split; [done|].
  split; [by destruct Hcases as [->|(_ & st & ->)]|].
  split; [by destruct Hcases as [->|(_ & st & ->)]|].
  split; [by destruct Hcases as [->|(? & _)]|].
  split.
  - intros env to. apply (execute_fails (TransferCredit id to)).
    cbn. intros (_ & _ & _ & _ & Hact & _). congruence.
  - intros env reason. apply (execute_fails (RetireCredit id reason)).
    cbn. intros (_ & _ & _ & Hact & _). congruence.
Qed.

Lemma suspension_is_terminal_witness :
  let s := run txs_suspended (constructor 1) in
  let txs := [ (env_of 5 103, RetireCredit 1 "offset");
               (env_of 5 104, TransferCredit 1 6) ] in
  let c := credit_at s 1 in
  let s' := run txs s in
  Credit.status (credit_at s' 1) = Suspended /\
  Credit.owner (credit_at s' 1) = Credit.owner c /\
  Credit.isRetired (credit_at s' 1) = Credit.isRetired c /\
  (Credit.verificationStatus c <> Pending -> credit_at s' 1 = c) /\
  (forall env to, exists e, transferCredit 1 to env s' = Err e) /\
  (forall env reason, exists e, retireCredit 1 reason env s' = Err e).
Proof.
  apply (suspension_is_terminal (run txs_suspended (constructor 1)) 1).
  - apply run_from_constructor.
  - reflexivity.
Defined.

(** ** The storage as a function of the event log *)

Lemma mapping_get_insert {V} (z v : V) (m : gmap N V) k j :
  mapping_get z (<[k := v]> m) j =
  if bool_decide (j = k) then v else mapping_get z m j.
Proof.
  case_bool_decide as Hj.
  - subst j. apply mapping_get_insert_eq.
  - apply mapping_get_insert_ne. congruence.
Qed.

Lemma auditor_at_call_post c env s a :
  auditor_at (call_post c env s) a =
  match call_auditor c env s with
  | Some (a', r) => if bool_decide (a = a') then r else auditor_at s a
  | None => auditor_at s a
  end.
Proof.
  destruct c; cbn [call_post call_auditor]; try reflexivity.
  - unfold auditor_at. cbn. apply mapping_get_insert.
  - unfold auditor_at. cbn. apply mapping_get_insert.
  - unfold auditor_at. cbn. apply mapping_get_insert.
  - unfold verifyProductionBatch_post. by destruct (bool_decide _).
Qed.

Lemma isAuditor_at_call_post c env s a :
  isAuditor_at (call_post c env s) a =
  match call_isAuditor c with
  | Some (a', r) => if bool_decide (a = a') then r else isAuditor_at s a
  | None => isAuditor_at s a
  end.
Proof.
  destruct c; cbn [call_post call_isAuditor]; try reflexivity.
  - unfold isAuditor_at. cbn. apply mapping_get_insert.
  - unfold isAuditor_at. cbn. apply mapping_get_insert.
  - unfold verifyProductionBatch_post. by destruct (bool_decide _).
Qed.

Lemma batch_at_call_post c env s b :
  batch_at (call_post c env s) b =
  match call_batch c env s with
  | Some (b', r) => if bool_decide (b = b') then r else batch_at s b
  | None => batch_at s b
  end.
Proof.
  destruct c; cbn [call_post call_batch]; try reflexivity.
  - unfold batch_at. cbn. apply mapping_get_insert.
  - unfold verifyProductionBatch_post.
    destruct (bool_decide (MIN_VERIFICATION_COUNT <= _));
      unfold batch_at; cbn; apply mapping_get_insert.
Qed.

Lemma credit_view_from_log s id :
  reachable s -> credit_view (credit_at s id) = credit_from_log id (log s).
Proof.
  intros Hs. revert id. induction Hs as [deployer|s env c Hs IH Hg]
    using reachable_ind_post.
  - intros id. unfold credit_at. cbn. by rewrite mapping_get_empty.
  - intros j. unfold credit_from_log.
    rewrite log_call_post, fold_left_app, credit_at_call_post.
    fold (credit_from_log j (log s)). rewrite <- IH.
    destruct c; cbn [call_credit call_events fold_left replay_credit];
      try reflexivity.
    all: try (case_id j; decide_goal; try congruence; reflexivity).
    destruct (bool_decide _); reflexivity.
Qed.

Lemma auditor_view_from_log s a :
  reachable s -> auditor_view s a = auditor_from_log a (log s).
Proof.
  intros Hs. revert a. induction Hs as [deployer|s env c Hs IH Hg]
    using reachable_ind_post.
  - intros a. unfold auditor_view, isAuditor_at, auditor_at. cbn.
    by rewrite !mapping_get_empty.
  - intros a. unfold auditor_from_log, auditor_view.
    rewrite log_call_post, fold_left_app, auditor_at_call_post,
      isAuditor_at_call_post.
    fold (auditor_from_log a (log s)). rewrite <- IH. unfold auditor_view.
    destruct c;
      cbn [call_auditor call_isAuditor call_events fold_left replay_auditor];
      try reflexivity.
    all: try (case_id a; decide_goal; try congruence; reflexivity).
    destruct (bool_decide _); reflexivity.
Qed.

Lemma batch_view_from_log s b :
  reachable s -> batch_view (batch_at s b) = batch_from_log b (log s).
Proof.
  intros Hs. revert b. induction Hs as [deployer|s env c Hs IH Hg]
    using reachable_ind_post.
  - intros b. unfold batch_at. cbn. by rewrite mapping_get_empty.
  - intros j. unfold batch_from_log.
    rewrite log_call_post, fold_left_app, batch_at_call_post.
    fold (batch_from_log j (log s)). rewrite <- IH.
    destruct c; cbn [call_batch call_events fold_left replay_batch];
      try reflexivity.
    + case_id j; decide_goal; try congruence; reflexivity.
    + destruct (bool_decide (MIN_VERIFICATION_COUNT <= _)); cbn.
      * case_id j; decide_goal; try congruence; reflexivity.
      * case_id j; [|done]. by destruct (batch_at s batchId).
Qed.

(** ** The auditor registry *)

Lemma reachable_auditor_consistent s a :
  reachable s ->
  Auditor.isActive (auditor_at s a) = isAuditor_at s a /\
  (isAuditor_at s a = true ->
   a <> 0 /\ Auditor.auditorAddress (auditor_at s a) = a).
Proof.
  intros Hs. revert a. induction Hs as [deployer|s env c Hs IH Hg]
    using reachable_ind_post.
  - intros a. unfold isAuditor_at, auditor_at. cbn.
    by rewrite !mapping_get_empty.
  - intros a. rewrite auditor_at_call_post, isAuditor_at_call_post.
    destruct c; cbn [call_auditor call_isAuditor call_guard] in *;
      try apply IH.
    + case_id a; [|apply IH]. cbn. destruct Hg as (_ & ? & _). done.
    + case_id a; [|apply IH]. done.
    + case_id a; [|apply IH]. cbn.
      destruct Hg as ((Hreg & _)%andb_true_iff & _).
      destruct (IH (msg_sender env)) as [Hact Haddr]. rewrite Hact.
      done.
Qed.

(** ** The batch table *)

Lemma transact_guard c env s :
  call_guard c env s -> transact env c s = call_post c env s.
Proof.
  intros Hg. unfold transact.
  by rewrite (proj2 (execute_Ok_iff c env s (call_post c env s))).
Qed.

(** A verified credit keeps its producer, amount and verification through
    every successful call. *)
Lemma verified_credit_stable s env c id :
  reachable s -> call_guard c env s ->
  credit_exists s id = true ->
  Credit.verificationStatus (credit_at s id) = Verified ->
  credit_exists (call_post c env s) id = true /\
  Credit.producer (credit_at (call_post c env s) id) =
    Credit.producer (credit_at s id) /\
  Credit.amount (credit_at (call_post c env s) id) =
    Credit.amount (credit_at s id) /\
  Credit.verificationStatus (credit_at (call_post c env s) id) = Verified.
Proof.
  intros Hs Hg Hex Hv. rewrite <- (transact_guard c env s Hg).
  change (transact env c s) with (run [(env, c)] s).
  pose proof (run_issue_data [(env, c)] s id Hs Hex) as Hdata.
  destruct (run_verification_frozen [(env, c)] s id Hs Hex) as [Hex' Hv'];
    [congruence|].
  unfold issue_data in Hdata. injection Hdata as _ Hp _ Ha _ _ _ _ _ _ _.
  rewrite Hv'. done.
Qed.

Lemma batch_exists_range s b :
  reachable s -> batch_exists s b = true <-> 1 <= b < nextBatchId s.
Proof.
  intros Hs. revert b. induction Hs as [deployer|s env c Hs IH Hg]
    using reachable_ind_post.
  - intros b. unfold batch_exists, batch_at. cbn.
    rewrite mapping_get_empty. cbn. split; [done|lia].
  - intros j. unfold batch_exists. rewrite batch_at_call_post.
    pose proof (binv_next s (reachable_BatchInv s Hs)) as Hnext.
    destruct c; cbn [call_batch call_post]; try apply IH.
    + case_id j.
      * cbn. rewrite bool_decide_eq_false_2 by lia. cbn. split; [lia|done].
      * specialize (IH j). unfold batch_exists in IH. cbn. rewrite IH. lia.
    + assert (Hn : nextBatchId (verifyProductionBatch_post env batchId s)
                   = nextBatchId s).
      { unfold verifyProductionBatch_post. by destruct (bool_decide _). }
      rewrite Hn. case_id j; [|apply IH].
      specialize (IH batchId). unfold batch_exists in IH. rewrite <- IH.
      by destruct (bool_decide (MIN_VERIFICATION_COUNT <= _)).
Qed.

Lemma batch_sound_step s env c bt :
  reachable s -> call_guard c env s ->
  batch_sound s bt -> batch_sound (call_post c env s) bt.
Proof.
  intros Hs Hg (Hp & Hne & Hcount & Hall & Htotal & Hmax).
  assert (Hkeep : Forall (fun id =>
            credit_exists (call_post c env s) id = true /\
            Credit.producer (credit_at (call_post c env s) id) =
              Credit.producer (credit_at s id) /\
            Credit.amount (credit_at (call_post c env s) id) =
              Credit.amount (credit_at s id) /\
            Credit.verificationStatus (credit_at (call_post c env s) id)
              = Verified) (ProductionBatch.creditIds bt)).
  { eapply Forall_impl; [exact Hall|]. intros id [Hex [_ Hv]].
    by apply verified_credit_stable. }
  repeat split; try done.
  - rewrite Forall_forall in *. intros id Hin.
    destruct (Hall id Hin) as [_ [Hprod _]].
    destruct (Hkeep id Hin) as (? & Hp' & _ & ?).
    split; [done|]. split; [congruence|done].
  - rewrite Htotal. f_equal. unfold listed_amounts.
    apply map_ext_in. intros id Hin%list_elem_of_In.
    rewrite Forall_forall in Hkeep. by destruct (Hkeep id Hin) as (_ & _ & -> & _).
Qed.

Lemma reachable_batch_sound s b :
  reachable s -> batch_exists s b = true -> batch_sound s (batch_at s b).
Proof.
  intros Hs. revert b. induction Hs as [deployer|s env c Hs IH Hg]
    using reachable_ind_post.
  - intros b. unfold batch_exists, batch_at. cbn.
    by rewrite mapping_get_empty.
  - intros j. unfold batch_exists. rewrite batch_at_call_post.
    pose proof (reachable_Inv s Hs) as HI.
    assert (Hold : batch_exists s j = true ->
                   batch_sound (call_post c env s) (batch_at s j)).
    { intros Hex. apply batch_sound_step; [done|done|by apply IH]. }
    destruct (call_batch c env s) as [[b' r]|] eqn:Hcb; [|exact Hold].
    case_id j; [|exact Hold].
    destruct c; cbn [call_batch] in Hcb; try discriminate.
    + injection Hcb as <- <-. intros _.
      destruct Hg as (_ & Hp & Hne & Hall & Hle & _).
      assert (Hsame : forall id, credit_at
                (call_post (CreateProductionBatch producer creditIds) env s) id
                = credit_at s id) by (intros id; by rewrite credit_at_call_post).
      unfold batch_sound, entry_ok, listed_amounts, credit_exists. cbn.
      repeat split; try done.
      rewrite Forall_forall in *. intros id Hin. rewrite Hsame.
      destruct (Hall id Hin) as [Hprod Hv]. split; [|done].
      apply (nonzero_exists s id HI). intros Hz. rewrite Hz in Hprod.
      cbn in Hprod. congruence.
    + injection Hcb as <- <-. intros Hex.
      pose proof Hg as (_ & Hex0 & Hflag & _).
      pose proof (batch_sound_step s env (VerifyProductionBatch batchId) _ Hs
                    Hg (IH _ Hex0)) as Hsound.
      destruct Hsound as (Hp & Hne & Hcount & Hall & Htotal & Hmax).
      rewrite Hflag in Hcount. rewrite Hcount.
      rewrite bool_decide_eq_true_2 by (by vm_compute).
      unfold batch_sound. cbn. done.
Qed.

(** ** Events announced once, and the data of a batch *)

Lemma retired_ids_app l1 l2 :
  retired_ids (l1 ++ l2) = retired_ids l1 ++ retired_ids l2.
Proof.
  induction l1 as [|ev l1 IH]; [done|]. destruct ev; cbn; by rewrite ?IH.
Qed.

Lemma verified_batch_ids_app l1 l2 :
  verified_batch_ids (l1 ++ l2) =
  verified_batch_ids l1 ++ verified_batch_ids l2.
Proof.
  induction l1 as [|ev l1 IH]; [done|]. destruct ev; cbn; by rewrite ?IH.
Qed.

Lemma occurrences_nil id : occurrences id [] = 0%nat.
Proof. reflexivity. Qed.

Lemma reachable_retired_once s id :
  reachable s ->
  occurrences id (retired_ids (log s)) =
  if Credit.isRetired (credit_at s id) then 1%nat else 0%nat.
Proof.
  intros Hs. revert id. induction Hs as [deployer|s env c Hs IH Hg]
    using reachable_ind_post.
  - intros id. unfold credit_at. cbn. by rewrite mapping_get_empty.
  - intros j.
    rewrite log_call_post, retired_ids_app, occurrences_app,
      credit_at_call_post, IH.
    pose proof (reachable_Inv s Hs) as HI.
    destruct c; cbn [call_credit call_events retired_ids call_guard] in *;
      rewrite ?occurrences_nil, ?occurrences_singleton.
    all: try (by rewrite Nat.add_0_r).
    + case_id j; cbn; by rewrite Nat.add_0_r.
    + case_id j; cbn; [|by rewrite Nat.add_0_r].
      assert (Hz : Credit.isRetired (credit_at s (nextId s)) = false).
      { destruct (Credit.isRetired (credit_at s (nextId s))) eqn:Hr; [|done].
        assert (credit_exists s (nextId s) = true).
        { apply nonzero_exists; [done|]. intros Hz. by rewrite Hz in Hr. }
        by rewrite credit_exists_fresh in *. }
      by rewrite Hz.
    + case_id j; cbn; by rewrite Nat.add_0_r.
    + destruct (bool_decide _); cbn; by rewrite Nat.add_0_r.
    + case_id j; cbn; by rewrite Nat.add_0_r.
    + destruct Hg as (_ & _ & Hr & _). case_id j; cbn.
      * by rewrite Hr.
      * rewrite bool_decide_eq_false_2 by congruence. by rewrite Nat.add_0_r.
Qed.

Lemma batch_at_fresh s :
  reachable s -> batch_at s (nextBatchId s) = ProductionBatch.zero.
Proof.
  intros Hs. unfold batch_at, mapping_get.
  destruct (productionBatches s !! nextBatchId s) as [bt|] eqn:Hbt; [|done].
  destruct (binv_batch s (reachable_BatchInv s Hs) _ _ Hbt) as (_ & ? & _).
  lia.
Qed.

Lemma reachable_batch_verified_once s b :
  reachable s ->
  occurrences b (verified_batch_ids (log s)) =
  if ProductionBatch.isVerified (batch_at s b) then 1%nat else 0%nat.
Proof.
  intros Hs. revert b. induction Hs as [deployer|s env c Hs IH Hg]
    using reachable_ind_post.
  - intros b. unfold batch_at. cbn. by rewrite mapping_get_empty.
  - intros j.
    rewrite log_call_post, verified_batch_ids_app, occurrences_app,
      batch_at_call_post, IH.
    destruct c;
      cbn [call_batch call_events verified_batch_ids call_guard] in *;
      rewrite ?occurrences_nil, ?occurrences_singleton.
    all: try (by rewrite Nat.add_0_r).
    + case_id j; cbn; [|by rewrite Nat.add_0_r].
      by rewrite (batch_at_fresh s Hs).
    + destruct Hg as (_ & _ & Hflag & _).
      destruct (bool_decide (MIN_VERIFICATION_COUNT <= _));
        cbn [verified_batch_ids];
        rewrite ?occurrences_nil, ?occurrences_singleton.
      * case_id j; cbn.
        -- by rewrite Hflag.
        -- rewrite bool_decide_eq_false_2 by congruence.
           by rewrite Nat.add_0_r.
      * case_id j; cbn; by rewrite Nat.add_0_r.
Qed.

(** The data of a batch is fixed at creation; its count can only grow and
    its flag can only be set. *)
Lemma run_batch_frozen txs s b :
  reachable s -> batch_exists s b = true ->
  batch_exists (run txs s) b = true /\
  ProductionBatch.producer (batch_at (run txs s) b) =
    ProductionBatch.producer (batch_at s b) /\
  ProductionBatch.totalAmount (batch_at (run txs s) b) =
    ProductionBatch.totalAmount (batch_at s b) /\
  ProductionBatch.creditIds (batch_at (run txs s) b) =
    ProductionBatch.creditIds (batch_at s b) /\
  ProductionBatch.verificationCount (batch_at s b) <=
    ProductionBatch.verificationCount (batch_at (run txs s) b).
Proof.
  intros Hs. revert txs s Hs.
  apply (run_rel (fun s s' =>
    batch_exists s b = true ->
    batch_exists s' b = true /\
    ProductionBatch.producer (batch_at s' b) =
      ProductionBatch.producer (batch_at s b) /\
    ProductionBatch.totalAmount (batch_at s' b) =
      ProductionBatch.totalAmount (batch_at s b) /\
    ProductionBatch.creditIds (batch_at s' b) =
      ProductionBatch.creditIds (batch_at s b) /\
    ProductionBatch.verificationCount (batch_at s b) <=
      ProductionBatch.verificationCount (batch_at s' b))).
  - intros s Hex. repeat split; try done.
  - intros s1 s2 s3 H12 H23 Hex.
    destruct (H12 Hex) as (Hex2 & E1 & E2 & E3 & L1).
    destruct (H23 Hex2) as (Hex3 & F1 & F2 & F3 & L2).
    repeat split; try congruence. lia.
  - intros s env c Hs Hg Hex. unfold batch_exists in *.
    rewrite batch_at_call_post.
    destruct c; cbn [call_batch]; try (repeat split; done).
    + case_id b; [|repeat split; done].
      apply (batch_exists_range s _ Hs) in Hex. lia.
    + case_id b; [|repeat split; done].
      destruct (bool_decide (MIN_VERIFICATION_COUNT <= _)); cbn;
        repeat split; try done; lia.
Qed.

(** ** Auditors, batches and the event log *)

(** X6: the two storage cells tested by [onlyAuditor] never disagree.  After
    any sequence of transactions from deployment, [auditors[a].isActive]
    equals [isAuditor[a]] for every address, so the modifier lets exactly
    the addresses with [isAuditor[a]] through; a registered auditor is not
    the zero address and its record carries its own address. *)
Theorem auditor_registry_consistent (deployer : address)
    (txs : list (Env * Call)) (a : address) :
  let s := run txs (constructor deployer) in
  Auditor.isActive (auditor_at s a) = isAuditor_at s a /\
  is_active_auditor s a = isAuditor_at s a /\
  (isAuditor_at s a = true ->
   a <> 0 /\ Auditor.auditorAddress (auditor_at s a) = a).
Proof.
  intros s.
  destruct (reachable_auditor_consistent s a (run_from_constructor _ _))
    as [Hact Haddr].
  split; [done|]. split; [|done].
  unfold is_active_auditor. rewrite Hact. by destruct (isAuditor_at s a).
Qed.

(** X7: the credit table can be read off the event log.  After any sequence
    of transactions from deployment, the owner, producer, amount, production
    date, verification status, lifecycle status, retired flag and retirement
    reason of every credit (existing or not) are what replaying the
    CreditIssued, CreditVerified, CreditTransferred, CreditSuspended and
    CreditRetired events of the log gives. *)
Theorem credit_state_from_log (deployer : address) (txs : list (Env * Call))
    (id : uint256) :
  let s := run txs (constructor deployer) in
  credit_view (credit_at s id) = credit_from_log id (log s).
Proof. intros s. apply credit_view_from_log, run_from_constructor. Qed.

(** X8: the auditor registry can be read off the event log.  After any
    sequence of transactions from deployment, whether an address is a
    registered auditor, its name, and its verificationCount are what
    replaying the log gives: the count is the number of CreditVerified
    events of that auditor since its last AuditorRegistered event. *)
Theorem auditor_state_from_log (deployer : address) (txs : list (Env * Call))
    (a : address) :
  let s := run txs (constructor deployer) in
  auditor_view s a = auditor_from_log a (log s).
Proof. intros s. apply auditor_view_from_log, run_from_constructor. Qed.

(** X9: the batch table can be read off the event log.  After any sequence
    of transactions from deployment, the producer, total amount and verified
    flag of every batch are what replaying the ProductionBatchCreated and
    ProductionBatchVerified events gives, and the verificationCount of a
    batch is 1 while it is unverified and 2 once it is verified (0 for an
    id that names no batch). *)
Theorem batch_state_from_log (deployer : address) (txs : list (Env * Call))
    (b : uint256) :
  let s := run txs (constructor deployer) in
  batch_view (batch_at s b) = batch_from_log b (log s) /\
  ProductionBatch.verificationCount (batch_at s b) =
    (if batch_exists s b
     then if ProductionBatch.isVerified (batch_at s b) then 2 else 1
     else 0).
Proof.
  intros s. pose proof (run_from_constructor deployer txs) as Hs. fold s in Hs.
  split; [by apply batch_view_from_log|].
  destruct (batch_exists s b) eqn:Hex.
  - by destruct (reachable_batch_sound s b Hs Hex) as (_ & _ & ? & _).
  - unfold batch_at, mapping_get in *.
    destruct (productionBatches s !! b) as [bt|] eqn:Hbt; [|done].
    destruct (binv_batch s (reachable_BatchInv s Hs) _ _ Hbt)
      as (Hid & Hrange & _).
    unfold batch_exists, batch_at in Hex.
    rewrite (mapping_get_Some _ _ _ _ Hbt), Hid in Hex.
    rewrite bool_decide_eq_false_2 in Hex by lia. done.
Qed.

(** X10: retirement and batch verification are announced exactly once.
    After any sequence of transactions from deployment, the log holds one
    CreditRetired event for a credit whose isRetired flag is set and none
    otherwise, and one ProductionBatchVerified event for a batch whose
    isVerified flag is set and none otherwise. *)
Theorem settlement_events_once (deployer : address) (txs : list (Env * Call))
    (n : uint256) :
  let s := run txs (constructor deployer) in
  occurrences n (retired_ids (log s)) =
    (if Credit.isRetired (credit_at s n) then 1%nat else 0%nat) /\
  occurrences n (verified_batch_ids (log s)) =
    (if ProductionBatch.isVerified (batch_at s n) then 1%nat else 0%nat).
Proof.
  intros s. pose proof (run_from_constructor deployer txs) as Hs. fold s in Hs.
  split; [by apply reachable_retired_once
         |by apply reachable_batch_verified_once].
Qed.

(** X11: batch identifiers are sequential.  After any sequence of
    transactions from deployment, the batches that exist are exactly those
    with 1 <= id < nextBatchId, each is stored under its own id, and
    [getProductionBatch] returns the stored batch for these ids and reverts
    with "Batch does not exist" for every other id. *)
Theorem batch_ids_sequential (deployer : address) (txs : list (Env * Call))
    (b : uint256) (env : Env) :
  let s := run txs (constructor deployer) in
  (batch_exists s b = true <-> 1 <= b < nextBatchId s) /\
  (batch_exists s b = true -> ProductionBatch.batchId (batch_at s b) = b) /\
  getProductionBatch b env s =
    (if bool_decide (1 <= b < nextBatchId s) then Ok (batch_at s b, s)
     else Err BatchDoesNotExist).
Proof.
  intros s. pose proof (run_from_constructor deployer txs) as Hs. fold s in Hs.
  pose proof (batch_exists_range s b Hs) as Hrange.
  split; [done|]. split.
  - intros (bt & Hbt & ->)%batch_exists_lookup.
    by destruct (binv_batch s (reachable_BatchInv s Hs) _ _ Hbt).
  - unfold getProductionBatch. unfold_M. fold (batch_exists s b).
    destruct (batch_exists s b) eqn:Hex.
    + rewrite bool_decide_eq_true_2 by (by apply Hrange). done.
    + rewrite bool_decide_eq_false_2; [done|].
      intros H%Hrange. congruence.
Qed.

(** X12: every batch of a reachable state is sound: its producer is not the
    zero address, it lists at least one credit, its verificationCount is 2
    if it is verified and 1 if not, every credit it lists still exists, is
    still Verified and still has the batch's producer, and its totalAmount
    is the sum of the current amounts of the listed credits, at most
    2^256 - 1. *)
Theorem stored_batches_sound (s : State) (b : uint256) (Hs : reachable s)
    (Hex : batch_exists s b = true) :
  batch_sound s (batch_at s b).
Proof. by apply reachable_batch_sound. Qed.

Lemma stored_batches_sound_witness :
  batch_sound (run txs_self_verified_batch (constructor 1))
    (batch_at (run txs_self_verified_batch (constructor 1)) 1).
Proof.
  apply (stored_batches_sound (run txs_self_verified_batch (constructor 1)) 1).
  - apply run_from_constructor.
  - reflexivity.
Defined.

(** X13: the data of a batch is fixed at creation.  For an existing batch
    of a reachable state and any sequence of transactions run from there,
    the batch still exists, its producer, totalAmount and creditIds are
    unchanged, and its verificationCount has not decreased. *)
Theorem batch_data_immutable (s : State) (b : uint256)
    (txs : list (Env * Call)) (Hs : reachable s)
    (Hex : batch_exists s b = true) :
  batch_exists (run txs s) b = true /\
  ProductionBatch.producer (batch_at (run txs s) b) =
    ProductionBatch.producer (batch_at s b) /\
  ProductionBatch.totalAmount (batch_at (run txs s) b) =
    ProductionBatch.totalAmount (batch_at s b) /\
  ProductionBatch.creditIds (batch_at (run txs s) b) =
    ProductionBatch.creditIds (batch_at s b) /\
  ProductionBatch.verificationCount (batch_at s b) <=
    ProductionBatch.verificationCount (batch_at (run txs s) b).
Proof. by apply run_batch_frozen. Qed.

Lemma batch_data_immutable_witness :
  let s := run txs_batch_created (constructor 1) in
  let txs := [ (env_of 5 103, RetireCredit 1 "offset");
               (env_of 7 104, VerifyProductionBatch 1) ] in
  batch_exists (run txs s) 1 = true /\
  ProductionBatch.producer (batch_at (run txs s) 1) =
    ProductionBatch.producer (batch_at s 1) /\
  ProductionBatch.totalAmount (batch_at (run txs s) 1) =
    ProductionBatch.totalAmount (batch_at s 1) /\
  ProductionBatch.creditIds (batch_at (run txs s) 1) =
    ProductionBatch.creditIds (batch_at s 1) /\
  ProductionBatch.verificationCount (batch_at s 1) <=
    ProductionBatch.verificationCount (batch_at (run txs s) 1).
Proof.
  apply (batch_data_immutable (run txs_batch_created (constructor 1)) 1).
  - apply run_from_constructor.
  - reflexivity.
Defined.

(** ** Swap and pop *)

Lemma first_index_app value l1 l2 k :
  value ∉ l1 ->
  first_index value (l1 ++ value :: l2) k = Some (k + length l1)%nat.
Proof.
  revert k. induction l1 as [|x l1 IH]; intros k Hnot; cbn.
  - rewrite bool_decide_eq_true_2 by done. f_equal. lia.
  - apply not_elem_of_cons in Hnot as [Hx Hnot].
    rewrite bool_decide_eq_false_2 by congruence.
    rewrite IH by done. f_equal. lia.
Qed.

Lemma last_of_app (l1 l2 : list uint256) d :
  l2 <> [] -> List.last (l1 ++ l2) d = List.last l2 d.
Proof.
  intros Hne. induction l1 as [|x l1 IH]; [done|].
  cbn [app]. destruct (l1 ++ l2) eqn:E; [|by rewrite <- IH].
  by destruct l1, l2.
Qed.

(** X14: the shape of the array after [_removeFromArray].  When [value]
    first occurs after the prefix [l1], the result keeps [l1], puts the last
    element of the array into the slot of that first occurrence and drops
    the last slot (so the order of the rest is not kept, and later
    occurrences of [value] stay); the array gets shorter by one.  Where
    [value] does not occur, as in [l1] itself, the array is unchanged. *)
Theorem removeFromArray_first_occurrence (l1 l2 : list uint256)
    (value : uint256) (Hfirst : value ∉ l1) :
  _removeFromArray (l1 ++ value :: l2) value =
    l1 ++ match l2 with
          | [] => []
          | _ :: _ => List.last l2 0 :: removelast l2
          end /\
  length (_removeFromArray (l1 ++ value :: l2) value)
    = (length l1 + length l2)%nat /\
  _removeFromArray l1 value = l1.
Proof.
  assert (Heq : _removeFromArray (l1 ++ value :: l2) value =
                l1 ++ match l2 with
                      | [] => []
                      | _ :: _ => List.last l2 0 :: removelast l2
                      end).
  { unfold _removeFromArray. rewrite first_index_app by done. cbn.
    replace (length l1) with (length l1 + 0)%nat by lia.
    rewrite insert_app_r. cbn [list_insert].
    destruct l2 as [|y l2].
    - rewrite last_last. cbn. by rewrite removelast_last, app_nil_r.
    - replace (List.last (l1 ++ value :: y :: l2) 0)
        with (List.last (y :: l2) 0)
        by (by rewrite (last_of_app l1 (value :: y :: l2))).
      cbn [list_insert].
      by rewrite removelast_app. }
  split; [done|]. split; [|by apply _removeFromArray_absent].
  rewrite Heq. rewrite length_app. destruct l2 as [|y l2]; [cbn; lia|].
  cbn [length]. f_equal.
  assert (Hlen : length (removelast (y :: l2)) = length l2).
  { clear. revert y. induction l2 as [|z l2 IH]; intros y; [done|].
    change (removelast (y :: z :: l2)) with (y :: removelast (z :: l2)).
    cbn [length]. by rewrite IH. }
  rewrite Hlen. lia.
Qed.

Lemma removeFromArray_first_occurrence_witness :
  _removeFromArray ([4; 7] ++ 2 :: [9; 2; 5]) 2 =
    [4; 7] ++ List.last [9; 2; 5] 0 :: removelast [9; 2; 5] /\
  length (_removeFromArray ([4; 7] ++ 2 :: [9; 2; 5]) 2)
    = (length [4; 7] + length [9; 2; 5])%nat /\
  _removeFromArray [4; 7] 2 = [4; 7].
Proof.
  apply (removeFromArray_first_occurrence [4; 7] [9; 2; 5] 2).
  rewrite !not_elem_of_cons. repeat split; [done|done|].
  apply not_elem_of_nil.
Defined.

(** ** Roles *)

Lemma regulator_call_post c env s :
  regulator (call_post c env s) = regulator s.
Proof.
  destruct c; cbn; try reflexivity.
  unfold verifyProductionBatch_post. by destruct (bool_decide _).
Qed.

Lemma certifier_call_post c env s :
  certifier (call_post c env s) =
  match c with SetCertifier a => a | _ => certifier s end.
Proof.
  destruct c; cbn; try reflexivity.
  unfold verifyProductionBatch_post. by destruct (bool_decide _).
Qed.

(** X15: the regulator is fixed and the certifier is never the zero address.
    After any sequence of transactions from a deployment by a non-zero
    address, the regulator is still the deployer, the certifier is not the
    zero address, and the deployer still passes both [onlyRegulator] and
    [onlyCertifier]. *)
Theorem roles_over_time (deployer : address) (txs : list (Env * Call))
    (Hdeployer : deployer <> 0) :
  let s := run txs (constructor deployer) in
  regulator s = deployer /\
  certifier s <> 0 /\
  forall env, msg_sender env = deployer ->
    is_regulator env s = true /\ is_certifier env s = true.
Proof.
  intros s.
  assert (H : regulator s = regulator (constructor deployer) /\
              (certifier (constructor deployer) <> 0 -> certifier s <> 0)).
  { subst s. generalize (reachable_init deployer).
    generalize (constructor deployer). intros s0 Hs0. revert txs s0 Hs0.
    apply (run_rel (fun s s' =>
      regulator s' = regulator s /\ (certifier s <> 0 -> certifier s' <> 0))).
    - done.
    - intros s1 s2 s3 [E1 N1] [E2 N2]. split; [congruence|tauto].
    - intros s0 env c _ Hg.
      rewrite regulator_call_post, certifier_call_post.
      split; [done|]. destruct c; try done. by destruct Hg. }
  destruct H as [Hreg Hcert]. cbn in Hreg, Hcert.
  split; [done|]. split; [by apply Hcert|].
  intros env Hsender. unfold is_regulator, is_certifier.
  rewrite Hreg, (bool_decide_eq_true_2 _ Hsender). by rewrite orb_true_r.
Qed.

Lemma roles_over_time_witness :
  let s := run [ (env_of 1 100, SetCertifier 4);
                 (env_of 4 101, SetCertifier 9) ] (constructor 1) in
  regulator s = 1 /\
  certifier s <> 0 /\
  forall env, msg_sender env = 1 ->
    is_regulator env s = true /\ is_certifier env s = true.
Proof.
  apply (roles_over_time 1
           [ (env_of 1 100, SetCertifier 4); (env_of 4 101, SetCertifier 9) ]).
  done.
Defined.

(** ** A verification that decides nothing *)

(** X16: [verifyCredit] accepts the decision Pending.  Called by an active
    auditor on an existing, unretired, pending credit, it returns, leaves
    the credit's record as it was, still adds one to the auditor's
    verificationCount and emits CreditVerified; the credit can then be
    verified again, with any decision. *)
Theorem pending_decision_keeps_credit_open (s : State) (env : Env)
    (id : uint256) (notes : string)
    (Hauditor : is_active_auditor s (msg_sender env) = true)
    (Hex : credit_exists s id = true)
    (Hopen : Credit.isRetired (credit_at s id) = false)
    (Hpending : Credit.verificationStatus (credit_at s id) = Pending)
    (Hcount : Auditor.verificationCount (auditor_at s (msg_sender env)) + 1
              < MAX_UINT256) :
  let s' := verifyCredit_post env id Pending s in
  verifyCredit id Pending notes env s = Ok (tt, s') /\
  credit_at s' id = credit_at s id /\
  Auditor.verificationCount (auditor_at s' (msg_sender env)) =
    Auditor.verificationCount (auditor_at s (msg_sender env)) + 1 /\
  log s' = log s ++ [CreditVerified id (msg_sender env) Pending] /\
  forall decision notes',
    verifyCredit id decision notes' env s' =
    Ok (tt, verifyCredit_post env id decision s').
Proof.
  intros s'.
  assert (Hcredit : credit_at s' id = credit_at s id).
  { subst s'. unfold credit_at. cbn. rewrite mapping_get_insert_eq.
    fold (credit_at s id). destruct (credit_at s id); cbn in *. by subst. }
  assert (Hrec : auditor_at s' (msg_sender env) =
                 Auditor.set_lastVerification (block_timestamp env)
                   (Auditor.set_verificationCount
                      (Auditor.verificationCount
                         (auditor_at s (msg_sender env)) + 1)
                      (auditor_at s (msg_sender env)))).
  { subst s'. unfold auditor_at. cbn. by rewrite mapping_get_insert_eq. }
  split.
  { apply (execute_Ok_iff (VerifyCredit id Pending notes)). split; [|done].
    cbn. repeat split; try done. lia. }
  split; [done|]. split; [by rewrite Hrec|]. split; [done|].
  intros decision notes'.
  apply (execute_Ok_iff (VerifyCredit id decision notes')). split; [|done].
  cbn. rewrite Hcredit, Hrec. cbn.
  apply andb_true_iff in Hauditor as [Hreg Hact].
  split; [|split; [unfold credit_exists in *; by rewrite Hcredit|done]].
  unfold is_active_auditor. rewrite Hrec. cbn. rewrite Hact.
  replace (isAuditor_at s' (msg_sender env))
    with (isAuditor_at s (msg_sender env)) by done.
  by rewrite Hreg.
Qed.

Lemma pending_decision_keeps_credit_open_witness :
  let s := run txs_issued (constructor 1) in
  let env := env_of 7 101 in
  let s' := verifyCredit_post env 1 Pending s in
  verifyCredit 1 Pending "later" env s = Ok (tt, s') /\
  credit_at s' 1 = credit_at s 1 /\
  Auditor.verificationCount (auditor_at s' (msg_sender env)) =
    Auditor.verificationCount (auditor_at s (msg_sender env)) + 1 /\
  log s' = log s ++ [CreditVerified 1 (msg_sender env) Pending] /\
  forall decision notes',
    verifyCredit 1 decision notes' env s' =
    Ok (tt, verifyCredit_post env 1 decision s').
Proof.
  apply (pending_decision_keeps_credit_open
           (run txs_issued (constructor 1)) (env_of 7 101) 1 "later");
    by vm_compute.
Defined.

(** ** Expiry *)

Lemma isCreditExpired_eq env s id :
  isCreditExpired id env s =
  if negb (credit_exists s id) then Err CreditDoesNotExist
  else if negb (bool_decide
                  (Credit.productionDate (credit_at s id)
                   <= block_timestamp env))
       then Err ArithmeticPanic
  else Ok (bool_decide
             (CREDIT_EXPIRY_DAYS * one_day
              < block_timestamp env - Credit.productionDate (credit_at s id)),
           s).
Proof.
  unfold isCreditExpired, credit_exists. unfold_M.
  destruct (bool_decide (Credit.id (credit_at s id) = 0)); cbn; [done|].
  by destruct (bool_decide _).
Qed.

(** X17: what [isCreditExpired] answers.  For an existing credit of a
    reachable state, at any time not before its certification, the query
    returns without reverting, and returns true exactly when more than
    CREDIT_EXPIRY_DAYS days have passed since the production date; no
    sequence of transactions changes the answer, a true answer stays true at
    every later time, and at a time before the production date the
    subtraction underflows and the query reverts. *)
Theorem isCreditExpired_by_clock (s : State) (id : uint256) (env : Env)
    (txs : list (Env * Call)) (Hs : reachable s)
    (Hex : credit_exists s id = true)
    (Hclock : Credit.certificationDate (credit_at s id)
              <= block_timestamp env) :
  let produced := Credit.productionDate (credit_at s id) in
  let answer :=
    bool_decide (produced + CREDIT_EXPIRY_DAYS * one_day
                 < block_timestamp env) in
  isCreditExpired id env s = Ok (answer, s) /\
  isCreditExpired id env (run txs s) = Ok (answer, run txs s) /\
  (forall env', block_timestamp env <= block_timestamp env' ->
     answer = true -> isCreditExpired id env' s = Ok (true, s)) /\
  (forall env', block_timestamp env' < produced ->
     isCreditExpired id env' s = Err ArithmeticPanic).
Proof.
  intros produced answer.
  destruct (reachable_well_formed s id Hs Hex) as (_ & _ & Hdates & _).
  fold produced in Hdates.
  assert (Hnow : forall s1 env1,
            credit_exists s1 id = true ->
            Credit.productionDate (credit_at s1 id) = produced ->
            produced <= block_timestamp env1 ->
            isCreditExpired id env1 s1 =
            Ok (bool_decide (produced + CREDIT_EXPIRY_DAYS * one_day
                             < block_timestamp env1), s1)).
  { intros s1 env1 Hex1 Hpd Hle. rewrite isCreditExpired_eq, Hex1, Hpd. cbn.
    rewrite (bool_decide_eq_true_2 _ Hle). cbn. do 2 f_equal.
    apply bool_decide_ext. lia. }
  split; [apply Hnow; [done|done|lia]|]. split.
  - apply Hnow; [by apply run_credit_exists| |lia].
    pose proof (run_issue_data txs s id Hs Hex) as Hdata.
    unfold issue_data in Hdata. by injection Hdata as _ _ _ _ -> _ _ _ _ _ _.
  - split.
    + intros env' Hlater Hans. rewrite Hnow; [|done|done|lia].
      subst answer. apply bool_decide_eq_true_1 in Hans.
      rewrite bool_decide_eq_true_2 by lia. done.
    + intros env' Hearly. rewrite isCreditExpired_eq, Hex. cbn.
      fold produced. rewrite bool_decide_eq_false_2 by lia. done.
Qed.

Lemma isCreditExpired_by_clock_witness :
  let s := run txs_verified (constructor 1) in
  let env := env_of 6 (90 + 365 * 86400 + 1) in
  let txs := [ (env_of 5 102, RetireCredit 1 "offset") ] in
  let produced := Credit.productionDate (credit_at s 1) in
  let answer :=
    bool_decide (produced + CREDIT_EXPIRY_DAYS * one_day
                 < block_timestamp env) in
  isCreditExpired 1 env s = Ok (answer, s) /\
  isCreditExpired 1 env (run txs s) = Ok (answer, run txs s) /\
  (forall env', block_timestamp env <= block_timestamp env' ->
     answer = true -> isCreditExpired 1 env' s = Ok (true, s)) /\
  (forall env', block_timestamp env' < produced ->
     isCreditExpired 1 env' s = Err ArithmeticPanic).
Proof.
  apply (isCreditExpired_by_clock (run txs_verified (constructor 1)) 1
           (env_of 6 (90 + 365 * 86400 + 1))).
  - apply run_from_constructor.
  - reflexivity.
  - by vm_compute.
Defined.

(** ** Who may call, and when *)

Lemma sum_batch_env producer ids acc env env' s :
  sum_batch producer ids acc env s = sum_batch producer ids acc env' s.
Proof.
  revert acc. induction ids as [|cid rest IH]; intros acc; cbn; [done|].
  unfold_M.
  destruct (bool_decide (Credit.producer (credit_at s cid) = producer));
    [|done].
  destruct (bool_decide
              (Credit.verificationStatus (credit_at s cid) = Verified));
    [|done].
  destruct (bool_decide (acc + Credit.amount (credit_at s cid)
                         <= MAX_UINT256)); [|done].
  apply IH.
Qed.

Ltac same_error :=
  intros ?;
  repeat match goal with
         | |- context [if ?b then _ else _] => destruct b
         end; done.

(** X18: no call but [issueCredit] succeeds or fails because of the time.
    For every other call, two environments with the same sender give the
    same revert reason, or both succeed: expiry, in particular, stops
    neither a transfer nor a retirement. *)
Theorem only_issuance_is_time_gated (c : Call) (env env' : Env) (s : State)
    (Hsender : msg_sender env = msg_sender env')
    (Hcall : time_gated c = false) :
  (forall e, execute c env s = Err e -> execute c env' s = Err e) /\
  ((exists s1, execute c env s = Ok (tt, s1)) ->
   exists s2, execute c env' s = Ok (tt, s2)).
Proof.
  split.
  - destruct env as [a t], env' as [a' t']. cbn in Hsender. subst a'.
    destruct c; try discriminate Hcall; cbn [execute].
    + rewrite !setCertifier_eq. unfold is_regulator. cbn. same_error.
    + rewrite !registerAuditor_eq. unfold is_regulator. cbn. same_error.
    + rewrite !deactivateAuditor_eq. unfold is_regulator. cbn. same_error.
    + rewrite !suspendCredit_eq. unfold is_regulator. cbn. same_error.
    + rewrite !verifyCredit_eq. cbn. same_error.
    + rewrite !createProductionBatch_eq. cbn.
      rewrite (sum_batch_env _ _ _ (mkEnv a t') (mkEnv a t)).
      destruct (sum_batch producer creditIds 0 (mkEnv a t) s) as [[? ?]|?];
        same_error.
    + rewrite !verifyProductionBatch_eq. cbn. same_error.
    + rewrite !transferCredit_eq. cbn. same_error.
    + rewrite !retireCredit_eq. cbn. same_error.
  - intros [s1 [Hg _]%execute_Ok_iff]. exists (call_post c env' s).
    apply execute_Ok_iff. split; [|done].
    destruct c; try discriminate Hcall; cbn [call_guard] in *;
      unfold is_regulator in *; by rewrite <- ?Hsender.
Qed.

Lemma only_issuance_is_time_gated_witness :
  (forall e,
     execute (TransferCredit 1 6) (env_of 5 102)
       (run txs_verified (constructor 1)) = Err e ->
     execute (TransferCredit 1 6) (env_of 5 (90 + 366 * 86400))
       (run txs_verified (constructor 1)) = Err e) /\
  ((exists s1, execute (TransferCredit 1 6) (env_of 5 102)
                 (run txs_verified (constructor 1)) = Ok (tt, s1)) ->
   exists s2, execute (TransferCredit 1 6) (env_of 5 (90 + 366 * 86400))
                (run txs_verified (constructor 1)) = Ok (tt, s2)).
Proof.
  apply (only_issuance_is_time_gated (TransferCredit 1 6) (env_of 5 102)
           (env_of 5 (90 + 366 * 86400)) (run txs_verified (constructor 1)));
    reflexivity.
Defined.

Lemma not_owner_of_listed_nothing s a id :
  Inv s -> ownerCredits_at s a = [] -> credit_exists s id = true ->
  Credit.owner (credit_at s id) <> a.
Proof.
  intros HI Hnone Hex Hown. pose proof (inv_owner s HI a id) as Hocc.
  rewrite Hnone, Hex, bool_decide_eq_true_2 in Hocc by done. done.
Qed.

(** X19: an account without a role and without credits cannot change the
    storage.  In a reachable state, a sender that is not the regulator, not
    the certifier, not a registered auditor and holds no credit gets every
    call reverted by one of the access checks, and the storage stays as it
    was. *)
Theorem outsider_cannot_act (s : State) (env : Env) (c : Call)
    (Hs : reachable s)
    (Hregulator : msg_sender env <> regulator s)
    (Hcertifier : msg_sender env <> certifier s)
    (Hauditor : isAuditor_at s (msg_sender env) = false)
    (Hholder : ownerCredits_at s (msg_sender env) = []) :
  (exists e, execute c env s = Err e /\ access_error e = true) /\
  transact env c s = s.
Proof.
  assert (Hreg : is_regulator env s = false)
    by (unfold is_regulator; by rewrite bool_decide_eq_false_2).
  assert (Hcert : is_certifier env s = false).
  { unfold is_certifier. by rewrite !bool_decide_eq_false_2. }
  assert (Haud : is_active_auditor s (msg_sender env) = false)
    by (unfold is_active_auditor; by rewrite Hauditor).
  assert (Hown : forall id, credit_exists s id = true ->
            bool_decide (msg_sender env = Credit.owner (credit_at s id))
            = false).
  { intros id Hex. apply bool_decide_eq_false_2. intros Heq.
    by apply (not_owner_of_listed_nothing s (msg_sender env) id
                (reachable_Inv s Hs) Hholder Hex). }
  assert (Herr : exists e, execute c env s = Err e /\ access_error e = true).
  { destruct c; cbn [execute].
    - rewrite setCertifier_eq, Hreg. by eexists.
    - rewrite registerAuditor_eq, Hreg. by eexists.
    - rewrite deactivateAuditor_eq, Hreg. by eexists.
    - rewrite suspendCredit_eq, Hreg. by eexists.
    - rewrite issueCredit_eq, Hcert. by eexists.
    - rewrite verifyCredit_eq, Haud. by eexists.
    - rewrite createProductionBatch_eq, Haud. by eexists.
    - rewrite verifyProductionBatch_eq, Haud. by eexists.
    - rewrite transferCredit_eq.
      destruct (credit_exists s id) eqn:Hex; cbn; [|by eexists].
      rewrite (Hown id Hex). by eexists.
    - rewrite retireCredit_eq.
      destruct (credit_exists s id) eqn:Hex; cbn; [|by eexists].
      rewrite (Hown id Hex). by eexists. }
  split; [done|]. destruct Herr as (e & He & _). unfold transact.
  by rewrite He.
Qed.

Lemma outsider_cannot_act_witness :
  (exists e,
     execute (TransferCredit 1 9) (env_of 9 200)
       (run txs_verified (constructor 1)) = Err e /\
     access_error e = true) /\
  transact (env_of 9 200) (TransferCredit 1 9)
    (run txs_verified (constructor 1)) = run txs_verified (constructor 1).
Proof.
  apply (outsider_cannot_act (run txs_verified (constructor 1))
           (env_of 9 200) (TransferCredit 1 9)).
  - apply run_from_constructor.
  - by vm_compute.
  - by vm_compute.
  - reflexivity.
  - reflexivity.
Defined.

(** ** Writing and reading back *)

Lemma getCredit_eq env s id :
  getCredit id env s =
  if credit_exists s id then Ok (credit_at s id, s)
  else Err CreditDoesNotExist.
Proof.
  unfold getCredit, credit_exists. unfold_M.
  by destruct (bool_decide (Credit.id (credit_at s id) = 0)).
Qed.

(** X20: an issued credit reads back as issued.  After a successful
    [issueCredit] in a reachable state, [getCredit] of the id that was
    free before returns the record with the arguments of the call, Pending,
    Active, not retired, certified by the sender at the time of the call;
    [getOwnerCredits] and [getProducerCredits] return the old arrays with
    that id appended; [getCredit] of every other id answers as before. *)
Theorem issued_credit_round_trip (s s' : State) (env env' : Env)
    (to producer : address) (pn : string) (amount pd : uint256)
    (rs loc : string) (ci : uint256) (md : string)
    (Hs : reachable s)
    (Hcall : issueCredit to producer pn amount pd rs loc ci md env s
             = Ok (tt, s')) :
  let id := nextId s in
  getCredit id env' s = Err CreditDoesNotExist /\
  getCredit id env' s' =
    Ok (Credit.mk id to producer pn amount pd rs loc ci Pending Active
          (msg_sender env) (block_timestamp env) md false 0
          String.EmptyString, s') /\
  getOwnerCredits to env' s' = Ok (ownerCredits_at s to ++ [id], s') /\
  getProducerCredits producer env' s' =
    Ok (producerCredits_at s producer ++ [id], s') /\
  (forall j, j <> id -> getCredit j env' s' =
     match getCredit j env' s with
     | Ok (c, _) => Ok (c, s')
     | Err e => Err e
     end).
Proof.
  intros id.
  apply (execute_Ok_iff (IssueCredit to producer pn amount pd rs loc ci md))
    in Hcall as [Hg ->].
  pose proof (reachable_Inv s Hs) as HI.
  pose proof (credit_exists_fresh s HI) as Hfresh. fold id in Hfresh.
  set (s' := call_post (IssueCredit to producer pn amount pd rs loc ci md)
               env s).
  assert (Hat : forall j, credit_at s' j =
            if bool_decide (j = id)
            then Credit.mk id to producer pn amount pd rs loc ci Pending
                   Active (msg_sender env) (block_timestamp env) md false 0
                   String.EmptyString
            else credit_at s j).
  { intros j. subst s'. by rewrite credit_at_call_post. }
  assert (Hid : id <> 0).
  { pose proof (inv_nextId s HI). subst id. lia. }
  split; [by rewrite getCredit_eq, Hfresh|]. split.
  { rewrite getCredit_eq. unfold credit_exists. rewrite Hat.
    rewrite (bool_decide_eq_true_2 (id = id)) by done. cbn.
    by rewrite (bool_decide_eq_false_2 (id = 0)). }
  split.
  { unfold getOwnerCredits, sload. do 2 f_equal.
    unfold ownerCredits_at at 1. subst s'. cbn.
    by rewrite mapping_get_insert_eq. }
  split.
  { unfold getProducerCredits, sload. do 2 f_equal.
    unfold producerCredits_at at 1. subst s'. cbn.
    by rewrite mapping_get_insert_eq. }
  intros j Hj. rewrite !getCredit_eq. unfold credit_exists. rewrite Hat.
  rewrite (bool_decide_eq_false_2 (j = id)) by done.
  by destruct (negb _).
Qed.

Lemma issued_credit_round_trip_witness :
  let s := run txs_issued (constructor 1) in
  let env := env_of 1 150 in
  let env' := env_of 6 200 in
  let s' := issueCredit_post env 6 5 "Producer Five" 40 120 "wind" "Texas" 10
              "batch B" s in
  let id := nextId s in
  getCredit id env' s = Err CreditDoesNotExist /\
  getCredit id env' s' =
    Ok (Credit.mk id 6 5 "Producer Five" 40 120 "wind" "Texas" 10 Pending
          Active (msg_sender env) (block_timestamp env) "batch B" false 0
          String.EmptyString, s') /\
  getOwnerCredits 6 env' s' = Ok (ownerCredits_at s 6 ++ [id], s') /\
  getProducerCredits 5 env' s' = Ok (producerCredits_at s 5 ++ [id], s') /\
  (forall j, j <> id -> getCredit j env' s' =
     match getCredit j env' s with
     | Ok (c, _) => Ok (c, s')
     | Err e => Err e
     end).
Proof.
  apply (issued_credit_round_trip (run txs_issued (constructor 1))
           (issueCredit_post (env_of 1 150) 6 5 "Producer Five" 40 120 "wind"
              "Texas" 10 "batch B" (run txs_issued (constructor 1)))
           (env_of 1 150) (env_of 6 200) 6 5 "Producer Five" 40 120 "wind"
           "Texas" 10 "batch B").
  - apply run_from_constructor.
  - by vm_compute.
Defined.

(** X21: a registered auditor reads back as registered.  After a successful
    [registerAuditor], [getAuditor] (which reverted before) returns the new
    record with verificationCount 0, the address passes [onlyAuditor], a
    second registration of it reverts with "Auditor already registered",
    and no other auditor's record or flag has changed. *)
Theorem registered_auditor_round_trip (s s' : State) (env env' : Env)
    (a : address) (name accreditation : string)
    (Hcall : registerAuditor a name accreditation env s = Ok (tt, s')) :
  getAuditor a env' s = Err AuditorNotFound /\
  getAuditor a env' s' =
    Ok (Auditor.mk a name accreditation true 0 0, s') /\
  is_active_auditor s' a = true /\
  (forall name' accreditation',
     registerAuditor a name' accreditation' env s'
     = Err AuditorAlreadyRegistered) /\
  (forall a', a' <> a ->
     auditor_at s' a' = auditor_at s a' /\
     isAuditor_at s' a' = isAuditor_at s a').
Proof.
  apply (execute_Ok_iff (RegisterAuditor a name accreditation))
    in Hcall as [(Hreg & Ha & Hnew) ->]. cbn [call_post].
  assert (Hflag : isAuditor_at (registerAuditor_post a name accreditation s) a
                  = true).
  { unfold isAuditor_at. cbn. by rewrite mapping_get_insert_eq. }
  assert (Hrec : auditor_at (registerAuditor_post a name accreditation s) a
                 = Auditor.mk a name accreditation true 0 0).
  { unfold auditor_at. cbn. by rewrite mapping_get_insert_eq. }
  split; [by rewrite getAuditor_eq, Hnew|].
  split; [by rewrite getAuditor_eq, Hflag, Hrec|].
  split; [unfold is_active_auditor; by rewrite Hflag, Hrec|].
  split.
  - intros name' accreditation'. rewrite registerAuditor_eq.
    replace (is_regulator env (registerAuditor_post a name accreditation s))
      with (is_regulator env s) by done.
    rewrite Hreg, Hflag. cbn. by rewrite bool_decide_eq_false_2.
  - intros a' Hne. unfold auditor_at, isAuditor_at. cbn.
    by rewrite !mapping_get_insert_ne.
Qed.

Lemma registered_auditor_round_trip_witness :
  let s := constructor 1 in
  let s' := registerAuditor_post 7 "Auditor Seven" "ISO 14064" s in
  let env := env_of 1 100 in
  let env' := env_of 6 200 in
  getAuditor 7 env' s = Err AuditorNotFound /\
  getAuditor 7 env' s' =
    Ok (Auditor.mk 7 "Auditor Seven" "ISO 14064" true 0 0, s') /\
  is_active_auditor s' 7 = true /\
  (forall name' accreditation',
     registerAuditor 7 name' accreditation' env s'
     = Err AuditorAlreadyRegistered) /\
  (forall a', a' <> 7 ->
     auditor_at s' a' = auditor_at s a' /\
     isAuditor_at s' a' = isAuditor_at s a').
Proof.
  apply (registered_auditor_round_trip (constructor 1)
           (registerAuditor_post 7 "Auditor Seven" "ISO 14064" (constructor 1))
           (env_of 1 100) (env_of 6 200)).
  by vm_compute.
Defined.

(** ** The producer index *)

Lemma producerCredits_at_call_post c env s p :
  producerCredits_at (call_post c env s) p =
  producerCredits_at s p ++
  match c with
  | IssueCredit _ producer _ _ _ _ _ _ _ =>
      if bool_decide (p = producer) then [nextId s] else []
  | _ => []
  end.
Proof.
  destruct c; cbn [call_post]; rewrite ?app_nil_r; try reflexivity.
  - unfold producerCredits_at. cbn. rewrite mapping_get_insert.
    case_bool_decide; [by subst|by rewrite app_nil_r].
  - unfold verifyProductionBatch_post. by destruct (bool_decide _).
Qed.

Lemma StronglySorted_filter_lt (P : N -> Prop) `{!forall x, Decision (P x)}
    (l : list N) :
  StronglySorted N.lt l -> StronglySorted N.lt (filter P l).
Proof.
  induction 1 as [|x l Hl IH Hx]; [constructor|].
  rewrite filter_cons. destruct (decide (P x)); [|done].
  constructor; [done|]. rewrite Forall_forall in *.
  intros y [_ Hy]%list_elem_of_filter. by apply Hx.
Qed.

(** X22: the producer index only grows, at its end.  In a reachable state
    the array [getProducerCredits] returns for a producer is strictly
    increasing and holds exactly the existing credits of that producer, and
    after any sequence of transactions the old array is a prefix of the new
    one: transfers and retirements never touch it. *)
Theorem producer_index_append_only (s : State) (p : address)
    (txs : list (Env * Call)) (Hs : reachable s) :
  producerCredits_at s p `prefix_of` producerCredits_at (run txs s) p /\
  StronglySorted N.lt (producerCredits_at s p) /\
  (forall id, id ∈ producerCredits_at s p <->
     credit_exists s id = true /\ Credit.producer (credit_at s id) = p).
Proof.
  pose proof (reachable_Inv s Hs) as HI. split; [|split].
  - revert txs s Hs HI.
    intros txs s Hs _. revert txs s Hs.
    apply (run_rel (fun s s' =>
      producerCredits_at s p `prefix_of` producerCredits_at s' p)).
    + done.
    + intros s1 s2 s3 H12 H23. by etrans.
    + intros s env c _ _. rewrite producerCredits_at_call_post.
      by apply prefix_app_r.
  - rewrite (inv_producer s HI).
    apply StronglySorted_filter_lt, StronglySorted_ids_upto.
  - intros id. rewrite (inv_producer s HI), list_elem_of_filter.
    rewrite elem_of_ids_upto, <- (Inv_exists_range s id HI). tauto.
Qed.

Lemma producer_index_append_only_witness :
  let s := run txs_issued (constructor 1) in
  let txs := [ (env_of 1 150, issue_1000);
               (env_of 7 151, VerifyCredit 1 Verified "checked");
               (env_of 5 152, TransferCredit 1 6) ] in
  producerCredits_at s 5 `prefix_of` producerCredits_at (run txs s) 5 /\
  StronglySorted N.lt (producerCredits_at s 5) /\
  (forall id, id ∈ producerCredits_at s 5 <->
     credit_exists s id = true /\ Credit.producer (credit_at s id) = 5).
Proof.
  apply (producer_index_append_only (run txs_issued (constructor 1)) 5).
  apply run_from_constructor.
Defined.

(** ** Events *)

(** X23: one event per successful call, except for [setCertifier].  A
    successful call in a reachable state appends the events shown to the
    log: none for [setCertifier], exactly one for every other call (a
    successful [verifyProductionBatch] always completes the quorum and so
    always emits); and the log is never rewritten, it is a prefix of every
    later log. *)
Theorem one_event_per_call (s s' : State) (env : Env) (c : Call)
    (txs : list (Env * Call)) (Hs : reachable s)
    (Hcall : execute c env s = Ok (tt, s')) :
  log s' = log s ++ call_events c env s /\
  length (call_events c env s) =
    match c with SetCertifier _ => 0%nat | _ => 1%nat end /\
  log s' `prefix_of` log (run txs s').
Proof.
  pose proof (reachable_step s s' env c Hs Hcall) as Hs'.
  apply execute_Ok_iff in Hcall as [Hg ->].
  split; [apply log_call_post|]. split.
  - destruct c; try reflexivity. cbn [call_events call_guard] in *.
    destruct Hg as (_ & Hex & Hflag & _).
    destruct (reachable_batch_sound s batchId Hs Hex) as (_ & _ & Hn & _).
    rewrite Hflag in Hn. rewrite Hn. by rewrite bool_decide_eq_true_2.
  - revert txs. generalize dependent (call_post c env s). clear.
    intros s Hs txs. revert txs s Hs.
    apply (run_rel (fun s s' => log s `prefix_of` log s')).
    + done.
    + intros s1 s2 s3 H12 H23. by etrans.
    + intros s env c _ _. rewrite log_call_post. by apply prefix_app_r.
Qed.

Lemma one_event_per_call_witness :
  let s := run txs_batch_created (constructor 1) in
  let env := env_of 7 103 in
  let s' := verifyProductionBatch_post env 1 s in
  let txs := [ (env_of 1 104, SetCertifier 4) ] in
  log s' = log s ++ call_events (VerifyProductionBatch 1) env s /\
  length (call_events (VerifyProductionBatch 1) env s) = 1%nat /\
  log s' `prefix_of` log (run txs s').
Proof.
  apply (one_event_per_call (run txs_batch_created (constructor 1))
           (verifyProductionBatch_post (env_of 7 103) 1
              (run txs_batch_created (constructor 1)))
           (env_of 7 103) (VerifyProductionBatch 1)
           [ (env_of 1 104, SetCertifier 4) ]).
  - apply run_from_constructor.
  - by vm_compute.
Defined.

(** ** How a call moves the total of a producer *)

Lemma N_sum_app l1 l2 : N_sum (l1 ++ l2) = N_sum l1 + N_sum l2.
Proof. unfold N_sum. induction l1 as [|x l1 IH]; cbn; lia. Qed.

Lemma live_sum_filter (p : address) (f : N -> Credit.t) (l : list N) :
  N_sum (map Credit.amount
           (filter (fun c => counts_for p c = true) (map f l))) =
  N_sum (map (fun id => live_amount p (f id)) l).
Proof.
  induction l as [|x l IH]; [done|]. cbn [map]. unfold live_amount at 1.
  destruct (counts_for p (f x)) eqn:Hc.
  - rewrite filter_cons_True by done. cbn [map]. unfold N_sum in *. cbn.
    by rewrite IH.
  - rewrite filter_cons_False by (by rewrite Hc). unfold N_sum in *. cbn.
    by rewrite IH.
Qed.

Lemma stored_total_as_sum s p :
  Inv s ->
  stored_total s p =
  N_sum (map (fun id => live_amount p (credit_at s id))
             (ids_upto (nextId s))).
Proof.
  intros HI. unfold stored_total. rewrite <- live_sum_filter.
  apply N_sum_Permutation, Permutation_map.
  by rewrite (stored_credits_Permutation s HI).
Qed.

Lemma N_sum_map_ext (f g : N -> N) (l : list N) :
  (forall j, j ∈ l -> g j = f j) -> N_sum (map g l) = N_sum (map f l).
Proof.
  intros Hext. f_equal. apply map_ext_in. intros j Hj%list_elem_of_In.
  by apply Hext.
Qed.

Lemma N_sum_map_update (f g : N -> N) (l : list N) (id : N) :
  NoDup l -> id ∈ l -> (forall j, j <> id -> g j = f j) ->
  N_sum (map g l) + f id = N_sum (map f l) + g id.
Proof.
  intros Hnd Hin Hext. induction l as [|x l IH]; [by inversion Hin|].
  apply NoDup_cons in Hnd as [Hx Hnd]. cbn [map].
  change (N_sum (g x :: map g l)) with (g x + N_sum (map g l)).
  change (N_sum (f x :: map f l)) with (f x + N_sum (map f l)).
  destruct (decide (x = id)) as [->|Hne].
  - rewrite (N_sum_map_ext f g l); [lia|].
    intros j Hj. apply Hext. by intros ->.
  - apply elem_of_cons in Hin as [->|Hin]; [done|].
    rewrite (Hext x Hne). specialize (IH Hnd Hin). lia.
Qed.

Lemma live_amount_not_active p c :
  Credit.status c <> Active -> live_amount p c = 0.
Proof.
  intros Hst. unfold live_amount, counts_for.
  rewrite (bool_decide_eq_false_2 (Credit.status c = Active)) by done.
  by rewrite andb_false_r.
Qed.

(** X24: how each call moves the total of a producer's live credits.  A
    successful [issueCredit] adds the amount to the total of the credit's
    producer, a successful [suspendCredit] or [retireCredit] takes away what
    the credit counted for before, and every other call, [transferCredit]
    included, leaves every producer's total as it was. *)
Theorem producer_total_by_call (s s' : State) (env : Env) (c : Call)
    (p : address) (Hs : reachable s)
    (Hcall : execute c env s = Ok (tt, s')) :
  match c with
  | IssueCredit _ producer _ amount _ _ _ _ _ =>
      stored_total s' p =
      stored_total s p + (if bool_decide (producer = p) then amount else 0)
  | SuspendCredit id _ | RetireCredit id _ =>
      stored_total s' p + live_amount p (credit_at s id) = stored_total s p
  | _ => stored_total s' p = stored_total s p
  end.
Proof.
  pose proof (reachable_Inv s Hs) as HI.
  pose proof (Inv_step s s' env c HI Hcall) as HI'.
  apply execute_Ok_iff in Hcall as [Hg ->].
  rewrite (stored_total_as_sum _ p HI'), (stored_total_as_sum s p HI).
  assert (Hupd : forall id c',
            call_credit c env s = Some (id, c') ->
            nextId (call_post c env s) = nextId s ->
            credit_exists s id = true ->
            N_sum (map (fun j => live_amount p (credit_at (call_post c env s) j))
                       (ids_upto (nextId (call_post c env s))))
            + live_amount p (credit_at s id) =
            N_sum (map (fun j => live_amount p (credit_at s j))
                       (ids_upto (nextId s)))
            + live_amount p c').
  { intros id c' Hcc Hn Hex. rewrite Hn.
    rewrite (N_sum_map_update
               (fun j => live_amount p (credit_at s j))
               (fun j => live_amount p (credit_at (call_post c env s) j))
               _ id).
    - rewrite credit_at_call_post, Hcc.
      by rewrite (bool_decide_eq_true_2 (id = id)).
    - apply NoDup_ids_upto.
    - apply elem_of_ids_upto. by apply (Inv_exists_range s id HI).
    - intros j Hj. rewrite credit_at_call_post, Hcc.
      by rewrite (bool_decide_eq_false_2 (j = id)). }
  assert (Hsame : call_credit c env s = None ->
            nextId (call_post c env s) = nextId s ->
            N_sum (map (fun j => live_amount p (credit_at (call_post c env s) j))
                       (ids_upto (nextId (call_post c env s)))) =
            N_sum (map (fun j => live_amount p (credit_at s j))
                       (ids_upto (nextId s)))).
  { intros Hcc Hn. rewrite Hn. apply N_sum_map_ext. intros j _.
    by rewrite credit_at_call_post, Hcc. }
  destruct c; cbn [call_guard] in Hg.
  - by apply Hsame.
  - by apply Hsame.
  - by apply Hsame.
  - destruct Hg as [_ Hex].
    rewrite (Hupd id _ eq_refl eq_refl Hex).
    rewrite (live_amount_not_active p (Credit.set_status _ _)) by done. lia.
  - clear Hupd Hsame. cbn [call_post].
    replace (nextId (issueCredit_post env to producer producerName amount
                       productionDate renewableSource location carbonIntensity
                       metadata s)) with (nextId s + 1) by done.
    pose proof (inv_nextId s HI) as Hn.
    rewrite ids_upto_succ, map_app, N_sum_app by done.
    rewrite (N_sum_map_ext (fun j => live_amount p (credit_at s j))).
    + f_equal. cbn [map].
      change (call_post (IssueCredit to producer producerName amount
                productionDate renewableSource location carbonIntensity
                metadata) env s)
        with (issueCredit_post env to producer producerName amount
                productionDate renewableSource location carbonIntensity
                metadata s).
      unfold credit_at, issueCredit_post. cbn.
      rewrite mapping_get_insert_eq. unfold live_amount, counts_for. cbn.
      rewrite (bool_decide_eq_false_2 (nextId s = 0)) by lia. cbn.
      rewrite (bool_decide_eq_true_2 (Active = Active)) by done.
      destruct (bool_decide (producer = p)); cbn; lia.
    + intros j Hj%elem_of_ids_upto.
      unfold credit_at, issueCredit_post. cbn.
      rewrite mapping_get_insert_ne by lia. done.
  - destruct Hg as (_ & Hex & _).
    pose proof (Hupd id _ eq_refl eq_refl Hex) as H.
    assert (E : live_amount p
                  (Credit.set_verificationStatus status (credit_at s id))
                = live_amount p (credit_at s id)) by done.
    rewrite E in H. lia.
  - by apply Hsame.
  - apply Hsame; [done|]. cbn. unfold verifyProductionBatch_post.
    by destruct (bool_decide _).
  - destruct Hg as (Hex & _).
    pose proof (Hupd id _ eq_refl eq_refl Hex) as H.
    assert (E : live_amount p (Credit.set_owner to (credit_at s id))
                = live_amount p (credit_at s id)) by done.
    rewrite E in H. lia.
  - destruct Hg as (Hex & _).
    rewrite (Hupd id _ eq_refl eq_refl Hex).
    rewrite (live_amount_not_active p (Credit.set_status _ _)) by done. lia.
Qed.

Lemma producer_total_by_call_witness :
  stored_total (retireCredit_post (env_of 5 102) 1 "offset"
                  (run txs_verified (constructor 1))) 5
  + live_amount 5 (credit_at (run txs_verified (constructor 1)) 1)
  = stored_total (run txs_verified (constructor 1)) 5.
Proof.
  apply (producer_total_by_call (run txs_verified (constructor 1))
           (retireCredit_post (env_of 5 102) 1 "offset"
              (run txs_verified (constructor 1)))
           (env_of 5 102) (RetireCredit 1 "offset") 5).
  - apply run_from_constructor.
  - by vm_compute.
Defined.

(** ** Who can change what *)

(** X25: every change to a credit is made by the party entitled to it.  For
    a successful call in a reachable state: a credit comes into existence
    only by an [issueCredit] of the certifier or regulator; its owner
    changes only by a [transferCredit] sent by its owner while it is Active
    and Verified; its isRetired flag only by a [retireCredit] sent by its
    owner; its verification status only by a [verifyCredit] of an active
    auditor while it is Pending; its status only by a [suspendCredit] of the
    regulator or a [retireCredit] of its owner. *)
Theorem credit_changes_are_authorised (s s' : State) (env : Env) (c : Call)
    (id : uint256) (Hs : reachable s)
    (Hcall : execute c env s = Ok (tt, s')) :
  let old := credit_at s id in
  let new := credit_at s' id in
  (credit_exists s id = false -> credit_exists s' id = true ->
   (exists to producer pn amount pd rs loc ci md,
      c = IssueCredit to producer pn amount pd rs loc ci md /\
      Credit.owner new = to /\ Credit.producer new = producer /\
      Credit.amount new = amount) /\
   is_certifier env s = true /\ id = nextId s /\
   Credit.certifier new = msg_sender env /\
   Credit.verificationStatus new = Pending) /\
  (credit_exists s id = true -> Credit.owner new <> Credit.owner old ->
   c = TransferCredit id (Credit.owner new) /\
   msg_sender env = Credit.owner old /\
   Credit.verificationStatus old = Verified /\ Credit.status old = Active) /\
  (credit_exists s id = true -> Credit.isRetired new <> Credit.isRetired old ->
   (exists reason, c = RetireCredit id reason) /\
   msg_sender env = Credit.owner old /\
   Credit.verificationStatus old = Verified /\ Credit.status old = Active) /\
  (credit_exists s id = true ->
   Credit.verificationStatus new <> Credit.verificationStatus old ->
   (exists notes, c = VerifyCredit id (Credit.verificationStatus new) notes) /\
   is_active_auditor s (msg_sender env) = true /\
   Credit.verificationStatus old = Pending) /\
  (credit_exists s id = true -> Credit.status new <> Credit.status old ->
   ((exists reason, c = SuspendCredit id reason) /\
    msg_sender env = regulator s /\ Credit.status new = Suspended) \/
   ((exists reason, c = RetireCredit id reason) /\
    msg_sender env = Credit.owner old /\ Credit.status new = Retired)).
Proof.
  intros old new. subst old new.
  pose proof (reachable_Inv s Hs) as HI.
  pose proof (credit_exists_fresh s HI) as Hfresh.
  apply execute_Ok_iff in Hcall as [Hg ->].
  unfold credit_exists in *. rewrite credit_at_call_post.
  destruct c; cbn [call_credit call_guard] in *.
  all: try (repeat split; intros; congruence).
  all: case_id id; try (repeat split; intros; congruence).
  - (* suspendCredit *)
    destruct Hg as [Hreg _]. apply bool_decide_eq_true_1 in Hreg. cbn.
    repeat split; try (intros; congruence).
    intros _ _. left. split; [by eexists|done].
  - (* issueCredit *)
    destruct Hg as (Hcert & _). cbn.
    repeat split; try (intros; congruence).
    by exists to, producer, producerName, amount, productionDate,
      renewableSource, location, carbonIntensity, metadata.
  - (* verifyCredit *)
    destruct Hg as (Haud & _ & _ & Hp & _). cbn.
    repeat split; try (intros; congruence). by eexists.
  - (* transferCredit *)
    destruct Hg as (_ & Hown & _ & _ & Hact & Hver). cbn.
    repeat split; try (intros; congruence).
  - (* retireCredit *)
    destruct Hg as (_ & Hown & _ & Hact & Hver). cbn.
    repeat split; try (intros; congruence).
    + by eexists.
    + intros _ _. right. split; [by eexists|done].
Qed.

Lemma credit_changes_are_authorised_witness :
  let s := run txs_verified (constructor 1) in
  let s' := transferCredit_post 1 6 s in
  let env := env_of 5 102 in
  let c := TransferCredit 1 6 in
  let old := credit_at s 1 in
  let new := credit_at s' 1 in
  (credit_exists s 1 = false -> credit_exists s' 1 = true ->
   (exists to producer pn amount pd rs loc ci md,
      c = IssueCredit to producer pn amount pd rs loc ci md /\
      Credit.owner new = to /\ Credit.producer new = producer /\
      Credit.amount new = amount) /\
   is_certifier env s = true /\ 1 = nextId s /\
   Credit.certifier new = msg_sender env /\
   Credit.verificationStatus new = Pending) /\
  (credit_exists s 1 = true -> Credit.owner new <> Credit.owner old ->
   c = TransferCredit 1 (Credit.owner new) /\
   msg_sender env = Credit.owner old /\
   Credit.verificationStatus old = Verified /\ Credit.status old = Active) /\
  (credit_exists s 1 = true -> Credit.isRetired new <> Credit.isRetired old ->
   (exists reason, c = RetireCredit 1 reason) /\
   msg_sender env = Credit.owner old /\
   Credit.verificationStatus old = Verified /\ Credit.status old = Active) /\
  (credit_exists s 1 = true ->
   Credit.verificationStatus new <> Credit.verificationStatus old ->
   (exists notes, c = VerifyCredit 1 (Credit.verificationStatus new) notes) /\
   is_active_auditor s (msg_sender env) = true /\
   Credit.verificationStatus old = Pending) /\
  (credit_exists s 1 = true -> Credit.status new <> Credit.status old ->
   ((exists reason, c = SuspendCredit 1 reason) /\
    msg_sender env = regulator s /\ Credit.status new = Suspended) \/
   ((exists reason, c = RetireCredit 1 reason) /\
    msg_sender env = Credit.owner old /\ Credit.status new = Retired)).
Proof.
  apply (credit_changes_are_authorised (run txs_verified (constructor 1))
           (transferCredit_post 1 6 (run txs_verified (constructor 1)))
           (env_of 5 102) (TransferCredit 1 6) 1).
  - apply run_from_constructor.
  - by vm_compute.
Defined.

Lemma regulator_transact env c s : regulator (transact env c s) = regulator s.
Proof.
  unfold transact.
  destruct (execute c env s) as [[[] s']|e] eqn:Hexec; [|done].
  apply execute_Ok_iff in Hexec as [_ ->]. apply regulator_call_post.
Qed.

(** X26: only a registration by the regulator makes an account an auditor.
    If an address is not a registered auditor in a reachable state and is
    one after a sequence of transactions, that sequence holds a
    [registerAuditor] for the address sent by the regulator. *)
Theorem auditor_activation_needs_regulator (s : State) (a : address)
    (txs : list (Env * Call)) (Hs : reachable s)
    (Hoff : isAuditor_at s a = false)
    (Hon : isAuditor_at (run txs s) a = true) :
  exists env name accreditation,
    (env, RegisterAuditor a name accreditation) ∈ txs /\
    msg_sender env = regulator s.
Proof.
  revert s Hs Hoff Hon. induction txs as [|[env c] txs IH];
    intros s Hs Hoff Hon; [cbn in Hon; congruence|].
  rewrite run_cons in Hon.
  destruct (isAuditor_at (transact env c s) a) eqn:Hmid.
  - unfold transact in Hmid.
    destruct (execute c env s) as [[[] s1]|e] eqn:Hexec; [|congruence].
    apply execute_Ok_iff in Hexec as [Hg ->].
    rewrite isAuditor_at_call_post in Hmid.
    destruct c; cbn [call_isAuditor call_guard] in *; try congruence.
    + destruct (decide (a = auditorAddress)) as [->|Hne];
        [|rewrite bool_decide_eq_false_2 in Hmid by done; congruence].
      destruct Hg as [Hreg%bool_decide_eq_true_1 _].
      exists env, name, accreditation. split; [left|done].
    + destruct (decide (a = auditorAddress)) as [->|Hne];
        [rewrite bool_decide_eq_true_2 in Hmid by done; congruence
        |rewrite bool_decide_eq_false_2 in Hmid by done; congruence].
  - destruct (IH (transact env c s)) as (env1 & n1 & acc1 & Hin & Hsender);
      [by apply transact_reachable|done|done|].
    exists env1, n1, acc1. split; [by right|].
    by rewrite regulator_transact in Hsender.
Qed.

Lemma auditor_activation_needs_regulator_witness :
  exists env name accreditation,
    (env, RegisterAuditor 7 name accreditation) ∈ txs_verified /\
    msg_sender env = regulator (constructor 1).
Proof.
  apply (auditor_activation_needs_regulator (constructor 1) 7 txs_verified).
  - apply reachable_init.
  - reflexivity.
  - reflexivity.
Defined.
